(** * influenciae: inverse-Hessian-vector products and first-order influence

    A shallow embedding of
      - [deel/influenciae/influence/inverse_hessian_vector_product.py]
        (classes [ExactIHVP] and [ConjugateGradientDescentIHVP]) and
      - [deel/influenciae/influence/first_order_influence_calculator.py]
        (class [FirstOrderInfluenceCalculator]).

    Tensors of rank one are lists, tensors of rank two are lists of rows that
    carry their column count.  The element type is abstract (class [Scalar]):
    every TensorFlow arithmetic primitive the code calls is one operation of
    the class, so the general theorems hold for any arithmetic, IEEE floats
    included.  Three instances are given: binary64 floats (the kernel's
    primitive floats, i.e. [tf.float64]), the integers, and the real numbers
    (exact arithmetic). *)

From Stdlib Require Import List ZArith Lia Bool Arith PeanoNat Permutation.
From Stdlib Require Import Floats.PrimFloat.
From Stdlib Require Import Reals Lra.
Import ListNotations.

Set Implicit Arguments.

(* ================================================================== *)
(** ** Element types and arithmetic                                    *)
(* ================================================================== *)

(** The dtypes a dataset or a model can have. *)
Inductive DType := tf_float16 | tf_float32 | tf_float64 | tf_int32 | tf_int64.

(** The arithmetic the code uses on tensor elements:
    [tf.zeros], [+], [*], [/], [tf.sqrt] (inside [tf.norm]), the comparison
    of two scores, [tf.cast] of an element to a dtype, and [tf.cast] of an
    integer (a sample count) to a dtype. *)
Class Scalar (F : Type) := {
  fzero : F;
  fadd : F -> F -> F;
  fmul : F -> F -> F;
  fdiv : F -> F -> F;
  fsqrt : F -> F;
  fleb : F -> F -> bool;
  tf_cast : DType -> F -> F;
  tf_cast_int : DType -> Z -> F
}.

(** Exceptions the embedded code raises.  [ArgumentError] stands for the
    outcome of the statement [raise ArgumentError(...)] of
    [ExactIHVP.__init__] (the specification calls this kind a configuration
    error; [argparse.ArgumentError] takes two arguments and is built there
    with one, so what CPython propagates is the [TypeError] of that
    construction: the constructor fails either way);
    [InvalidArgumentError] is TensorFlow's error for operands whose shapes do
    not fit; [StopIteration] is raised by [next] on an exhausted iterator;
    [AttributeError] by an attribute that does not exist. *)
Inductive exn := ArgumentError | InvalidArgumentError | StopIteration | AttributeError.

Inductive result (A : Type) :=
| Ok (a : A)
| Raise (e : exn).
Arguments Raise {A} e.

Definition bind {A B} (r : result A) (k : A -> result B) : result B :=
  match r with
  | Ok a => k a
  | Raise e => Raise e
  end.

Notation "x <- e ;; k" := (bind e (fun x => k))
  (at level 61, e at next level, right associativity).

Definition is_ok {A} (r : result A) : bool :=
  match r with Ok _ => true | Raise _ => false end.

(* ================================================================== *)
(** ** Tensors                                                         *)
(* ================================================================== *)

Section Tensors.
Context {F : Type} `{Scalar F}.

(** A rank-2 tensor: [ncols] is [shape[1]], [length mrows] is [shape[0]]. *)
Record Matrix := mkMatrix { ncols : nat; mrows : list (list F) }.

Definition nrows (M : Matrix) : nat := length (mrows M).

(** Every row has [ncols] entries: what every [tf.Tensor] satisfies. *)
Definition well_shaped (M : Matrix) : Prop :=
  Forall (fun r => length r = ncols M) (mrows M).

Fixpoint zip_with {A B C} (f : A -> B -> C) (u : list A) (v : list B) : list C :=
  match u, v with
  | a :: u', b :: v' => f a b :: zip_with f u' v'
  | _, _ => []
  end.

(** [tf.reduce_sum] of a rank-1 tensor: the entries added up from the
    first on; zero for no entry, the entry itself for one (TensorFlow reduces
    nothing along an axis of size one). *)
Definition reduce_sum (v : list F) : F :=
  match v with
  | [] => fzero
  | a :: v' => fold_left fadd v' a
  end.

(** One entry of a matrix product: the sum of the elementwise products. *)
Definition dot (u v : list F) : F := reduce_sum (zip_with fmul u v).

(** [tf.zeros((r, c))]. *)
Definition zeros (r c : nat) : Matrix := mkMatrix c (repeat (repeat fzero c) r).

(** [A + B] on tensors of one shape. *)
Definition mat_add (A B : Matrix) : Matrix :=
  mkMatrix (ncols A) (zip_with (zip_with fadd) (mrows A) (mrows B)).

(** [A / s] for a scalar tensor [s]. *)
Definition mat_div_scalar (A : Matrix) (s : F) : Matrix :=
  mkMatrix (ncols A) (map (map (fun a => fdiv a s)) (mrows A)).

Definition mat_map (f : F -> F) (A : Matrix) : Matrix :=
  mkMatrix (ncols A) (map (map f) (mrows A)).

(** [tf.matmul(A, B, transpose_b=True)]: [A] is [r x c], [B] is [n x c],
    the product is [r x n]; TensorFlow raises when the inner dimensions
    differ. *)
Definition matmul_transpose_b (A B : Matrix) : result Matrix :=
  if Nat.eqb (ncols A) (ncols B)
  then Ok (mkMatrix (nrows B)
                    (map (fun a => map (fun b => dot a b) (mrows B)) (mrows A)))
  else Raise InvalidArgumentError.

(** The [j]-th column. *)
Definition column (M : Matrix) (j : nat) : list F :=
  map (fun r => nth j r fzero) (mrows M).

(** [tf.transpose] of a rank-2 tensor. *)
Definition transpose (M : Matrix) : Matrix :=
  mkMatrix (nrows M) (map (column M) (seq 0 (ncols M))).

(** [tf.matmul(A, B)]: [A] is [r x c], [B] is [c x n]. *)
Definition matmul (A B : Matrix) : result Matrix :=
  if Nat.eqb (ncols A) (nrows B)
  then Ok (mkMatrix (ncols B)
                    (map (fun a => map (fun j => dot a (column B j))
                                       (seq 0 (ncols B))) (mrows A)))
  else Raise InvalidArgumentError.

(** [tf.concat(Ms, axis=0)]: the rows of the operands one after the other;
    TensorFlow raises on an empty list and when the column counts differ. *)
Definition concat_axis0 (Ms : list Matrix) : result Matrix :=
  match Ms with
  | [] => Raise InvalidArgumentError
  | M :: _ =>
      if forallb (fun M' => Nat.eqb (ncols M') (ncols M)) Ms
      then Ok (mkMatrix (ncols M) (concat (map mrows Ms)))
      else Raise InvalidArgumentError
  end.

(** [fuel] rows of [c] consecutive entries each. *)
Fixpoint rows_of (fuel c : nat) (data : list F) : list (list F) :=
  match fuel with
  | O => []
  | S fuel' => firstn c data :: rows_of fuel' c (skipn c data)
  end.

(** [tf.reshape(t, (-1, c))] of a tensor with row-major entries [data]:
    the inferred dimension is [size / c]; TensorFlow raises when [c] is zero
    (nothing can be inferred) and when [c] does not divide the size. *)
Definition reshape_rows (c : nat) (data : list F) : result Matrix :=
  match c with
  | O => Raise InvalidArgumentError
  | S _ => if Nat.eqb (length data mod c) 0
           then Ok (mkMatrix c (rows_of (length data / c) c data))
           else Raise InvalidArgumentError
  end.

(** [tf.reshape(t, (r, -1))]: [r] rows, the column count inferred. *)
Definition reshape_first (r : nat) (data : list F) : result Matrix :=
  match r with
  | O => Raise InvalidArgumentError
  | S _ => if Nat.eqb (length data mod r) 0
           then Ok (mkMatrix (length data / r) (rows_of r (length data / r) data))
           else Raise InvalidArgumentError
  end.

(** [tf.reshape(v, (1, -1))] of a rank-1 tensor. *)
Definition reshape_one_row (v : list F) : Matrix := mkMatrix (length v) [v].

(** [tf.reshape(v, (n, 1))] of a rank-1 tensor; TensorFlow raises when the
    tensor does not have [n] entries. *)
Definition reshape_column (n : nat) (v : list F) : result Matrix :=
  if Nat.eqb (length v) n
  then Ok (mkMatrix 1 (map (fun a => [a]) v))
  else Raise InvalidArgumentError.

(** [tf.norm(v)] of a rank-1 tensor (Euclidean): the square root of the
    sum of the squares. *)
Definition norm (v : list F) : F :=
  fsqrt (reduce_sum (map (fun a => fmul a a) v)).

(** [tf.norm(M, axis=0, keepdims=True)] as its single row. *)
Definition norm_axis0 (M : Matrix) : list F :=
  map (fun j => norm (column M j)) (seq 0 (ncols M)).

(** [tf.reduce_sum(M, axis=1)]. *)
Definition reduce_sum_axis1 (M : Matrix) : list F := map reduce_sum (mrows M).

End Tensors.

Arguments Matrix F : clear implicits.

Section BroadcastTensors.
Context {F : Type} `{Scalar F}.

(** The size of one axis of the result of an elementwise operation, from
    its sizes in the two operands (NumPy broadcasting, which TensorFlow
    follows): the sizes are equal, or one of them is one. *)
Definition broadcast_size (a b : nat) : option nat :=
  if Nat.eqb a b then Some a
  else if Nat.eqb a 1 then Some b
  else if Nat.eqb b 1 then Some a
  else None.

(** What an operand contributes at position [(i, j)] of the result: an axis
    of size one is read at index 0. *)
Definition broadcast_entry (M : Matrix F) (i j : nat) : F :=
  nth (if Nat.eqb (ncols M) 1 then 0 else j)
      (nth (if Nat.eqb (nrows M) 1 then 0 else i) (mrows M) [])
      fzero.

(** [tf.math.multiply(A, B)] on rank-2 tensors; TensorFlow raises when the
    shapes cannot be broadcast. *)
Definition multiply (A B : Matrix F) : result (Matrix F) :=
  match broadcast_size (nrows A) (nrows B), broadcast_size (ncols A) (ncols B) with
  | Some r, Some c =>
      Ok (mkMatrix c
            (map (fun i => map (fun j => fmul (broadcast_entry A i j)
                                              (broadcast_entry B i j))
                               (seq 0 c))
                 (seq 0 r)))
  | _, _ => Raise InvalidArgumentError
  end.

(** [tf.reduce_sum(M, axis=1, keepdims=True)]: one column. *)
Definition reduce_sum_axis1_keepdims (M : Matrix F) : Matrix F :=
  mkMatrix 1 (map (fun r => [reduce_sum r]) (mrows M)).

(** [tf.reduce_sum(M, axis=0, keepdims=True)]: one row, entry [j] the sum
    of column [j]. *)
Definition reduce_sum_axis0_keepdims (M : Matrix F) : Matrix F :=
  mkMatrix (ncols M) [map (fun j => reduce_sum (column M j)) (seq 0 (ncols M))].

End BroadcastTensors.


(* ================================================================== *)
(** ** Datasets                                                        *)
(* ================================================================== *)

Section Datasets.
Variable A : Type.

(** A batched [tf.data.Dataset]: [source.batch(_batch_size)].  Iterating
    it yields the elements of the source in order, [_batch_size] at a time,
    the last batch holding the remainder.  [element_dtype] is
    [element_spec[0].dtype].  The batch size is positive: TensorFlow refuses
    [batch(0)].  On a value of this type [assert_batched_dataset] returns
    without raising. *)
Record Dataset := mkDataset {
  _batch_size : positive;
  unbatched : list A;
  element_dtype : DType
}.

Fixpoint chunks (fuel n : nat) (l : list A) : list (list A) :=
  match fuel with
  | O => []
  | S fuel' =>
      match l with
      | [] => []
      | _ :: _ => firstn n l :: chunks fuel' n (skipn n l)
      end
  end.

(** The batches [for batch in dataset] goes through. *)
Definition batches (ds : Dataset) : list (list A) :=
  chunks (length (unbatched ds)) (Pos.to_nat (_batch_size ds)) (unbatched ds).

(** [dataset.cardinality()]: the number of batches. *)
Definition dataset_cardinality (ds : Dataset) : Z := Z.of_nat (length (batches ds)).

(** Modelled from the spec: [dataset_size] of [deel.influenciae.common] is
    not part of these files; section 4.2 has it as the total
    training-sample count. *)
Definition dataset_size (ds : Dataset) : Z := Z.of_nat (length (unbatched ds)).

End Datasets.

(* ================================================================== *)
(** ** The model abstraction and linear algebra consumed by the code   *)
(* ================================================================== *)

(** Modelled from the spec: the model abstraction ([InfluenceModel] of
    [deel.influenciae.common]) is not part of these files.  Section 6 of
    the specification gives what is consumed from it: the parameter count,
    the reverse-mode per-sample gradient (one row of [nb_params] entries per
    sample), and second derivatives obtained from the differentiation
    facility: [per_sample_hessian x y] is the jacobian of the per-sample
    gradient with respect to the parameters, i.e. what
    [tape.jacobian(grads, weights)] holds for one sample once reshaped and
    concatenated to [nb_params x nb_params]. *)
Class InfluenceModel (F X Y : Type) := {
  nb_params : nat;
  weights_dtype : DType;
  per_sample_gradient : X -> Y -> list F;
  per_sample_hessian : X -> Y -> Matrix F;
  per_sample_gradient_length :
    forall x y, length (per_sample_gradient x y) = nb_params
}.

(** [tf.linalg.pinv], TensorFlow's Moore-Penrose pseudo-inverse. *)
Class LinAlg (F : Type) := { pinv : Matrix F -> Matrix F }.

(** The value of an [int32] tensor after an addition: two's complement
    wrap-around. *)
Definition int32_wrap (z : Z) : Z := (z + 2 ^ 31) mod 2 ^ 32 - 2 ^ 31.

(** The argument [group] of [compute_ihvp]: a batched dataset of
    (input, label) pairs, or a batched dataset of vectors (whose batches are
    rank-2 tensors, so [len(group.element_spec.shape) == 2]). *)
Inductive Group (F X Y : Type) :=
| Points (ds : Dataset (X * Y))
| Vectors (ds : Dataset (list F)).
Arguments Points {F X Y} ds.
Arguments Vectors {F X Y} ds.

(** Python evaluates a list comprehension to the end before the list is
    used, and fails on the first element that raises. *)
Fixpoint sequence {A} (rs : list (result A)) : result (list A) :=
  match rs with
  | [] => Ok []
  | r :: rs' => a <- r ;; l <- sequence rs' ;; Ok (a :: l)
  end.

(* ================================================================== *)
(** ** [ExactIHVP]                                                     *)
(* ================================================================== *)

Module ExactIHVP.
Section WithModel.
Context {F X Y : Type} `{Scalar F} `{LinAlg F} `{InfluenceModel F X Y}.

(** The calls [_compute_inv_hessian] makes on its collaborators. *)
Inductive event :=
| call_batch_jacobian_tensor (inputs : list X) (labels : list Y)
| call_batch_jacobian (ds : Dataset (X * Y))
| call_batch_gradient (ds : Dataset (X * Y))
| call_pinv (M : Matrix F).

(** [model.batch_jacobian_tensor(x, y)] followed by
    [tape.jacobian(grads, weights)], each part reshaped to
    [(len(grads), nb_params, -1)] and concatenated on the last axis:
    one [nb_params x nb_params] matrix per sample of the batch. *)
Definition batch_hessians (batch : list (X * Y)) : list (Matrix F) :=
  map (fun s => per_sample_hessian (fst s) (snd s)) batch.

(** [tf.reduce_sum(curr_hess, axis=0)]: the matrices added up from the
    first on. *)
Definition reduce_sum_axis0 (Ms : list (Matrix F)) : Matrix F :=
  match Ms with
  | [] => zeros nb_params nb_params
  | M :: Ms' => fold_left mat_add Ms' M
  end.

(** [tf.reduce_mean(hessian, axis=0)]: the sum over the first axis divided
    by its length. *)
Definition reduce_mean_axis0 (Ms : list (Matrix F)) : Matrix F :=
  mat_div_scalar (reduce_sum_axis0 Ms)
                 (tf_cast_int weights_dtype (Z.of_nat (length Ms))).

(** One turn of the loop [for batched_samples in dataset] of
    [_compute_inv_hessian]; the state is [(hess, nb_elt, calls)]. *)
Definition hessian_loop_body (dtype : DType)
    (st : Matrix F * Z * list event) (batched_samples : list (X * Y))
  : Matrix F * Z * list event :=
  let '(hess, nb_elt, calls) := st in
  let batch_size := Z.of_nat (length (map fst batched_samples)) in
  let nb_elt := int32_wrap (nb_elt + batch_size) in
  let calls := calls ++ [call_batch_jacobian_tensor (map fst batched_samples)
                                                    (map snd batched_samples)] in
  let curr_hess := batch_hessians batched_samples in
  let curr_hess := reduce_sum_axis0 curr_hess in
  let curr_hess := mat_map (tf_cast dtype) curr_hess in
  (mat_add hess curr_hess, nb_elt, calls).

(** [ExactIHVP._compute_inv_hessian]: the inverse Hessian and the calls
    made. *)
Definition _compute_inv_hessian (parallel_iter : option nat)
    (dataset : Dataset (X * Y)) : Matrix F * list event :=
  match parallel_iter with
  | None =>
      let dtype := element_dtype dataset in
      let '(hess, nb_elt, calls) :=
        fold_left (hessian_loop_body dtype) (batches dataset)
                  (zeros nb_params nb_params, 0%Z, []) in
      let hessian := mat_div_scalar hess (tf_cast_int dtype nb_elt) in
      (pinv hessian, calls ++ [call_pinv hessian])
  | Some _ =>
      let grads_call :=
        if Pos.eqb (_batch_size dataset) 1
        then call_batch_gradient dataset
        else call_batch_jacobian dataset in
      let hess := batch_hessians (unbatched dataset) in
      let hessian := reduce_mean_axis0 hess in
      (pinv hessian, [grads_call; call_pinv hessian])
  end.

(** The attributes of an instance. *)
Record t := mk {
  train_set : option (Dataset (X * Y));
  inv_hessian : Matrix F;
  hessian : option (Matrix F)
}.

(** [ExactIHVP.__init__]: the instance, or the exception raised, and the
    calls made. *)
Definition __init__ (train_dataset : option (Dataset (X * Y)))
    (train_hessian : option (Matrix F)) (parallel_iter : option nat)
  : result t * list event :=
  match train_dataset with
  | Some ds =>
      let '(inv, calls) := _compute_inv_hessian parallel_iter ds in
      (Ok (mk (Some ds) inv None), calls)
  | None =>
      match train_hessian with
      | Some h => (Ok (mk None (pinv h) (Some h)), [call_pinv h])
      | None => (Raise ArgumentError, [])
      end
  end.

(** Modelled from the spec: [model.batch_jacobian(dataset)] is not part of
    these files; by section 6 it holds the per-sample gradients of the
    points of the dataset, one row per point in dataset order.  The value
    here is its row-major content. *)
Definition batch_jacobian (ds : Dataset (X * Y)) : list F :=
  concat (map (fun s => per_sample_gradient (fst s) (snd s)) (unbatched ds)).

(** [ExactIHVP.compute_ihvp].  With [use_gradient] the group holds points;
    without it the group holds vectors and
    [len(group.element_spec.shape) == 2] selects the first of the two
    list comprehensions.  A group of the other kind makes the call fail
    ([element_spec] of a dataset of pairs is a tuple and has no [shape]). *)
Definition compute_ihvp (self : t) (group : Group F X Y)
    (use_gradient : bool) : result (Matrix F) :=
  match use_gradient, group with
  | true, Points ds =>
      grads <- reshape_rows nb_params (batch_jacobian ds) ;;
      matmul_transpose_b (inv_hessian self) grads
  | false, Vectors ds =>
      products <- sequence
        (map (fun vector =>
                v <- reshape_rows nb_params (concat vector) ;;
                matmul_transpose_b (inv_hessian self) v)
             (batches ds)) ;;
      concat_axis0 products
  | _, _ => Raise AttributeError
  end.

End WithModel.
Arguments t : clear implicits.
Arguments event : clear implicits.

Section WithHessian.
Context {F X Y : Type} `{Scalar F} `{LinAlg F} `{InfluenceModel F X Y}.

(** Modelled from the spec: [model.batch_jacobian_tensor(data, targets)] is
    not part of these files; by section 6 it holds the per-sample gradients
    of the samples of the batch, one row per sample in batch order.  The
    batch [(data, targets)] is held as the list of its samples, the value
    is the row-major content of the tensor. *)
Definition batch_jacobian_tensor (group_batch : list (X * Y)) : list F :=
  concat (map (fun s => per_sample_gradient (fst s) (snd s)) group_batch).

(** [ExactIHVP.compute_ihvp_single_batch].  [group_batch] is the tuple
    [(group_data, group_targets)]; [inv_hessian_dtype] is
    [self.inv_hessian.dtype].  Without [use_gradient] the method reads
    [group_batch.element_spec], an attribute a tuple does not have. *)
Definition compute_ihvp_single_batch (inv_hessian_dtype : DType) (self : t F X Y)
    (group_batch : list (X * Y)) (use_gradient : bool) : result (Matrix F) :=
  if use_gradient then
    grads <- reshape_rows nb_params (batch_jacobian_tensor group_batch) ;;
    matmul_transpose_b (inv_hessian self) (mat_map (tf_cast inv_hessian_dtype) grads)
  else Raise AttributeError.

(** The statement
    [if self.hessian is None: self.hessian = tf.linalg.pinv(self.inv_hessian)]
    of [compute_hvp]: the instance after it and the calls it made. *)
Definition assign_hessian_if_none (self : t F X Y) : t F X Y * list (event F X Y) :=
  match hessian self with
  | None =>
      (mk (train_set self) (inv_hessian self) (Some (pinv (inv_hessian self))),
       [call_pinv (X := X) (Y := Y) (inv_hessian self)])
  | Some _ => (self, [])
  end.

(** [self.hessian] as the products of [compute_hvp] read it, after that
    statement. *)
Definition hessian_or_pinv (self : t F X Y) : Matrix F :=
  match hessian self with
  | Some h => h
  | None => pinv (inv_hessian self)
  end.

(** [ExactIHVP.compute_hvp]: the result (or the exception raised), the
    instance after the call and the calls made.  The gradients and the
    vectors are reshaped to [(-1, self.inv_hessian.shape[0])]; as in
    [compute_ihvp], a group of the other kind makes the call fail. *)
Definition compute_hvp (self : t F X Y) (group : Group F X Y) (use_gradient : bool)
  : result (Matrix F) * t F X Y * list (event F X Y) :=
  let '(self, calls) := assign_hessian_if_none self in
  let hvp :=
    match use_gradient, group with
    | true, Points ds =>
        grads <- reshape_rows (nrows (inv_hessian self)) (batch_jacobian ds) ;;
        matmul_transpose_b (hessian_or_pinv self) grads
    | false, Vectors ds =>
        products <- sequence
          (map (fun vector =>
                  v <- reshape_rows (nrows (inv_hessian self)) (concat vector) ;;
                  matmul_transpose_b (hessian_or_pinv self) v)
               (batches ds)) ;;
        concat_axis0 products
    | _, _ => Raise AttributeError
    end in
  (hvp, self, calls).

End WithHessian.
End ExactIHVP.

(* ================================================================== *)
(** ** [ConjugateGradientDescentIHVP]                                  *)
(* ================================================================== *)

(** Modelled from the spec: the model split at the extractor layer
    ([BaseInfluenceModel] over [model.layers[extractor_layer:]], and the head
    [tf.keras.Sequential(model.layers[:extractor_layer])]) is not part of
    these files.  Sections 4.2 and 6 give what is consumed:
    - [feature_extractor]: the head sub-network on one input;
    - [first_slice]: the first slice of one feature map along its leading
      axis (what [from_tensor_slices] yields first on a single feature map);
    - [tail_nb_params], [tail_dtype], [weight_sizes]: the parameter count of
      the tail sub-network, the dtype of its weights, and the number of
      entries of each weight tensor, in the order of [model.weights];
    - [hvp_oracle x features labels]: the forward-over-backward composition
      of [__sub_call], one tensor per weight: the derivative along [x] of the
      reverse-mode jacobian of [loss_function(labels, model(features))]. *)
Class SplitModel (F X Feat Y : Type) := {
  feature_extractor : X -> Feat;
  first_slice : Feat -> Feat;
  tail_nb_params : nat;
  tail_dtype : DType;
  weight_sizes : list nat;
  hvp_oracle : list (list F) -> list Feat -> list Y -> list (list F);
  hvp_oracle_size :
    forall x fs ys, length (concat (hvp_oracle x fs ys)) = tail_nb_params
}.

Module ConjugateGradientDescentIHVP.
Section WithModel.
Context {F X Feat Y : Type} `{Scalar F} `{SplitModel F X Feat Y}.

(** The attributes of an instance that the operator [__call__] reads. *)
Record t := mk {
  n_cgd_iters : option nat;
  n_hessian : Z;
  cardinality : Z;
  train_set : Dataset (Feat * Y)
}.

(** [_compute_feature_map_dataset] on a dataset of (input, label) pairs:
    the feature maps of all inputs are concatenated ([tf.concat] raises on
    the empty list of a dataset without batches), squeezed on axis 0 when
    there is exactly one of them, sliced again along axis 0, zipped with the
    labels of the unbatched dataset and batched with the same batch size.
    When the dataset has one point the slices are those of its single
    feature map, and the zip keeps the first. *)
Definition _compute_feature_map_dataset (dataset : Dataset (X * Y))
  : result (Dataset (Feat * Y)) :=
  match batches dataset with
  | [] => Raise InvalidArgumentError
  | _ :: _ =>
      let feature_maps :=
        map (fun s => feature_extractor (fst s)) (unbatched dataset) in
      let slices :=
        match feature_maps with
        | [f] => [first_slice f]
        | _ => feature_maps
        end in
      Ok (mkDataset (_batch_size dataset)
                    (combine slices (map snd (unbatched dataset)))
                    (element_dtype dataset))
  end.

(** [ConjugateGradientDescentIHVP.__init__]. *)
Definition __init__ (train_dataset : Dataset (X * Y)) (n_cgd_iters : option nat)
  : result t :=
  let n_hessian := dataset_size train_dataset in
  let cardinality := dataset_cardinality train_dataset in
  train_set <- _compute_feature_map_dataset train_dataset ;;
  Ok (mk n_cgd_iters n_hessian cardinality train_set).

(** The Python runtime as far as [__call__] touches it: the iterators
    created so far, each with the batches it has not handed out yet, and the
    number of batches handed out by [next]. *)
Record Runtime := mkRuntime {
  iterators : list (list (list (Feat * Y)));
  fetched : nat
}.

Fixpoint set_nth {A} (n : nat) (a : A) (l : list A) : list A :=
  match l, n with
  | [], _ => []
  | _ :: l', O => a :: l'
  | b :: l', S n' => b :: set_nth n' a l'
  end.

(** [iter(dataset)]: a new iterator, positioned at the first batch. *)
Definition iter (ds : Dataset (Feat * Y)) (rt : Runtime) : nat * Runtime :=
  (length (iterators rt), mkRuntime (iterators rt ++ [batches ds]) (fetched rt)).

(** [next(iterator)]. *)
Definition next (it : nat) (rt : Runtime) : result (list (Feat * Y)) * Runtime :=
  match nth_error (iterators rt) it with
  | Some (b :: rest) =>
      (Ok b, mkRuntime (set_nth it rest (iterators rt)) (S (fetched rt)))
  | _ => (Raise StopIteration, rt)
  end.

(** The loop of [__reshape_vector]: [g = grads[index:(index + size)]] is
    reshaped to the shape of the weight, which [tf.reshape] refuses when the
    slice does not hold [size] entries. *)
Fixpoint reshape_vector_loop (grads : list F) (weights : list nat) (index : nat)
  : result (list (list F)) :=
  match weights with
  | [] => Ok []
  | size :: weights' =>
      let g := firstn size (skipn index grads) in
      if Nat.eqb (length g) size
      then grads_reshape <- reshape_vector_loop grads weights' (index + size) ;;
           Ok (g :: grads_reshape)
      else Raise InvalidArgumentError
  end.

(** [__reshape_vector]: [grads[index:(index + size)]] for each weight. *)
Definition __reshape_vector (grads : list F) (weights : list nat)
  : result (list (list F)) :=
  reshape_vector_loop grads weights 0.

(** [__sub_call]: the Hessian-vector product for the feature maps and labels
    handed in, scaled by [shape(feature_maps)[0] / n_hessian]. *)
Definition __sub_call (self : t) (x : list (list F))
    (feature_maps_hessian_current : list Feat) (y_hessian_current : list Y) : list F :=
  let hessian_vector_product :=
    hvp_oracle x feature_maps_hessian_current y_hessian_current in
  let hvp := concat hessian_vector_product in
  let weight :=
    fdiv (tf_cast_int tail_dtype (Z.of_nat (length feature_maps_hessian_current)))
         (tf_cast_int tail_dtype (n_hessian self)) in
  map (fun h => fmul h weight) hvp.

(** [tf.reduce_sum(rows, axis=0)] of the stacked outputs of [tf.map_fn]:
    the rows added up from the first on. *)
Definition reduce_sum_rows (rows : list (list F)) : list F :=
  match rows with
  | [] => repeat fzero tail_nb_params
  | r :: rows' => fold_left (zip_with fadd) rows' r
  end.

(** [batched_hvp]: [tf.expand_dims] makes a batch of one of the sample. *)
Definition batched_hvp (self : t) (x : list (list F)) (elt : Feat * Y) : list F :=
  __sub_call self x [fst elt] [snd elt].

(** [body_func] of [__call__]. *)
Definition body_func (self : t) (x : list (list F)) (dataset_iterator : nat)
    (i : Z) (hessian_vector_product : list F) (rt : Runtime)
  : result (Z * list F) * Runtime :=
  match next dataset_iterator rt with
  | (Ok block, rt') =>
      let hessian_vector_product_inner :=
        reduce_sum_rows (map (batched_hvp self x) block) in
      (Ok ((i + 1)%Z, zip_with fadd hessian_vector_product hessian_vector_product_inner),
       rt')
  | (Raise e, rt') => (Raise e, rt')
  end.

(** [tf.while_loop(cond=lambda i, _: i < cardinality, body=body_func, ...)]
    run eagerly; [None] when the fuel runs out first. *)
Fixpoint while_loop (fuel : nat) (bound : Z)
    (body : Z -> list F -> Runtime -> result (Z * list F) * Runtime)
    (i : Z) (acc : list F) (rt : Runtime)
  : option (result (Z * list F) * Runtime) :=
  if (i <? bound)%Z then
    match fuel with
    | O => None
    | S fuel' =>
        match body i acc rt with
        | (Ok (i', acc'), rt') => while_loop fuel' bound body i' acc' rt'
        | (Raise e, rt') => Some (Raise e, rt')
        end
    end
  else Some (Ok (i, acc), rt).

(** [ConjugateGradientDescentIHVP.__call__]. *)
Definition __call__ (self : t) (x_initial : list F) (rt : Runtime)
  : option (result (Matrix F) * Runtime) :=
  match __reshape_vector x_initial weight_sizes with
  | Raise e => Some (Raise e, rt)
  | Ok x =>
      let hvp_init := repeat fzero tail_nb_params in
      let '(dataset_iterator, rt) := iter (train_set self) rt in
      match while_loop (Z.to_nat (cardinality self)) (cardinality self)
                       (body_func self x dataset_iterator) 0%Z hvp_init rt with
      | None => None
      | Some (Ok (_, hessian_vector_product), rt') =>
          Some (reshape_column tail_nb_params hessian_vector_product, rt')
      | Some (Raise e, rt') => Some (Raise e, rt')
      end
  end.

End WithModel.
Arguments t : clear implicits.
Arguments Runtime : clear implicits.
End ConjugateGradientDescentIHVP.

(* ================================================================== *)
(** ** The bounded top-k accumulator                                   *)
(* ================================================================== *)

(** Modelled from the spec: [BatchedSortedDict] of
    [deel.influenciae.common.sorted_dict] is not part of these files.
    Sections 3 and 4.4 of the specification: for each query row an ordered
    list of at most k (score, payload) entries sorted descending by score;
    [add_all] merges in the new batch's pairs row by row, a new entry going
    after the existing entries of equal score, and prunes the list back to
    size k after the batch; [get] returns per row the score list and the
    payload list. *)
Module BatchedSortedDict.
Section WithScores.
Context {F V : Type} `{Scalar F}.

Record t := mk {
  maximum_size : nat;
  batch_dict : list (list (F * V))
}.

Definition __init__ (batch_size maximum_size : nat) : t :=
  mk maximum_size (repeat [] batch_size).

(** One entry into a list sorted descending by score: after every entry
    whose score is at least its own. *)
Fixpoint insert (e : F * V) (entries : list (F * V)) : list (F * V) :=
  match entries with
  | [] => [e]
  | h :: entries' =>
      if fleb (fst e) (fst h) then h :: insert e entries' else e :: h :: entries'
  end.

(** One row of [add_all]: the pairs of the batch are merged in in batch
    order, then the list is pruned to the k highest. *)
Definition add_row (k : nat) (entries : list (F * V)) (pairs : list (F * V))
  : list (F * V) :=
  firstn k (fold_left (fun acc e => insert e acc) pairs entries).

Definition add_all (self : t) (score_matrix : Matrix F) (payload_matrix : list (list V)) : t :=
  mk (maximum_size self)
     (zip_with (fun entries row => add_row (maximum_size self) entries
                                            (combine (fst row) (snd row)))
               (batch_dict self)
               (combine (mrows score_matrix) payload_matrix)).

Definition get (self : t) : list (list F) * list (list V) :=
  (map (map fst) (batch_dict self), map (map snd) (batch_dict self)).

End WithScores.
Arguments t : clear implicits.
End BatchedSortedDict.

(* ================================================================== *)
(** ** [FirstOrderInfluenceCalculator]                                 *)
(* ================================================================== *)

(** The interface [InverseHessianVectorProduct] as the calculator uses it:
    [compute_ihvp(group, use_gradient)].  Its documented result for a group
    of points is "a tensor containing one rank-1 tensor per input point"
    (section 3: shape P x n, one column per input point). *)
Class InverseHessianVectorProduct (B F X Y : Type) := {
  compute_ihvp : B -> Group F X Y -> bool -> result (Matrix F);
  compute_ihvp_shape :
    forall b ds M, compute_ihvp b (Points ds) true = Ok M ->
                   well_shaped M /\ ncols M = length (unbatched ds)
}.

(** Modelled from the spec: [assert_compatible_datasets] of
    [BaseInfluenceCalculator] (the superclass, [influence_calculator.py]) is
    not part of these files.  Its callers name its result [dataset_size] and
    use it as the number of points of either dataset; sections 4.3 and 7 of
    the specification: the computation fails when the two sets differ in
    total sample count. *)
Class BaseInfluenceCalculator (X Y : Type) := {
  assert_compatible_datasets :
    Dataset (X * Y) -> Dataset (X * Y) -> result nat;
  assert_compatible_datasets_size :
    forall dataset_a dataset_b size,
      assert_compatible_datasets dataset_a dataset_b = Ok size ->
      length (unbatched dataset_a) = size /\ length (unbatched dataset_b) = size
}.

Module FirstOrderInfluenceCalculator.
Section WithBackend.
Context {B F X Y : Type} `{Scalar F} `{InfluenceModel F X Y}
        `{InverseHessianVectorProduct B F X Y}.

Record t := mk {
  ihvp_calculator : B;
  normalize : bool
}.

(** [v / d] for [v] of shape [(p, n)] and [d] of shape [(1, n)]. *)
Definition div_broadcast_rows (v : Matrix F) (d : list F) : Matrix F :=
  mkMatrix (ncols v) (map (fun r => zip_with fdiv r d) (mrows v)).

(** [__normalize_if_needed] on a rank-2 tensor:
    [v / tf.norm(v, axis=0, keepdims=True)]. *)
Definition __normalize_if_needed (self : t) (v : Matrix F) : Matrix F :=
  if normalize self then div_broadcast_rows v (norm_axis0 v) else v.

(** [__normalize_if_needed] on a rank-1 tensor: the norm is one number. *)
Definition __normalize_if_needed_rank1 (self : t) (v : list F) : list F :=
  if normalize self then map (fun a => fdiv a (norm v)) v else v.

(** [compute_influence]. *)
Definition compute_influence (self : t) (dataset : Dataset (X * Y))
  : result (Matrix F) :=
  influence_vectors <- compute_ihvp (ihvp_calculator self) (Points dataset) true ;;
  let influence_vectors := __normalize_if_needed self influence_vectors in
  let influence_vectors := transpose influence_vectors in
  Ok influence_vectors.

(** [compute_influence_group]. *)
Definition compute_influence_group (self : t) (group : Dataset (X * Y))
  : result (Matrix F) :=
  ihvp <- compute_ihvp (ihvp_calculator self) (Points group) true ;;
  let reduced_ihvp := reduce_sum_axis1 ihvp in
  let reduced_ihvp := __normalize_if_needed_rank1 self reduced_ihvp in
  let influence_group := reshape_one_row reduced_ihvp in
  Ok influence_group.

(** The payloads [top_k] hands to [add_all] for one training batch:
    [tf.repeat(tf.expand_dims(batch[0], axis=0), batch_size, axis=0)]. *)
Definition top_k_payloads (batch : list (X * Y)) (batch_size : nat) : list (list X) :=
  repeat (map fst batch) batch_size.

(** The scores [top_k] hands to [add_all] for one training batch. *)
Definition top_k_scores (self : t) (grads_to_evaluate : Matrix F)
    (dtype : DType) (batch : list (X * Y)) : result (Matrix F) :=
  match length (map fst batch) with
  | O => Raise InvalidArgumentError
  | S _ =>
      ihvp <- compute_ihvp (ihvp_calculator self)
                (Points (mkDataset (Pos.of_nat (length (map fst batch))) batch dtype))
                true ;;
      let ihvp := __normalize_if_needed self ihvp in
      matmul grads_to_evaluate ihvp
  end.

(** One turn of the loop [for batch in dataset_train] of [top_k]. *)
Definition top_k_body (self : t) (grads_to_evaluate : Matrix F) (batch_size : nat)
    (dtype : DType) (batched_sorted_dic : BatchedSortedDict.t F X)
    (batch : list (X * Y)) : result (BatchedSortedDict.t F X) :=
  influence_values <- top_k_scores self grads_to_evaluate dtype batch ;;
  Ok (BatchedSortedDict.add_all batched_sorted_dic influence_values
                                (top_k_payloads batch batch_size)).

(** [top_k] on the batches [for batch in dataset_train] yields, in the order
    it yields them: per query row the top-k influence values and the top-k
    training samples. *)
Definition top_k_over_batches (self : t) (sample_to_evaluate : list (X * Y))
    (dtype : DType) (train_batches : list (list (X * Y))) (k : nat)
  : result (list (list F) * list (list X)) :=
  let grads_to_evaluate :=
    concat (map (fun s => per_sample_gradient (fst s) (snd s)) sample_to_evaluate) in
  let batch_size := length sample_to_evaluate in
  grads_to_evaluate <- reshape_first batch_size grads_to_evaluate ;;
  let batched_sorted_dic : BatchedSortedDict.t F X :=
    BatchedSortedDict.__init__ batch_size k in
  batched_sorted_dic <-
    fold_left (fun acc batch =>
                 d <- acc ;;
                 top_k_body self grads_to_evaluate batch_size dtype d batch)
              train_batches (Ok batched_sorted_dic) ;;
  Ok (BatchedSortedDict.get batched_sorted_dic).

(** [top_k]. *)
Definition top_k (self : t) (sample_to_evaluate : list (X * Y))
    (dataset_train : Dataset (X * Y)) (k : nat)
  : result (list (list F) * list (list X)) :=
  top_k_over_batches self sample_to_evaluate (element_dtype dataset_train)
                     (batches dataset_train) k.

End WithBackend.
Arguments t : clear implicits.

Section InfluenceValues.
Context {B F X Y : Type} `{Scalar F} `{InfluenceModel F X Y}
        `{InverseHessianVectorProduct B F X Y} `{BaseInfluenceCalculator X Y}.

(** [compute_influence_values]; [dataset_to_evaluate] defaults to
    [dataset_train]. *)
Definition compute_influence_values (self : t B) (dataset_train : Dataset (X * Y))
    (dataset_to_evaluate : option (Dataset (X * Y))) : result (Matrix F) :=
  let dataset_to_evaluate :=
    match dataset_to_evaluate with
    | None => dataset_train
    | Some d => d
    end in
  dataset_size <- assert_compatible_datasets dataset_train dataset_to_evaluate ;;
  let grads := ExactIHVP.batch_jacobian dataset_to_evaluate in
  grads <- reshape_first dataset_size grads ;;
  ihvp <- compute_ihvp (ihvp_calculator self) (Points dataset_train) true ;;
  let ihvp := __normalize_if_needed self ihvp in
  products <- multiply grads (transpose ihvp) ;;
  let influence_values := reduce_sum_axis1_keepdims products in
  Ok influence_values.

(** [compute_influence_values_group]; [group_to_evaluate] defaults to
    [group_train]. *)
Definition compute_influence_values_group (self : t B) (group_train : Dataset (X * Y))
    (group_to_evaluate : option (Dataset (X * Y))) : result (Matrix F) :=
  let group_to_evaluate :=
    match group_to_evaluate with
    | None => group_train
    | Some d => d
    end in
  dataset_size <- assert_compatible_datasets group_train group_to_evaluate ;;
  grads <- reshape_first dataset_size (ExactIHVP.batch_jacobian group_to_evaluate) ;;
  let reduced_grads := reduce_sum_axis0_keepdims grads in
  ihvp <- compute_ihvp (ihvp_calculator self) (Points group_train) true ;;
  let reduced_ihvp := reduce_sum_axis1_keepdims ihvp in
  let reduced_ihvp := __normalize_if_needed self reduced_ihvp in
  let influence_values_group := matmul reduced_grads reduced_ihvp in
  influence_values_group.

End InfluenceValues.
End FirstOrderInfluenceCalculator.

(* ================================================================== *)
(** ** Two arithmetics and two small models, for concrete runs         *)
(* ================================================================== *)

Fixpoint pos_to_float (p : positive) : float :=
  match p with
  | xH => 1%float
  | xO q => (2 * pos_to_float q)%float
  | xI q => (2 * pos_to_float q + 1)%float
  end.

Definition Z_to_float (z : Z) : float :=
  match z with
  | Z0 => 0%float
  | Zpos p => pos_to_float p
  | Zneg p => (- pos_to_float p)%float
  end.

(** Tensors of dtype [tf.float64]: IEEE 754 binary64 arithmetic.  Every
    tensor of the concrete runs has this dtype, so a cast of an element is
    the identity. *)
#[local] Instance float64_Scalar : Scalar float := {|
  fzero := 0%float;
  fadd := PrimFloat.add;
  fmul := PrimFloat.mul;
  fdiv := PrimFloat.div;
  fsqrt := PrimFloat.sqrt;
  fleb := PrimFloat.leb;
  tf_cast := fun _ a => a;
  tf_cast_int := fun _ z => Z_to_float z
|}.

(** Integer arithmetic: exact, with a total order. *)
#[local] Instance Z_Scalar : Scalar Z := {|
  fzero := 0%Z;
  fadd := Z.add;
  fmul := Z.mul;
  fdiv := Z.div;
  fsqrt := Z.sqrt;
  fleb := Z.leb;
  tf_cast := fun _ a => a;
  tf_cast_int := fun _ z => z
|}.

(** Exact arithmetic on the real numbers. *)
#[local] Instance R_Scalar : Scalar R := {|
  fzero := 0%R;
  fadd := Rplus;
  fmul := Rmult;
  fdiv := Rdiv;
  fsqrt := sqrt;
  fleb := fun a b => if Rle_dec a b then true else false;
  tf_cast := fun _ a => a;
  tf_cast_int := fun _ z => IZR z
|}.

(** A model with two parameters whose per-sample gradient at the sample
    [(x, y)] is [(x, y)] and whose per-sample Hessian there is
    [[x*x, x*y], [x*y, y*y]]. *)
Definition pair_model_lemma {F} (x y : F) : length [x; y] = 2.
Proof. reflexivity. Defined.

#[local] Instance float_pair_model : InfluenceModel float float float := {|
  nb_params := 2;
  weights_dtype := tf_float64;
  per_sample_gradient := fun x y => [x; y];
  per_sample_hessian := fun x y =>
    mkMatrix 2 [[(x * x)%float; (x * y)%float]; [(x * y)%float; (y * y)%float]];
  per_sample_gradient_length := @pair_model_lemma float
|}.

#[local] Instance Z_pair_model : InfluenceModel Z Z Z := {|
  nb_params := 2;
  weights_dtype := tf_int64;
  per_sample_gradient := fun x y => [x; y];
  per_sample_hessian := fun x y =>
    mkMatrix 2 [[(x * x)%Z; (x * y)%Z]; [(x * y)%Z; (y * y)%Z]];
  per_sample_gradient_length := @pair_model_lemma Z
|}.

(** A stand-in for [tf.linalg.pinv] in concrete runs: the transpose.  The
    runs below compare the calls made and the argument of [pinv], never its
    value. *)
#[local] Instance transpose_LinAlg {F} `{Scalar F} : LinAlg F := {| pinv := transpose |}.

(** Exact arithmetic: the two small models over the real numbers. *)
Definition R_pair_model : InfluenceModel R R R := {|
  nb_params := 2;
  weights_dtype := tf_float64;
  per_sample_gradient := fun x y => [x; y];
  per_sample_hessian := fun x y =>
    mkMatrix 2 [[(x * x)%R; (x * y)%R]; [(x * y)%R; (y * y)%R]];
  per_sample_gradient_length := @pair_model_lemma R
|}.

Definition R_identity_hvp (x : list (list R)) (fs ys : list R) : list (list R) :=
  [[hd 0%R (concat x)]].

Definition R_identity_hvp_size (x : list (list R)) (fs ys : list R)
  : length (concat (R_identity_hvp x fs ys)) = 1 := eq_refl.

Definition R_split_model : SplitModel R R R R := {|
  feature_extractor := fun x => x;
  first_slice := fun f => f;
  tail_nb_params := 1;
  tail_dtype := tf_float64;
  weight_sizes := [1];
  hvp_oracle := R_identity_hvp;
  hvp_oracle_size := R_identity_hvp_size
|}.

(** A stand-in for [assert_compatible_datasets] in concrete runs: it
    compares the sample counts and returns the common one. *)
Definition same_size {X Y : Type} (dataset_a dataset_b : Dataset (X * Y)) : result nat :=
  if Nat.eqb (length (unbatched dataset_a)) (length (unbatched dataset_b))
  then Ok (length (unbatched dataset_a))
  else Raise InvalidArgumentError.

Definition same_size_size {X Y : Type} (dataset_a dataset_b : Dataset (X * Y))
    (size : nat) :
  same_size dataset_a dataset_b = Ok size ->
  length (unbatched dataset_a) = size /\ length (unbatched dataset_b) = size.
Proof.
  unfold same_size.
  destruct (Nat.eqb_spec (length (unbatched dataset_a)) (length (unbatched dataset_b)))
    as [E|_]; [|discriminate].
  intros E'. injection E' as <-. split; [reflexivity | now symmetry].
Defined.

Definition same_size_calculator {X Y : Type} : BaseInfluenceCalculator X Y := {|
  assert_compatible_datasets := same_size;
  assert_compatible_datasets_size := same_size_size
|}.

(* ================================================================== *)
(** * Specifications                                                   *)
(* ================================================================== *)

(** ** The streamed Hessian of [ExactIHVP] *)

Section StreamedHessianSpec.
Context {F X Y : Type} `{Scalar F} `{LinAlg F} `{InfluenceModel F X Y}.

(** The mean Hessian in the words of the specification: per batch, the
    per-sample second derivatives summed over the batch and cast to the
    accumulator's dtype are added into a running accumulator; the
    accumulator is then divided by the total sample count. *)
Definition streamed_mean_hessian (dataset : Dataset (X * Y)) : Matrix F :=
  let dtype := element_dtype dataset in
  let accumulator :=
    fold_left (fun acc batch =>
                 mat_add acc (mat_map (tf_cast dtype)
                                      (ExactIHVP.reduce_sum_axis0
                                         (ExactIHVP.batch_hessians batch))))
              (batches dataset) (zeros nb_params nb_params) in
  mat_div_scalar accumulator
                 (tf_cast_int dtype (Z.of_nat (length (unbatched dataset)))).

(** The calls of one streamed pass: the per-sample gradients of each batch
    in turn, then one pseudo-inversion, of the mean Hessian. *)
Definition streamed_calls (dataset : Dataset (X * Y)) : list (ExactIHVP.event F X Y) :=
  map (fun batch => ExactIHVP.call_batch_jacobian_tensor (F := F)
                      (map fst batch) (map snd batch))
      (batches dataset)
  ++ [ExactIHVP.call_pinv (X := X) (Y := Y) (streamed_mean_hessian dataset)].

(** C1 in the words of the specification, for one construction. *)
Definition streams_the_dataset_once (parallel_iter : option nat)
    (dataset : Dataset (X * Y)) : Prop :=
  ExactIHVP._compute_inv_hessian parallel_iter dataset
  = (pinv (streamed_mean_hessian dataset), streamed_calls dataset).

Definition is_call_pinv (e : ExactIHVP.event F X Y) : bool :=
  match e with
  | ExactIHVP.call_pinv _ => true
  | _ => false
  end.

End StreamedHessianSpec.

(** ** The matrix-free operator of [ConjugateGradientDescentIHVP] *)

Section MatrixFreeOperatorSpec.
Context {F X Feat Y : Type} `{Scalar F} `{SplitModel F X Feat Y}.

Local Abbreviation cgd := (ConjugateGradientDescentIHVP.t Feat Y).
Local Abbreviation runtime := (ConjugateGradientDescentIHVP.Runtime Feat Y).

(** The exact Hessian-vector product of one sample: what [__sub_call]
    computes before it scales. *)
Definition per_sample_hvp (x : list (list F)) (s : Feat * Y) : list F :=
  concat (hvp_oracle x [fst s] [snd s]).

(** C2 in the words of the specification: the per-sample products summed
    across the batch, scaled by (batch size / total training sample count),
    accumulated over the batches. *)
Definition batch_weighted_hvp (self : cgd) (x : list (list F)) : list F :=
  fold_left
    (fun acc batch =>
       let weight := fdiv (tf_cast_int tail_dtype (Z.of_nat (length batch)))
                          (tf_cast_int tail_dtype
                                       (ConjugateGradientDescentIHVP.n_hessian self)) in
       zip_with fadd acc
         (map (fun h => fmul h weight)
              (ConjugateGradientDescentIHVP.reduce_sum_rows
                 (map (per_sample_hvp x) batch))))
    (batches (ConjugateGradientDescentIHVP.train_set self))
    (repeat fzero tail_nb_params).

(** What the code accumulates: each per-sample product is scaled by
    (1 / total training sample count), the scaled products are summed across
    the batch, and the sums are accumulated over the batches. *)
Definition sample_weighted_hvp (self : cgd) (x : list (list F)) : list F :=
  fold_left
    (fun acc batch =>
       let weight := fdiv (tf_cast_int tail_dtype 1%Z)
                          (tf_cast_int tail_dtype
                                       (ConjugateGradientDescentIHVP.n_hessian self)) in
       zip_with fadd acc
         (ConjugateGradientDescentIHVP.reduce_sum_rows
            (map (fun s => map (fun h => fmul h weight) (per_sample_hvp x s)) batch)))
    (batches (ConjugateGradientDescentIHVP.train_set self))
    (repeat fzero tail_nb_params).

(** C2 in the words of the specification, for one call. *)
Definition returns_batch_weighted_hvp (self : cgd) (x_initial : list F)
    (rt : runtime) : Prop :=
  exists (x : list (list F)) (rt' : runtime),
    ConjugateGradientDescentIHVP.__reshape_vector x_initial weight_sizes = Ok x
    /\ ConjugateGradientDescentIHVP.__call__ self x_initial rt
       = Some (reshape_column tail_nb_params (batch_weighted_hvp self x), rt').

End MatrixFreeOperatorSpec.

(** ** Normalization *)

(** C7 in the words of the specification, on one call: a column of the IHVP
    tensor that is exactly zero is returned as it is. *)
Definition zero_columns_left_as_zero {B F X Y : Type} `{Scalar F}
    `{InverseHessianVectorProduct B F X Y}
    (self : FirstOrderInfluenceCalculator.t B) (dataset : Dataset (X * Y)) : Prop :=
  forall (M R' : Matrix F) (j : nat),
    compute_ihvp (FirstOrderInfluenceCalculator.ihvp_calculator self)
                 (Points dataset) true = Ok M ->
    FirstOrderInfluenceCalculator.compute_influence self dataset = Ok R' ->
    j < length (unbatched dataset) ->
    Forall (fun a => a = fzero) (column M j) ->
    nth j (mrows R') [] = column M j.

(** ** The top-k accumulator and [top_k] *)

Section AccumulatorSpec.
Context {F V : Type} `{Scalar F}.

Local Abbreviation entry := (F * V)%type.

(** Entries that can be inserted in either order: different scores, or the
    very same entry. *)
Definition commuting (e e' : entry) : Prop := e = e' \/ fst e <> fst e'.

(** [fleb] restricted to the values in [S] is a total order. *)
Definition total_order_on (S : F -> Prop) : Prop :=
  (forall a b, S a -> S b -> fleb a b = true \/ fleb b a = true)
  /\ (forall a b c, S a -> S b -> S c ->
                   fleb a b = true -> fleb b c = true -> fleb a c = true)
  /\ (forall a b, S a -> S b -> fleb a b = true -> fleb b a = true -> a = b).

(** The scores of the entries of a row, and of the rows of a feed, are in
    [S]. *)
Definition scores_in (S : F -> Prop) (row : list entry) : Prop :=
  forall e, In e row -> S (fst e).

Definition rows_scores_in (S : F -> Prop) (f : list (list entry)) : Prop :=
  forall row, In row f -> scores_in S row.

(** What two batches feed to the rows commutes row by row. *)
Definition rows_commute (f g : list (list entry)) : Prop :=
  forall row row', In (row, row') (combine f g) ->
                   forall e e', In e row -> In e' row' -> commuting e e'.

(** The accumulator after the feeds [fs], from the rows [st]. *)
Definition accumulate (k : nat) (fs : list (list (list entry)))
    (st : list (list entry)) : list (list entry) :=
  fold_left (fun st f => zip_with (BatchedSortedDict.add_row k) st f) fs st.

End AccumulatorSpec.

Section TopKSpec.
Context {B F X Y : Type} `{Scalar F} `{InfluenceModel F X Y}
        `{InverseHessianVectorProduct B F X Y}.

Local Abbreviation calculator := (FirstOrderInfluenceCalculator.t B).

(** The (score, payload) pairs one training batch feeds to each query row:
    the rows of the score matrix zipped with the rows of the payload
    tensor. *)
Definition pairs_fed (self : calculator) (grads_to_evaluate : Matrix F)
    (batch_size : nat) (dtype : DType) (batch : list (X * Y))
  : result (list (list (F * X))) :=
  influence_values <-
    FirstOrderInfluenceCalculator.top_k_scores self grads_to_evaluate dtype batch ;;
  Ok (map (fun row => combine (fst row) (snd row))
          (combine (mrows influence_values)
                   (FirstOrderInfluenceCalculator.top_k_payloads batch batch_size))).

(** [tf.reshape(grads_to_evaluate, (batch_size, -1))] of [top_k]. *)
Definition query_gradients (sample_to_evaluate : list (X * Y)) : result (Matrix F) :=
  reshape_first (length sample_to_evaluate)
    (concat (map (fun s => per_sample_gradient (fst s) (snd s)) sample_to_evaluate)).

(** The scores that a run of [top_k] over the batches [bs] feeds to the
    accumulator. *)
Definition score_fed (self : calculator) (sample : list (X * Y)) (dtype : DType)
    (bs : list (list (X * Y))) (a : F) : Prop :=
  exists g b f row e,
    query_gradients sample = Ok g /\ In b bs
    /\ pairs_fed self g (length sample) dtype b = Ok f
    /\ In row f /\ In e row /\ fst e = a.

(** The accumulator after the training batch [snd fed], whose score matrix
    is [fst fed]: every query row merges the scores of its row of the matrix
    paired with the inputs of the batch. *)
Definition merge_batch (dict : BatchedSortedDict.t F X)
    (fed : Matrix F * list (X * Y)) : BatchedSortedDict.t F X :=
  let k := BatchedSortedDict.maximum_size dict in
  BatchedSortedDict.mk k
    (zip_with (fun entries srow =>
                 BatchedSortedDict.add_row k entries (combine srow (map fst (snd fed))))
              (BatchedSortedDict.batch_dict dict)
              (mrows (fst fed))).

(** Two feeds have no score in common in any query row. *)
Definition no_shared_score (f g : list (list (F * X))) : Prop :=
  forall row row', In (row, row') (combine f g) ->
                   forall e e', In e row -> In e' row' -> fst e <> fst e'.

(** C6 in the words of the specification, for two orders of the batches:
    the same scores and the same retained training samples. *)
Definition same_top_k (self : calculator) (sample : list (X * Y)) (dtype : DType)
    (bs bs' : list (list (X * Y))) (k : nat) : Prop :=
  FirstOrderInfluenceCalculator.top_k_over_batches self sample dtype bs k
  = FirstOrderInfluenceCalculator.top_k_over_batches self sample dtype bs' k.

(** The rows of a feed: one per query row, each with one pair per point of
    the batch. *)
Definition feed_of_size {V : Type} (n : nat) (f : list (list (F * V))) (b : nat) : Prop :=
  length f = n /\ Forall (fun row => length row = b) f.

End TopKSpec.

(* ================================================================== *)
(** * Inputs of the concrete runs                                      *)
(* ================================================================== *)

(** The failing run of C3: two vectors of two entries in batches of one,
    the inverse Hessian the identity. *)
Definition identity2 : Matrix float :=
  mkMatrix 2 [[1%float; 0%float]; [0%float; 1%float]].

Definition two_vectors : Dataset (list float) :=
  mkDataset 1 [[1%float; 2%float]; [3%float; 4%float]] tf_float64.

(** One point, and calculators over the identity as inverse Hessian. *)
Definition one_point : Dataset (float * float) :=
  mkDataset 1 [(1%float, 2%float)] tf_float64.

Definition float_exact : ExactIHVP.t float float float :=
  ExactIHVP.mk None identity2 None.

Definition float_calculator (normalize : bool)
  : FirstOrderInfluenceCalculator.t (ExactIHVP.t float float float) :=
  FirstOrderInfluenceCalculator.mk float_exact normalize.

Definition Z_identity2 : Matrix Z := mkMatrix 2 [[1%Z; 0%Z]; [0%Z; 1%Z]].

Definition Z_one_point : Dataset (Z * Z) := mkDataset 1 [(0%Z, 5%Z)] tf_int64.

Definition Z_calculator (normalize : bool)
  : FirstOrderInfluenceCalculator.t (ExactIHVP.t Z Z Z) :=
  FirstOrderInfluenceCalculator.mk (ExactIHVP.mk None Z_identity2 None) normalize.

(** A point whose gradient is zero. *)
Definition zero_gradient_point : Dataset (float * float) :=
  mkDataset 1 [(0%float, 0%float)] tf_float64.

(** A point whose gradient has an entry of 2^700: its square is beyond the
    largest binary64 number. *)
Definition huge_gradient_point : Dataset (float * float) :=
  mkDataset 1 [(0x1p+700%float, 0%float)] tf_float64.

(** Two points in batches of one. *)
Definition two_points : Dataset (float * float) :=
  mkDataset 1 [(1%float, 2%float); (3%float, 4%float)] tf_float64.

(** A split model with one parameter whose per-sample Hessian is the
    1 x 1 identity: the Hessian-vector product of every sample is the
    vector. *)
Definition identity_hvp (x : list (list float)) (fs ys : list float)
  : list (list float) := [[hd 0%float (concat x)]].

Definition identity_hvp_size (x : list (list float)) (fs ys : list float)
  : length (concat (identity_hvp x fs ys)) = 1 := eq_refl.

#[local] Instance float_split_model : SplitModel float float float float := {|
  feature_extractor := fun x => x;
  first_slice := fun f => f;
  tail_nb_params := 1;
  tail_dtype := tf_float64;
  weight_sizes := [1];
  hvp_oracle := identity_hvp;
  hvp_oracle_size := identity_hvp_size
|}.

(** Two points in one batch of two. *)
Definition one_batch_of_two : Dataset (float * float) :=
  mkDataset 2 [(1%float, 2%float); (3%float, 4%float)] tf_float64.

(** The instance the constructor builds from it. *)
Definition float_cgd : ConjugateGradientDescentIHVP.t float float :=
  ConjugateGradientDescentIHVP.mk (Some 100) 2 1 one_batch_of_two.

Definition fresh_runtime : ConjugateGradientDescentIHVP.Runtime float float :=
  ConjugateGradientDescentIHVP.mkRuntime [] 0.

(** Runs of [top_k]: the query [(1, 1)] and training points whose
    inverse-Hessian-vector products are their own gradients. *)
Definition float_query : list (float * float) := [(1%float, 1%float)].

Definition two_queries : list (float * float) :=
  [(1%float, 1%float); (1%float, 0%float)].

Definition tied_batches : list (list (float * float)) :=
  [[(2%float, 3%float)]; [(3%float, 2%float)]].

Definition tied_batches_swapped : list (list (float * float)) :=
  [[(3%float, 2%float)]; [(2%float, 3%float)]].

Definition distinct_batches : list (list (float * float)) :=
  [[(2%float, 3%float)]; [(7%float, 1%float)]].

Definition distinct_batches_swapped : list (list (float * float)) :=
  [[(7%float, 1%float)]; [(2%float, 3%float)]].

(** Three points in batches of two. *)
Definition three_points : Dataset (float * float) :=
  mkDataset 2 [(2%float, 3%float); (7%float, 1%float); (0%float, 4%float)] tf_float64.

(** The same runs on integers. *)
Definition Z_query : list (Z * Z) := [(1%Z, 1%Z)].

Definition Z_three_points : Dataset (Z * Z) :=
  mkDataset 2 [(2%Z, 3%Z); (7%Z, 1%Z); (0%Z, 4%Z)] tf_int64.

(** Three vectors in batches of two: the last batch holds one. *)
Definition three_vectors : Dataset (list float) :=
  mkDataset 2 [[1%float; 2%float]; [3%float; 4%float]; [5%float; 6%float]] tf_float64.

(** Two vectors in one batch. *)
Definition two_vectors_in_one_batch : Dataset (list float) :=
  mkDataset 2 [[1%float; 2%float]; [3%float; 4%float]] tf_float64.

(** A dataset without points. *)
Definition no_point : Dataset (float * float) := mkDataset 1 [] tf_float64.

(** A precomputed Hessian of one row and three columns, for a model of
    two parameters. *)
Definition one_by_three : Matrix float := mkMatrix 3 [[1%float; 0%float; 0%float]].

(** An instance that holds the Hessian it was built from. *)
Definition float_exact_with_hessian : ExactIHVP.t float float float :=
  ExactIHVP.mk None identity2 (Some identity2).

(** Instances over [one_batch_of_two] that record the cardinality
    TensorFlow reports for a dataset of unknown size, and a cardinality of
    two. *)
Definition float_cgd_unknown_cardinality : ConjugateGradientDescentIHVP.t float float :=
  ConjugateGradientDescentIHVP.mk (Some 100) 2 (-2) one_batch_of_two.

Definition float_cgd_two_turns : ConjugateGradientDescentIHVP.t float float :=
  ConjugateGradientDescentIHVP.mk (Some 100) 2 2 one_batch_of_two.

(** Runs over the real numbers. *)
Definition R_identity2 : Matrix R := mkMatrix 2 [[1%R; 0%R]; [0%R; 1%R]].

Definition R_one_point : Dataset (R * R) := mkDataset 1 [(3%R, 4%R)] tf_float64.

Definition R_three_points : Dataset (R * R) :=
  mkDataset 2 [(1%R, 2%R); (3%R, 4%R); (5%R, 6%R)] tf_float64.

Definition R_cgd : ConjugateGradientDescentIHVP.t R R :=
  ConjugateGradientDescentIHVP.mk (Some 100) 3 2 R_three_points.

Definition R_fresh_runtime : ConjugateGradientDescentIHVP.Runtime R R :=
  ConjugateGradientDescentIHVP.mkRuntime [] 0.

(* ================================================================== *)
(** * Properties                                                       *)
(* ================================================================== *)

(** ** [ExactIHVP.__init__]: which arguments are accepted *)

Section ExactInit.
Context {F X Y : Type} `{Scalar F} `{LinAlg F} `{InfluenceModel F X Y}.

(** C4.  The constructor raises exactly when neither argument is supplied;
    in particular it succeeds when both a dataset and a Hessian are
    supplied (the claim wants an error there), and then builds the very
    instance it builds from the dataset alone: the Hessian is ignored. *)
Theorem ExactIHVP_init_outcome :
  forall (train_dataset : option (Dataset (X * Y)))
         (train_hessian : option (Matrix F)) (parallel_iter : option nat),
    is_ok (fst (ExactIHVP.__init__ train_dataset train_hessian parallel_iter))
    = match train_dataset, train_hessian with
      | None, None => false
      | _, _ => true
      end
    /\ (forall ds h,
           train_dataset = Some ds -> train_hessian = Some h ->
           ExactIHVP.__init__ train_dataset train_hessian parallel_iter
           = ExactIHVP.__init__ (Some ds) None parallel_iter)
    /\ (train_dataset = None -> train_hessian = None ->
        fst (ExactIHVP.__init__ train_dataset train_hessian parallel_iter)
        = Raise ArgumentError).
Proof.
  intros td th p. repeat split.
  - destruct td as [ds|]; [|destruct th as [h|]]; cbn; try reflexivity.
    destruct (ExactIHVP._compute_inv_hessian p ds); reflexivity.
  - intros ds h -> ->. reflexivity.
  - intros -> ->. reflexivity.
Qed.

End ExactInit.

(** ** Lists, rows and batches *)

Section ListFacts.
Context {A : Type}.

Lemma length_concat_uniform (c : nat) (ls : list (list A)) :
  Forall (fun l => length l = c) ls -> length (concat ls) = length ls * c.
Proof.
  induction 1 as [|l ls Hl _ IH]; [reflexivity|].
  cbn. rewrite length_app, IH, Hl. reflexivity.
Qed.

Lemma chunks_concat (fuel n : nat) (l : list A) :
  length l <= fuel -> 0 < n -> concat (chunks fuel n l) = l.
Proof.
  revert l. induction fuel as [|fuel IH]; intros l Hlen Hn.
  - destruct l; [reflexivity | cbn in Hlen; lia].
  - destruct l as [|a l]; [reflexivity|].
    cbn [chunks concat]. rewrite IH; [apply firstn_skipn| |assumption].
    rewrite length_skipn. cbn [length] in *. lia.
Qed.

Lemma in_firstn (k : nat) (l : list A) (a : A) : In a (firstn k l) -> In a l.
Proof. intros Ha. rewrite <- (firstn_skipn k l). apply in_or_app. now left. Qed.

Lemma batches_concat (ds : Dataset A) : concat (batches ds) = unbatched ds.
Proof. apply chunks_concat; [reflexivity | apply Pos2Nat.is_pos]. Qed.

Lemma in_batches (ds : Dataset A) (b : list A) (a : A) :
  In b (batches ds) -> In a b -> In a (unbatched ds).
Proof.
  intros Hb Ha. rewrite <- batches_concat. apply in_concat. eauto.
Qed.

End ListFacts.

Section TensorFacts.
Context {F : Type} `{Scalar F}.

Lemma rows_of_concat (c : nat) (ls : list (list F)) :
  Forall (fun l => length l = c) ls -> rows_of (length ls) c (concat ls) = ls.
Proof.
  induction 1 as [|l ls Hl _ IH]; [reflexivity|].
  cbn [length rows_of concat]. subst c.
  rewrite firstn_app, Nat.sub_diag, firstn_all, firstn_O, app_nil_r.
  rewrite skipn_app, Nat.sub_diag, skipn_all, skipn_O. cbn [app].
  now rewrite IH.
Qed.

(** Reshaping the concatenation of [n] gradients of [c] entries each to
    [(-1, c)] gives them back as the [n] rows. *)
Lemma reshape_rows_concat (c : nat) (ls : list (list F)) :
  c <> 0 -> Forall (fun l => length l = c) ls ->
  reshape_rows c (concat ls) = Ok (mkMatrix c ls).
Proof.
  intros Hc Hls. unfold reshape_rows. destruct c as [|c']; [congruence|].
  rewrite (length_concat_uniform Hls), Nat.Div0.mod_mul, Nat.div_mul by discriminate.
  cbn [Nat.eqb]. now rewrite rows_of_concat.
Qed.

Lemma nth_zip_with (f : F -> F -> F) (u v : list F) (j : nat) (d : F) :
  j < length u -> j < length v ->
  nth j (zip_with f u v) d = f (nth j u d) (nth j v d).
Proof.
  revert v j. induction u as [|a u IH]; intros [|b v] [|j] Hu Hv;
    cbn in *; try lia; [reflexivity|]. apply IH; lia.
Qed.

End TensorFacts.

(** ** [ExactIHVP.compute_ihvp] *)

Section ExactComputeIhvp.
Context {F X Y : Type} `{Scalar F} `{InfluenceModel F X Y}.

Lemma gradients_uniform (l : list (X * Y)) :
  Forall (fun g : list F => length g = nb_params)
         (map (fun s => per_sample_gradient (fst s) (snd s)) l).
Proof.
  apply Forall_forall. intros g Hg. apply in_map_iff in Hg.
  destruct Hg as (s & <- & _). apply per_sample_gradient_length.
Qed.

(** With [use_gradient] the result has one column per point of the group, in
    the order of the group: entry [(i, j)] is the product of row [i] of the
    inverse Hessian with the gradient of point [j]. *)
Lemma ExactIHVP_compute_ihvp_points (self : ExactIHVP.t F X Y) (ds : Dataset (X * Y)) :
  nb_params <> 0 -> ncols (ExactIHVP.inv_hessian self) = nb_params ->
  ExactIHVP.compute_ihvp self (Points ds) true
  = Ok (mkMatrix (length (unbatched ds))
          (map (fun h => map (fun s => dot h (per_sample_gradient (fst s) (snd s)))
                             (unbatched ds))
               (mrows (ExactIHVP.inv_hessian self)))).
Proof.
  intros HP Hinv. unfold ExactIHVP.compute_ihvp, ExactIHVP.batch_jacobian.
  rewrite (reshape_rows_concat HP (gradients_uniform _)). cbn [bind].
  unfold matmul_transpose_b. cbn [ncols mrows nrows].
  rewrite Hinv, Nat.eqb_refl. unfold nrows. cbn [mrows].
  rewrite length_map. f_equal. f_equal.
  apply map_ext. intros h. now rewrite map_map.
Qed.

Lemma ExactIHVP_compute_ihvp_shape (self : ExactIHVP.t F X Y) ds M :
  ExactIHVP.compute_ihvp self (Points ds) true = Ok M ->
  well_shaped M /\ ncols M = length (unbatched ds).
Proof.
  unfold ExactIHVP.compute_ihvp, ExactIHVP.batch_jacobian.
  destruct (Nat.eq_dec nb_params 0) as [HP|HP].
  - rewrite HP. cbn. discriminate.
  - rewrite (reshape_rows_concat HP (gradients_uniform _)). cbn [bind].
    unfold matmul_transpose_b, nrows. cbn [ncols mrows].
    destruct (Nat.eqb _ _); [|discriminate].
    intros E. injection E as <-. unfold well_shaped. cbn [ncols mrows].
    rewrite length_map. split; [|reflexivity].
    apply Forall_forall. intros r Hr. apply in_map_iff in Hr.
    destruct Hr as (h & <- & _). now rewrite !length_map.
Qed.

End ExactComputeIhvp.

(** [ExactIHVP] implements the interface. *)
#[export] Instance ExactIHVP_backend {F X Y : Type} `{Scalar F} `{InfluenceModel F X Y}
  : InverseHessianVectorProduct (ExactIHVP.t F X Y) F X Y := {|
  compute_ihvp := ExactIHVP.compute_ihvp;
  compute_ihvp_shape := ExactIHVP_compute_ihvp_shape
|}.

(** C3.  Without [use_gradient], [ExactIHVP.compute_ihvp] concatenates the
    per-batch products on axis 0, the parameter axis: on two batches of one
    vector each the result has four rows and one column, where the claim
    wants two columns, one per point in input order. *)
Theorem ExactIHVP_compute_ihvp_vectors_stacks_rows :
  ExactIHVP.compute_ihvp (X := float) (Y := float)
    (ExactIHVP.mk None identity2 None) (Vectors two_vectors) false
  = Ok (mkMatrix 1 [[1%float]; [2%float]; [3%float]; [4%float]])
  /\ length (unbatched two_vectors) = 2.
Proof. split; vm_compute; reflexivity. Qed.

(** ** [FirstOrderInfluenceCalculator]: influence vectors *)

Section InfluenceVectors.
Context {B F X Y : Type} `{Scalar F} `{InfluenceModel F X Y}
        `{InverseHessianVectorProduct B F X Y}.

Local Abbreviation calculator := (FirstOrderInfluenceCalculator.t B).

Lemma nth_norm_axis0 (M : Matrix F) (j : nat) :
  j < ncols M -> nth j (norm_axis0 M) fzero = norm (column M j).
Proof.
  intros Hj. unfold norm_axis0.
  rewrite (nth_indep _ fzero (norm (column M 0))) by now rewrite length_map, length_seq.
  rewrite (map_nth (fun j => norm (column M j)) (seq 0 (ncols M)) 0 j).
  now rewrite seq_nth.
Qed.

Lemma column_div_broadcast (M : Matrix F) (d : list F) (j : nat) :
  well_shaped M -> length d = ncols M -> j < ncols M ->
  column (FirstOrderInfluenceCalculator.div_broadcast_rows M d) j
  = map (fun a => fdiv a (nth j d fzero)) (column M j).
Proof.
  intros HM Hd Hj. unfold column, FirstOrderInfluenceCalculator.div_broadcast_rows.
  cbn [mrows]. rewrite !map_map. apply map_ext_in. intros r Hr.
  unfold well_shaped in HM. rewrite Forall_forall in HM.
  apply nth_zip_with; [rewrite (HM r Hr) | rewrite Hd]; assumption.
Qed.

(** A column of the normalized tensor is the column normalized on its own. *)
Lemma column_normalize (self : calculator) (M : Matrix F) (j : nat) :
  well_shaped M -> j < ncols M ->
  column (FirstOrderInfluenceCalculator.__normalize_if_needed self M) j
  = FirstOrderInfluenceCalculator.__normalize_if_needed_rank1 self (column M j).
Proof.
  intros HM Hj.
  unfold FirstOrderInfluenceCalculator.__normalize_if_needed,
         FirstOrderInfluenceCalculator.__normalize_if_needed_rank1.
  destruct (FirstOrderInfluenceCalculator.normalize self); [|reflexivity].
  rewrite column_div_broadcast; try assumption.
  - now rewrite nth_norm_axis0.
  - unfold norm_axis0. now rewrite length_map, length_seq.
Qed.

Lemma normalize_shape (self : calculator) (M : Matrix F) :
  ncols (FirstOrderInfluenceCalculator.__normalize_if_needed self M) = ncols M
  /\ nrows (FirstOrderInfluenceCalculator.__normalize_if_needed self M) = nrows M.
Proof.
  unfold FirstOrderInfluenceCalculator.__normalize_if_needed,
         FirstOrderInfluenceCalculator.div_broadcast_rows, nrows.
  destruct (FirstOrderInfluenceCalculator.normalize self); cbn [ncols mrows];
    rewrite ?length_map; auto.
Qed.

(** [compute_influence] row by row: row [j] of the result is column [j] of
    the IHVP tensor, normalized on its own when [normalize] is set. *)
Lemma compute_influence_rows (self : calculator) (ds : Dataset (X * Y)) :
  FirstOrderInfluenceCalculator.compute_influence self ds
  = (M <- compute_ihvp (FirstOrderInfluenceCalculator.ihvp_calculator self)
                       (Points ds) true ;;
     Ok (mkMatrix (nrows M)
           (map (fun j => FirstOrderInfluenceCalculator.__normalize_if_needed_rank1
                            self (column M j))
                (seq 0 (length (unbatched ds)))))).
Proof.
  unfold FirstOrderInfluenceCalculator.compute_influence.
  destruct (compute_ihvp _ _ _) as [M|e] eqn:E; [|reflexivity].
  destruct (compute_ihvp_shape _ _ E) as [HM Hn]. cbn [bind].
  unfold transpose. destruct (normalize_shape self M) as [-> ->].
  rewrite Hn. f_equal. f_equal.
  apply map_ext_in. intros j Hj. apply in_seq in Hj.
  apply column_normalize; [assumption | lia].
Qed.

Lemma normalize_rank1_length (self : calculator) (v : list F) :
  length (FirstOrderInfluenceCalculator.__normalize_if_needed_rank1 self v) = length v.
Proof.
  unfold FirstOrderInfluenceCalculator.__normalize_if_needed_rank1.
  destruct (FirstOrderInfluenceCalculator.normalize self); now rewrite ?length_map.
Qed.

(** The sum over the columns of a tensor with one column is that column. *)
Lemma reduce_sum_axis1_single_column (M : Matrix F) :
  well_shaped M -> ncols M = 1 -> reduce_sum_axis1 M = column M 0.
Proof.
  intros HM Hc. unfold reduce_sum_axis1, column, well_shaped in *.
  rewrite Hc in HM. apply map_ext_in. intros r Hr.
  rewrite Forall_forall in HM. specialize (HM r Hr).
  destruct r as [|a [|b r]]; cbn in HM; try discriminate.
  reflexivity.
Qed.

(** C8.  On a group of exactly one point [compute_influence_group] returns
    what [compute_influence] returns (the same tensor, or the same
    exception of the IHVP backend), for every backend, either value of
    [normalize], and any arithmetic. *)
Theorem compute_influence_group_singleton
    (self : calculator) (group : Dataset (X * Y)) :
  length (unbatched group) = 1 ->
  FirstOrderInfluenceCalculator.compute_influence_group self group
  = FirstOrderInfluenceCalculator.compute_influence self group.
Proof.
  intros Hone. rewrite compute_influence_rows.
  unfold FirstOrderInfluenceCalculator.compute_influence_group.
  destruct (compute_ihvp _ _ _) as [M|e] eqn:E; [|reflexivity].
  destruct (compute_ihvp_shape _ _ E) as [HM Hn]. rewrite Hone in *.
  cbn [bind seq map]. unfold reshape_one_row.
  rewrite (reduce_sum_axis1_single_column HM Hn).
  rewrite normalize_rank1_length. unfold column at 1. now rewrite length_map.
Qed.

End InfluenceVectors.

Section InfluenceVectorsExact.
Context {F X Y : Type} `{Scalar F} `{InfluenceModel F X Y}.

Lemma columns_of_products {S : Type} (phi : list F -> S -> F)
    (hs : list (list F)) (l : list S) (n : nat) :
  map (column (mkMatrix n (map (fun h => map (phi h) l) hs))) (seq 0 (length l))
  = map (fun s => map (fun h => phi h s) hs) l.
Proof.
  unfold column. cbn [mrows].
  induction l as [|s l IH]; [reflexivity|].
  cbn [length seq map]. f_equal.
  - now rewrite map_map.
  - rewrite <- seq_shift, map_map, <- IH. apply map_ext. intros j.
    rewrite !map_map. reflexivity.
Qed.

(** C9, as the code has it.  With [ExactIHVP] as the backend,
    [compute_influence] returns a tensor with one ROW per input point, in
    input order: row [i] is the inverse Hessian applied to the gradient of
    point [i] (entry [j] is row [j] of the inverse Hessian times that
    gradient), divided by its own L2 norm when [normalize] is set.  The
    tensor is the transpose of the IHVP tensor, whose columns are the
    points. *)
Theorem compute_influence_exact
    (exact : ExactIHVP.t F X Y) (normalize : bool) (dataset : Dataset (X * Y)) :
  nb_params <> 0 ->
  ncols (ExactIHVP.inv_hessian exact) = nb_params ->
  let self := FirstOrderInfluenceCalculator.mk exact normalize in
  FirstOrderInfluenceCalculator.compute_influence self dataset
  = Ok (mkMatrix (nrows (ExactIHVP.inv_hessian exact))
          (map (fun s =>
                  FirstOrderInfluenceCalculator.__normalize_if_needed_rank1 self
                    (map (fun h => dot h (per_sample_gradient (fst s) (snd s)))
                         (mrows (ExactIHVP.inv_hessian exact))))
               (unbatched dataset)))
  /\ (FirstOrderInfluenceCalculator.compute_influence self dataset
      = M <- ExactIHVP.compute_ihvp exact (Points dataset) true ;;
        Ok (transpose (FirstOrderInfluenceCalculator.__normalize_if_needed self M))).
Proof.
  intros HP Hinv self. split; [|reflexivity].
  rewrite compute_influence_rows. cbn [compute_ihvp ExactIHVP_backend].
  cbn [FirstOrderInfluenceCalculator.ihvp_calculator self].
  rewrite (ExactIHVP_compute_ihvp_points exact dataset HP Hinv). cbn [bind].
  unfold nrows at 1. cbn [mrows]. rewrite length_map. f_equal. f_equal.
  rewrite <- (map_map (column _)
                (FirstOrderInfluenceCalculator.__normalize_if_needed_rank1 self)).
  rewrite columns_of_products. now rewrite map_map.
Qed.

End InfluenceVectorsExact.

(** C9 as stated fails: for one point and two parameters the result has two
    columns, not one column per input point. *)
Lemma compute_influence_not_one_column_per_point :
  ~ (exists M : Matrix float,
        FirstOrderInfluenceCalculator.compute_influence (float_calculator false) one_point
        = Ok M
        /\ ncols M = length (unbatched one_point)).
Proof.
  intros (M & E & Hc). vm_compute in E. injection E as <-.
  cbn in Hc. discriminate.
Qed.

Lemma compute_influence_exact_witness :
  FirstOrderInfluenceCalculator.compute_influence (float_calculator false) one_point
  = Ok (mkMatrix 2 [[1%float; 2%float]]).
Proof.
  destruct (@compute_influence_exact float float float _ _ float_exact false one_point)
    as [E _]; [discriminate | reflexivity |].
  unfold float_calculator. rewrite E. vm_compute. reflexivity.
Defined.

Lemma compute_influence_group_singleton_witness :
  FirstOrderInfluenceCalculator.compute_influence_group (Z_calculator true) Z_one_point
  = FirstOrderInfluenceCalculator.compute_influence (Z_calculator true) Z_one_point
  /\ FirstOrderInfluenceCalculator.compute_influence (Z_calculator true) Z_one_point
     = Ok (mkMatrix 2 [[0%Z; 1%Z]]).
Proof.
  split.
  - apply (compute_influence_group_singleton (Z_calculator true) Z_one_point).
    reflexivity.
  - vm_compute. reflexivity.
Defined.

(** ** Normalization *)

(** C7 as stated fails: the zero column is divided by its zero norm like any
    other, and comes back as NaN. *)
Lemma zero_column_becomes_nan :
  ~ zero_columns_left_as_zero (float_calculator true) zero_gradient_point.
Proof.
  intros Hc.
  specialize (Hc (mkMatrix 1 [[0%float]; [0%float]]) (mkMatrix 2 [[nan; nan]]) 0).
  assert (E : [nan; nan] = [0%float; 0%float]).
  { apply Hc.
    - vm_compute. reflexivity.
    - vm_compute. reflexivity.
    - cbn. lia.
    - repeat constructor. }
  apply (f_equal (fun l => is_nan (hd 0%float l))) in E.
  vm_compute in E. discriminate.
Qed.

Section UnitNorm.

Lemma fold_left_Rplus_scale (k : R) (l : list R) (acc : R) :
  fold_left Rplus (map (fun a => (a * k)%R) l) (acc * k)%R
  = (fold_left Rplus l acc * k)%R.
Proof.
  revert acc. induction l as [|a l IH]; intros acc; [reflexivity|].
  cbn [map fold_left]. rewrite <- IH. f_equal. ring.
Qed.

Lemma reduce_sum_scale (k : R) (l : list R) :
  reduce_sum (map (fun a => (a * k)%R) l) = (reduce_sum l * k)%R.
Proof.
  destruct l as [|a l]; cbn [reduce_sum map fzero fadd R_Scalar]; [ring|].
  apply fold_left_Rplus_scale.
Qed.

(** In exact arithmetic a vector of non-zero norm divided by its norm has
    norm one. *)
Lemma norm_of_normalized (c : list R) :
  norm c <> 0%R -> norm (map (fun a => fdiv a (norm c)) c) = 1%R.
Proof.
  intros Hn. unfold norm at 1. cbn [fdiv fmul fsqrt R_Scalar].
  rewrite map_map.
  rewrite (map_ext _ (fun a => (a * a * (/ norm c * / norm c))%R))
    by (intros a; unfold Rdiv; ring).
  rewrite <- (map_map (fun a => (a * a)%R) (fun s => (s * (/ norm c * / norm c))%R)).
  rewrite reduce_sum_scale.
  set (S := reduce_sum (map (fun a => (a * a)%R) c)) in *.
  assert (HS : norm c = sqrt S) by reflexivity.
  assert (Hpos : (0 < S)%R).
  { destruct (Rle_lt_dec S 0) as [Hle|Hlt]; [|assumption].
    exfalso. apply Hn. rewrite HS. now apply sqrt_neg_0. }
  replace (S * (/ norm c * / norm c))%R with 1%R; [apply sqrt_1|].
  rewrite <- (sqrt_sqrt S) at 1 by lra. rewrite <- HS. field. exact Hn.
Qed.

End UnitNorm.

(** C7, as the code has it.  With [normalize] set, every column of the IHVP
    tensor is divided entry by entry by its own L2 norm before it is
    returned (as a row of the result): there is no case for a zero column,
    which is divided by its zero norm too.  In exact real arithmetic every
    returned vector whose column had a non-zero norm has norm one.  In
    binary64 it need not: the column (2^700, 0) has the norm infinity, its
    squares overflowing, and comes back as zeros. *)
Theorem normalize_divides_every_column :
  (forall (B F X Y : Type) (SF : Scalar F)
          (IB : InverseHessianVectorProduct B F X Y)
          (self : FirstOrderInfluenceCalculator.t B) (dataset : Dataset (X * Y)),
      FirstOrderInfluenceCalculator.normalize self = true ->
      FirstOrderInfluenceCalculator.compute_influence self dataset
      = M <- compute_ihvp (FirstOrderInfluenceCalculator.ihvp_calculator self)
                          (Points dataset) true ;;
        Ok (mkMatrix (nrows M)
              (map (fun j => map (fun a => fdiv a (norm (column M j))) (column M j))
                   (seq 0 (length (unbatched dataset))))))
  /\
  (forall (B X Y : Type) (IB : InverseHessianVectorProduct B R X Y)
          (self : FirstOrderInfluenceCalculator.t B) (dataset : Dataset (X * Y))
          (M : Matrix R) (j : nat),
      FirstOrderInfluenceCalculator.normalize self = true ->
      compute_ihvp (FirstOrderInfluenceCalculator.ihvp_calculator self)
                   (Points dataset) true = Ok M ->
      j < length (unbatched dataset) ->
      norm (column M j) <> 0%R ->
      exists R' : Matrix R,
        FirstOrderInfluenceCalculator.compute_influence self dataset = Ok R'
        /\ nrows R' = length (unbatched dataset)
        /\ norm (nth j (mrows R') []) = 1%R)
  /\
  (compute_ihvp (FirstOrderInfluenceCalculator.ihvp_calculator (float_calculator true))
                (Points huge_gradient_point) true
   = Ok (mkMatrix 1 [[0x1p+700%float]; [0%float]])
   /\ FirstOrderInfluenceCalculator.compute_influence (float_calculator true)
                                                      huge_gradient_point
      = Ok (mkMatrix 2 [[0%float; 0%float]])).
Proof.
  split; [|split].
  3: split; vm_compute; reflexivity.
  - intros B F X Y SF IB self dataset Hn.
    rewrite compute_influence_rows.
    unfold FirstOrderInfluenceCalculator.__normalize_if_needed_rank1.
    now rewrite Hn.
  - intros B X Y IB self dataset M j Hn E Hj Hnorm.
    rewrite compute_influence_rows, E. cbn [bind].
    eexists. split; [reflexivity|]. unfold nrows. cbn [mrows].
    rewrite length_map, length_seq. split; [reflexivity|].
    rewrite (nth_indep _ []
               (FirstOrderInfluenceCalculator.__normalize_if_needed_rank1 self (column M 0)))
      by now rewrite length_map, length_seq.
    rewrite (map_nth (fun j => FirstOrderInfluenceCalculator.__normalize_if_needed_rank1
                                 self (column M j))).
    rewrite seq_nth by assumption. cbn [Nat.add].
    unfold FirstOrderInfluenceCalculator.__normalize_if_needed_rank1. rewrite Hn.
    now apply norm_of_normalized.
Qed.

(** ** [ExactIHVP]: the streamed Hessian *)

Section StreamedHessian.
Context {F X Y : Type} `{Scalar F} `{LinAlg F} `{InfluenceModel F X Y}.

Lemma int32_wrap_small (z : Z) :
  (- 2 ^ 31 <= z < 2 ^ 31)%Z -> int32_wrap z = z.
Proof. intros Hz. unfold int32_wrap. rewrite Z.mod_small; lia. Qed.

Lemma hessian_loop_spec (dtype : DType) (bs : list (list (X * Y)))
    (hess : Matrix F) (n : nat) (calls : list (ExactIHVP.event F X Y)) :
  (Z.of_nat (n + length (concat bs)) < 2 ^ 31)%Z ->
  fold_left (ExactIHVP.hessian_loop_body dtype) bs (hess, Z.of_nat n, calls)
  = (fold_left (fun acc batch =>
                  mat_add acc (mat_map (tf_cast dtype)
                                       (ExactIHVP.reduce_sum_axis0
                                          (ExactIHVP.batch_hessians batch))))
               bs hess,
     Z.of_nat (n + length (concat bs)),
     calls ++ map (fun batch => ExactIHVP.call_batch_jacobian_tensor
                                  (map fst batch) (map snd batch)) bs).
Proof.
  revert hess n calls. induction bs as [|b bs IH]; intros hess n calls Hn.
  - cbn. now rewrite Nat.add_0_r, app_nil_r.
  - cbn [concat] in Hn. rewrite length_app in Hn.
    cbn [fold_left concat map]. rewrite length_app.
    unfold ExactIHVP.hessian_loop_body at 2. rewrite length_map.
    rewrite int32_wrap_small by lia.
    rewrite <- Nat2Z.inj_add, IH by (rewrite <- Nat.add_assoc; exact Hn).
    rewrite <- Nat.add_assoc, <- app_assoc. reflexivity.
Qed.

Lemma count_pinv_streamed (dataset : Dataset (X * Y)) :
  length (filter is_call_pinv (streamed_calls dataset)) = 1.
Proof.
  unfold streamed_calls. rewrite filter_app, length_app. cbn.
  induction (batches dataset) as [|b bs IH]; [reflexivity | exact IH].
Qed.

(** C1, as the code has it.  Constructed from a dataset with
    [parallel_iter] left at [None] (the default), and fewer than [2^31]
    samples (the sample counter is an [int32]), [ExactIHVP] makes one pass
    over the batches, accumulates the cast per-batch sums and the sample
    count, divides by the count, and calls [pinv] once, on that mean; the
    result is stored as [inv_hessian]. *)
Theorem ExactIHVP_streams_when_not_parallel
    (dataset : Dataset (X * Y)) (train_hessian : option (Matrix F)) :
  (Z.of_nat (length (unbatched dataset)) < 2 ^ 31)%Z ->
  streams_the_dataset_once None dataset
  /\ ExactIHVP.__init__ (Some dataset) train_hessian None
     = (Ok (ExactIHVP.mk (Some dataset) (pinv (streamed_mean_hessian dataset)) None),
        streamed_calls dataset)
  /\ length (filter is_call_pinv (streamed_calls dataset)) = 1.
Proof.
  intros Hn.
  assert (E : streams_the_dataset_once None dataset).
  { unfold streams_the_dataset_once, ExactIHVP._compute_inv_hessian.
    change 0%Z with (Z.of_nat 0).
    rewrite hessian_loop_spec; rewrite batches_concat; [|exact Hn].
    reflexivity. }
  split; [exact E|]. split; [|apply count_pinv_streamed].
  unfold ExactIHVP.__init__. now rewrite E.
Qed.

End StreamedHessian.

(** C1 as stated fails: with [parallel_iter] given the constructor takes the
    other branch, which asks the model for the gradients of the whole
    dataset in one call and averages with [reduce_mean]: no pass over the
    batches, no accumulator, no sample count. *)
Lemma parallel_iter_does_not_stream :
  ~ streams_the_dataset_once (F := float) (Some 1) two_points.
Proof.
  unfold streams_the_dataset_once. intros E.
  apply (f_equal (fun r => length (snd r))) in E.
  vm_compute in E. discriminate.
Qed.

Lemma ExactIHVP_streams_when_not_parallel_witness :
  streams_the_dataset_once (F := float) None two_points
  /\ length (streamed_calls (F := float) two_points) = 3.
Proof.
  split.
  - apply (ExactIHVP_streams_when_not_parallel two_points None). vm_compute. reflexivity.
  - reflexivity.
Defined.

(** ** [ConjugateGradientDescentIHVP.__call__] *)

Section ChunkCounts.

Lemma chunks_length_eq {A A' : Type} (fuel n : nat) (l : list A) (l' : list A') :
  length l = length l' -> length (chunks fuel n l) = length (chunks fuel n l').
Proof.
  revert l l'. induction fuel as [|fuel IH]; intros l l' Hl; [reflexivity|].
  destruct l as [|a l], l' as [|a' l']; try discriminate; [reflexivity|].
  cbn [chunks length]. f_equal. apply IH. now rewrite !length_skipn, Hl.
Qed.

Lemma length_zip_with {A A' A'' : Type} (f : A -> A' -> A'') (u : list A) (v : list A') :
  length (zip_with f u v) = Nat.min (length u) (length v).
Proof.
  revert v. induction u as [|a u IH]; intros [|b v]; cbn; try reflexivity.
  now rewrite IH.
Qed.

Lemma nth_error_app_length {A : Type} (l : list A) (a : A) :
  nth_error (l ++ [a]) (length l) = Some a.
Proof. induction l as [|b l IH]; [reflexivity | exact IH]. Qed.

Lemma set_nth_app_length {A : Type} (l : list A) (a b : A) :
  ConjugateGradientDescentIHVP.set_nth (length l) a (l ++ [b]) = l ++ [a].
Proof. induction l as [|c l IH]; [reflexivity | cbn; now rewrite IH]. Qed.

End ChunkCounts.

(** ** Cutting the vector of the operator into pieces *)

Section ReshapeVectorFacts.
Context {F : Type}.

Lemma firstn_add_skipn (n m : nat) (l : list F) :
  firstn (n + m) l = firstn n l ++ firstn m (skipn n l).
Proof.
  revert l. induction n as [|n IH]; intros l; [reflexivity|].
  destruct l as [|a l]; cbn; [now rewrite firstn_nil | now rewrite IH].
Qed.

(** The loop of [__reshape_vector] returns when the entries from [index] on
    cover the weights that are left; its pieces are the consecutive
    slices. *)
Lemma reshape_vector_loop_spec (grads : list F) (weights : list nat) (index : nat) :
  index + list_sum weights <= length grads ->
  exists pieces : list (list F),
    ConjugateGradientDescentIHVP.reshape_vector_loop grads weights index = Ok pieces
    /\ concat pieces = firstn (list_sum weights) (skipn index grads)
    /\ map (@length F) pieces = weights.
Proof.
  revert index. induction weights as [|size weights IH]; intros index Hlen.
  - exists []. repeat split.
  - change (list_sum (size :: weights)) with (size + list_sum weights) in *.
    cbn [ConjugateGradientDescentIHVP.reshape_vector_loop].
    destruct (IH (index + size)) as (pieces & E & IHc & IHl); [lia|].
    assert (Hg : length (firstn size (skipn index grads)) = size)
      by (rewrite length_firstn, length_skipn; lia).
    rewrite Hg, Nat.eqb_refl, E. cbn [bind].
    eexists. split; [reflexivity|]. cbn [concat map]. rewrite IHc, IHl, Hg. split.
    + now rewrite firstn_add_skipn, skipn_skipn, (Nat.add_comm size index).
    + reflexivity.
Qed.

(** It raises when they do not: the first slice that comes out short is
    refused by [tf.reshape]. *)
Lemma reshape_vector_loop_short (grads : list F) (weights : list nat) (index : nat) :
  index <= length grads -> length grads < index + list_sum weights ->
  ConjugateGradientDescentIHVP.reshape_vector_loop grads weights index
  = Raise InvalidArgumentError.
Proof.
  revert index. induction weights as [|size weights IH]; intros index Hi Hlen.
  - cbn [list_sum fold_right] in Hlen. lia.
  - change (list_sum (size :: weights)) with (size + list_sum weights) in *.
    cbn [ConjugateGradientDescentIHVP.reshape_vector_loop].
    destruct (Nat.eqb (length (firstn size (skipn index grads))) size) eqn:E;
      [|reflexivity].
    apply Nat.eqb_eq in E. rewrite length_firstn, length_skipn in E.
    rewrite IH by lia. reflexivity.
Qed.

Lemma reshape_vector_returns (grads : list F) (weights : list nat) :
  list_sum weights <= length grads ->
  exists pieces : list (list F),
    ConjugateGradientDescentIHVP.__reshape_vector grads weights = Ok pieces.
Proof.
  intros Hlen. destruct (reshape_vector_loop_spec grads weights 0 Hlen) as (p & E & _).
  now exists p.
Qed.

Lemma reshape_vector_short (grads : list F) (weights : list nat) :
  length grads < list_sum weights ->
  ConjugateGradientDescentIHVP.__reshape_vector grads weights
  = Raise InvalidArgumentError.
Proof. intros Hlen. apply reshape_vector_loop_short; [apply Nat.le_0_l | exact Hlen]. Qed.

End ReshapeVectorFacts.

Section MatrixFreeOperator.
Context {F X Feat Y : Type} `{Scalar F} `{SplitModel F X Feat Y}.

Local Abbreviation cgd := (ConjugateGradientDescentIHVP.t Feat Y).
Local Abbreviation runtime := (ConjugateGradientDescentIHVP.Runtime Feat Y).

Lemma reduce_sum_rows_length (rows : list (list F)) :
  Forall (fun r => length r = tail_nb_params) rows ->
  length (ConjugateGradientDescentIHVP.reduce_sum_rows rows) = tail_nb_params.
Proof.
  unfold ConjugateGradientDescentIHVP.reduce_sum_rows.
  assert (G : forall (rows : list (list F)) acc, length acc = tail_nb_params ->
                Forall (fun r => length r = tail_nb_params) rows ->
                length (fold_left (zip_with fadd) rows acc) = tail_nb_params).
  { clear rows. induction rows as [|r rows IH]; intros acc Hacc Hrows; [exact Hacc|].
    cbn [fold_left]. inversion Hrows as [|? ? Hr Hrows']; subst.
    apply IH; [|assumption]. rewrite length_zip_with, Hacc, Hr. apply Nat.min_id. }
  intros Hrows. destruct rows as [|r rows]; [apply repeat_length|].
  inversion Hrows as [|? ? Hr Hrows']; subst. now apply G.
Qed.

Lemma batched_hvp_spec (self : cgd) (x : list (list F)) (s : Feat * Y) :
  ConjugateGradientDescentIHVP.batched_hvp self x s
  = map (fun h => fmul h (fdiv (tf_cast_int tail_dtype 1%Z)
                               (tf_cast_int tail_dtype
                                  (ConjugateGradientDescentIHVP.n_hessian self))))
        (per_sample_hvp x s).
Proof. reflexivity. Qed.

Lemma block_sum_length (self : cgd) (x : list (list F)) (block : list (Feat * Y)) :
  length (ConjugateGradientDescentIHVP.reduce_sum_rows
            (map (ConjugateGradientDescentIHVP.batched_hvp self x) block))
  = tail_nb_params.
Proof.
  apply reduce_sum_rows_length, Forall_forall. intros r Hr.
  apply in_map_iff in Hr. destruct Hr as (s & <- & _).
  rewrite batched_hvp_spec, length_map. apply hvp_oracle_size.
Qed.

(** The loop of [__call__] on an iterator that still holds the batches
    [bs], with [length bs] turns to go: it takes every batch in order, ends
    with the counter at the bound, and leaves the iterator empty. *)
Lemma while_loop_spec (self : cgd) (x : list (list F))
    (its : list (list (list (Feat * Y)))) (bs : list (list (Feat * Y)))
    (fuel : nat) (bound i : Z) (acc : list F) (n : nat) :
  (i + Z.of_nat (length bs) = bound)%Z -> length bs <= fuel ->
  ConjugateGradientDescentIHVP.while_loop fuel bound
    (ConjugateGradientDescentIHVP.body_func self x (length its)) i acc
    (ConjugateGradientDescentIHVP.mkRuntime (its ++ [bs]) n)
  = Some (Ok (bound,
              fold_left (fun acc block =>
                           zip_with fadd acc
                             (ConjugateGradientDescentIHVP.reduce_sum_rows
                                (map (ConjugateGradientDescentIHVP.batched_hvp self x)
                                     block)))
                        bs acc),
          ConjugateGradientDescentIHVP.mkRuntime (its ++ [[]]) (n + length bs)).
Proof.
  revert fuel i acc n. induction bs as [|b bs IH]; intros fuel i acc n Hi Hfuel.
  - cbn [length] in Hi. assert (i = bound) by lia. subst i.
    destruct fuel; cbn [ConjugateGradientDescentIHVP.while_loop];
      rewrite Z.ltb_irrefl, Nat.add_0_r; reflexivity.
  - cbn [length] in Hi, Hfuel. destruct fuel as [|fuel]; [lia|].
    cbn [ConjugateGradientDescentIHVP.while_loop].
    assert (Hlt : (i <? bound)%Z = true) by (apply Z.ltb_lt; lia).
    rewrite Hlt. unfold ConjugateGradientDescentIHVP.body_func at 1.
    unfold ConjugateGradientDescentIHVP.next.
    cbn [ConjugateGradientDescentIHVP.iterators ConjugateGradientDescentIHVP.fetched].
    rewrite nth_error_app_length, set_nth_app_length.
    rewrite IH by lia. cbn [fold_left length]. do 3 f_equal. lia.
Qed.

Lemma accumulated_length (self : cgd) (x : list (list F))
    (bs : list (list (Feat * Y))) (acc : list F) :
  length acc = tail_nb_params ->
  length (fold_left (fun acc block =>
                       zip_with fadd acc
                         (ConjugateGradientDescentIHVP.reduce_sum_rows
                            (map (ConjugateGradientDescentIHVP.batched_hvp self x) block)))
                    bs acc) = tail_nb_params.
Proof.
  revert acc. induction bs as [|b bs IH]; intros acc Hacc; [exact Hacc|].
  cbn [fold_left]. apply IH.
  rewrite length_zip_with, Hacc, block_sum_length. apply Nat.min_id.
Qed.

(** The feature-map dataset has as many batches as the training set. *)
Lemma feature_map_batches (train_dataset : Dataset (X * Y))
    (feature_maps : Dataset (Feat * Y)) :
  ConjugateGradientDescentIHVP._compute_feature_map_dataset train_dataset
  = Ok feature_maps ->
  length (batches feature_maps) = length (batches train_dataset).
Proof.
  unfold ConjugateGradientDescentIHVP._compute_feature_map_dataset.
  destruct (batches train_dataset) as [|b bs] eqn:Eb; [discriminate|].
  intros E. injection E as <-. rewrite <- Eb. unfold batches.
  cbn [unbatched _batch_size].
  set (l := unbatched train_dataset).
  assert (E : length (combine match map (fun s => feature_extractor (fst s)) l with
                              | [f] => [first_slice f]
                              | _ => map (fun s => feature_extractor (fst s)) l
                              end (map snd l)) = length l).
  { destruct l as [|s [|s' l']]; try reflexivity.
    cbn [map]. rewrite length_combine. cbn [length]. rewrite !length_map.
    apply Nat.min_id. }
  rewrite E. now apply chunks_length_eq.
Qed.

(** What the constructor establishes: the recorded cardinality is the
    number of batches of the feature-map dataset, and the recorded sample
    count is that of the training set. *)
Lemma init_spec (train_dataset : Dataset (X * Y)) (n_cgd_iters : option nat)
    (self : cgd) :
  ConjugateGradientDescentIHVP.__init__ train_dataset n_cgd_iters = Ok self ->
  ConjugateGradientDescentIHVP.cardinality self
  = Z.of_nat (length (batches (ConjugateGradientDescentIHVP.train_set self)))
  /\ ConjugateGradientDescentIHVP.n_hessian self
     = Z.of_nat (length (unbatched train_dataset)).
Proof.
  unfold ConjugateGradientDescentIHVP.__init__.
  destruct (ConjugateGradientDescentIHVP._compute_feature_map_dataset train_dataset)
    as [fm|] eqn:Efm; [|discriminate].
  cbn [bind]. intros E. injection E as <-.
  cbn [ConjugateGradientDescentIHVP.cardinality ConjugateGradientDescentIHVP.train_set
       ConjugateGradientDescentIHVP.n_hessian].
  unfold dataset_cardinality, dataset_size.
  now rewrite (feature_map_batches _ Efm).
Qed.

(** One call of the operator of an instance built by the constructor:
    it returns, as a column, the accumulated sample-weighted products, after
    creating one iterator and taking every batch of the feature-map dataset
    from it. *)
Lemma call_spec (train_dataset : Dataset (X * Y)) (n_cgd_iters : option nat)
    (self : cgd) (x_initial : list F) (x : list (list F)) (rt : runtime) :
  ConjugateGradientDescentIHVP.__init__ train_dataset n_cgd_iters = Ok self ->
  ConjugateGradientDescentIHVP.__reshape_vector x_initial weight_sizes = Ok x ->
  ConjugateGradientDescentIHVP.__call__ self x_initial rt
  = Some (Ok (mkMatrix 1 (map (fun a => [a]) (sample_weighted_hvp self x))),
          ConjugateGradientDescentIHVP.mkRuntime
            (ConjugateGradientDescentIHVP.iterators rt ++ [[]])
            (ConjugateGradientDescentIHVP.fetched rt
             + Z.to_nat (ConjugateGradientDescentIHVP.cardinality self))).
Proof.
  intros Hinit Hx. destruct (init_spec _ _ Hinit) as [Hcard _].
  unfold ConjugateGradientDescentIHVP.__call__. rewrite Hx.
  unfold ConjugateGradientDescentIHVP.iter.
  rewrite while_loop_spec; [| rewrite Hcard; lia | rewrite Hcard, Nat2Z.id; lia].
  unfold reshape_column. rewrite accumulated_length by apply repeat_length.
  rewrite Nat.eqb_refl, Hcard, Nat2Z.id. reflexivity.
Qed.

End MatrixFreeOperator.

Section MatrixFreeOperatorClaims.
Context {F X Feat Y : Type} `{Scalar F} `{SplitModel F X Feat Y}.

(** C2, as the code has it.  One call of the operator of an instance built
    by the constructor, on a vector that has at least as many entries as the
    weights of the tail model (so that [__reshape_vector] cuts it into the
    pieces [x] without raising), returns, as a column of [tail_nb_params]
    entries, the accumulation over all batches of the feature-map dataset of
    the per-sample Hessian-vector products, each scaled by
    (1 / total training sample count) and then summed across the batch: the
    weight [__sub_call] computes is the size of the batch it is handed, and
    it is handed one sample at a time. *)
Theorem call_returns_sample_weighted_hvp
    (train_dataset : Dataset (X * Y)) (n_cgd_iters : option nat)
    (self : ConjugateGradientDescentIHVP.t Feat Y)
    (x_initial : list F) (rt : ConjugateGradientDescentIHVP.Runtime Feat Y) :
  ConjugateGradientDescentIHVP.__init__ train_dataset n_cgd_iters = Ok self ->
  list_sum weight_sizes <= length x_initial ->
  exists x : list (list F),
    ConjugateGradientDescentIHVP.__reshape_vector x_initial weight_sizes = Ok x
    /\ let hvp := sample_weighted_hvp self x in
       (exists rt',
           ConjugateGradientDescentIHVP.__call__ self x_initial rt
           = Some (Ok (mkMatrix 1 (map (fun a => [a]) hvp)), rt'))
       /\ length hvp = tail_nb_params
       /\ ConjugateGradientDescentIHVP.n_hessian self
          = Z.of_nat (length (unbatched train_dataset)).
Proof.
  intros Hinit Hlen. destruct (reshape_vector_returns _ _ Hlen) as [x Hx].
  exists x. split; [exact Hx|]. intros hvp. split; [|split].
  - eexists. eapply call_spec; eassumption.
  - unfold hvp, sample_weighted_hvp.
    apply (accumulated_length self). apply repeat_length.
  - now destruct (init_spec _ _ Hinit).
Qed.

(** C5.  Every call of the operator of an instance built by the constructor,
    on a vector that has at least as many entries as the weights of the tail
    model, creates one new iterator, takes exactly [cardinality] batches
    from it (all the batches of the feature-map dataset) without exhausting
    it early, and leaves the iterators that existed before untouched; a
    second call, made in the runtime the first one left behind, returns the
    same tensor. *)
Theorem call_consumes_cardinality_batches_and_repeats
    (train_dataset : Dataset (X * Y)) (n_cgd_iters : option nat)
    (self : ConjugateGradientDescentIHVP.t Feat Y)
    (x_initial : list F) (rt : ConjugateGradientDescentIHVP.Runtime Feat Y) :
  ConjugateGradientDescentIHVP.__init__ train_dataset n_cgd_iters = Ok self ->
  list_sum weight_sizes <= length x_initial ->
  let n := Z.to_nat (ConjugateGradientDescentIHVP.cardinality self) in
  exists (hvp : Matrix F) (rt1 rt2 : ConjugateGradientDescentIHVP.Runtime Feat Y),
    ConjugateGradientDescentIHVP.__call__ self x_initial rt = Some (Ok hvp, rt1)
    /\ ConjugateGradientDescentIHVP.__call__ self x_initial rt1 = Some (Ok hvp, rt2)
    /\ ConjugateGradientDescentIHVP.fetched rt1
       = ConjugateGradientDescentIHVP.fetched rt + n
    /\ ConjugateGradientDescentIHVP.fetched rt2
       = ConjugateGradientDescentIHVP.fetched rt1 + n
    /\ ConjugateGradientDescentIHVP.iterators rt1
       = ConjugateGradientDescentIHVP.iterators rt ++ [[]]
    /\ ConjugateGradientDescentIHVP.iterators rt2
       = ConjugateGradientDescentIHVP.iterators rt1 ++ [[]]
    /\ n = length (batches (ConjugateGradientDescentIHVP.train_set self)).
Proof.
  intros Hinit Hlen n. destruct (reshape_vector_returns _ _ Hlen) as [x Hx].
  do 3 eexists.
  split; [eapply call_spec; eassumption|].
  split; [eapply call_spec; eassumption|].
  cbn [ConjugateGradientDescentIHVP.fetched ConjugateGradientDescentIHVP.iterators].
  repeat split.
  unfold n. destruct (init_spec _ _ Hinit) as [-> _]. apply Nat2Z.id.
Qed.

End MatrixFreeOperatorClaims.

Lemma float_cgd_init :
  ConjugateGradientDescentIHVP.__init__ one_batch_of_two (Some 100) = Ok float_cgd.
Proof. reflexivity. Qed.

(** C2 as stated fails: on one batch of two samples whose Hessians are the
    identity, the operator applied to [1] returns [1] (the mean), where the
    sum over the batch scaled by (batch size / sample count) is [2]. *)
Lemma call_is_not_batch_weighted :
  ~ returns_batch_weighted_hvp float_cgd [1%float] fresh_runtime.
Proof.
  intros (x & rt' & Ex & E).
  vm_compute in Ex. injection Ex as <-.
  apply (f_equal (fun o => match o with
                           | Some (Ok M, _) => Some (mrows M)
                           | _ => None
                           end)) in E.
  vm_compute in E.
  apply (f_equal (fun o => match o with
                           | Some ([a] :: _) => PrimFloat.eqb a 1%float
                           | _ => false
                           end)) in E.
  vm_compute in E. discriminate.
Qed.

Lemma call_returns_sample_weighted_hvp_witness :
  exists rt',
    ConjugateGradientDescentIHVP.__call__ float_cgd [1%float] fresh_runtime
    = Some (Ok (mkMatrix 1 [[1%float]]), rt').
Proof.
  destruct (call_returns_sample_weighted_hvp
              one_batch_of_two (Some 100) [1%float] fresh_runtime float_cgd_init
              (Nat.le_refl 1))
    as (x & Ex & (rt' & E) & _).
  exists rt'. rewrite E. vm_compute in Ex. injection Ex as <-.
  vm_compute. reflexivity.
Defined.

Lemma call_consumes_cardinality_batches_and_repeats_witness :
  exists (hvp : Matrix float) (rt1 rt2 : ConjugateGradientDescentIHVP.Runtime float float),
    ConjugateGradientDescentIHVP.__call__ float_cgd [1%float] fresh_runtime
    = Some (Ok hvp, rt1)
    /\ ConjugateGradientDescentIHVP.__call__ float_cgd [1%float] rt1 = Some (Ok hvp, rt2)
    /\ ConjugateGradientDescentIHVP.fetched rt1 = 0 + 1
    /\ ConjugateGradientDescentIHVP.fetched rt2
       = ConjugateGradientDescentIHVP.fetched rt1 + 1
    /\ ConjugateGradientDescentIHVP.iterators rt1 = [] ++ [[]]
    /\ ConjugateGradientDescentIHVP.iterators rt2
       = ConjugateGradientDescentIHVP.iterators rt1 ++ [[]]
    /\ 1 = length (batches one_batch_of_two).
Proof.
  exact (call_consumes_cardinality_batches_and_repeats
           one_batch_of_two (Some 100) [1%float] fresh_runtime float_cgd_init
           (Nat.le_refl 1)).
Defined.

(** ** The top-k accumulator under a change of batch order *)

Section FoldPermutation.
Context {S A : Type} (f : S -> A -> S) (R : A -> A -> Prop)
        (Inv : S -> Prop) (Q : A -> Prop).
Hypothesis step : forall s a, Inv s -> Q a -> Inv (f s a).
Hypothesis commute :
  forall s a b, Inv s -> Q a -> Q b -> R a b -> f (f s a) b = f (f s b) a.

(** Folding steps that commute pairwise, on the states the fold goes
    through, gives the same state in any order. *)
Lemma fold_left_permutation (l l' : list A) :
  Permutation l l' ->
  (forall a, In a l -> Q a) ->
  (forall a b, In a l -> In b l -> R a b) ->
  forall s, Inv s -> fold_left f l s = fold_left f l' s.
Proof.
  induction 1 as [|x l l' Hp IH|x y l|l l' l'' Hp1 IH1 Hp2 IH2]; intros HQ HR s Hs.
  - reflexivity.
  - cbn. apply IH.
    + intros a Ha. apply HQ. now right.
    + intros a b Ha Hb. apply HR; now right.
    + apply step; [exact Hs | apply HQ; now left].
  - cbn. f_equal.
    apply commute; [exact Hs | apply HQ | apply HQ | apply HR]; cbn; auto.
  - rewrite IH1 by assumption. apply IH2; [| |exact Hs].
    + intros a Ha. apply HQ.
      eapply Permutation_in; [apply Permutation_sym; eassumption | assumption].
    + intros a b Ha Hb.
      apply HR; eapply Permutation_in; try eassumption; now apply Permutation_sym.
Qed.

End FoldPermutation.

Section ZipFacts.
Context {A A' : Type}.

Lemma zip_with_nil_r (g : A -> A' -> A) (u : list A) : zip_with g u [] = [].
Proof. destruct u; reflexivity. Qed.

Lemma zip_with_commute (g : A -> A' -> A) (st : list A) (a b : list A') :
  (forall s x y, In s st -> In (x, y) (combine a b) -> g (g s x) y = g (g s y) x) ->
  zip_with g (zip_with g st a) b = zip_with g (zip_with g st b) a.
Proof.
  revert a b. induction st as [|s st IH]; intros a b Hc; [reflexivity|].
  destruct a as [|x a], b as [|y b]; cbn [zip_with];
    rewrite ?zip_with_nil_r; try reflexivity.
  f_equal.
  - apply Hc; now left.
  - apply IH. intros s' x' y' Hs' Hin. apply Hc; now right.
Qed.

Lemma in_zip_with (g : A -> A' -> A) (u : list A) (v : list A') (c : A) :
  In c (zip_with g u v) -> exists a b, In a u /\ In b v /\ c = g a b.
Proof.
  revert v. induction u as [|a u IH]; intros [|b v] Hc; cbn in Hc; try contradiction.
  destruct Hc as [<-|Hc].
  - exists a, b. cbn. auto.
  - destruct (IH v Hc) as (a' & b' & Ha & Hb & ->). exists a', b'. cbn. auto.
Qed.

End ZipFacts.

Section AccumulatorEntries.
Context {F V : Type} `{Scalar F}.

Local Abbreviation entry := (F * V)%type.

(** The accumulator holds nothing but what it was fed. *)
Lemma insert_in (e e' : entry) (l : list entry) :
  In e (BatchedSortedDict.insert e' l) -> e = e' \/ In e l.
Proof.
  induction l as [|h l IH]; cbn.
  - intros [<-|[]]. now left.
  - destruct (fleb (fst e') (fst h)); cbn.
    + intros [<-|Hin]; [right; now left|].
      destruct (IH Hin) as [->|Hl]; [now left | right; now right].
    + intros [<-|[<-|Hin]]; auto.
Qed.

Lemma add_row_in (k : nat) (e : entry) (l pairs : list entry) :
  In e (BatchedSortedDict.add_row k l pairs) -> In e l \/ In e pairs.
Proof.
  unfold BatchedSortedDict.add_row. intros Hin. apply in_firstn in Hin.
  revert l Hin. induction pairs as [|p pairs IH]; intros l Hin; [now left|].
  cbn [fold_left] in Hin. destruct (IH _ Hin) as [Hl|Hp]; [|right; now right].
  destruct (insert_in _ _ _ Hl) as [->|Hl']; [right; now left | now left].
Qed.

Lemma insert_scores (S : F -> Prop) (e : entry) (l : list entry) :
  S (fst e) -> scores_in S l -> scores_in S (BatchedSortedDict.insert e l).
Proof.
  intros He Hl e' Hin.
  destruct (insert_in _ _ _ Hin) as [->|Hin']; [exact He | now apply Hl].
Qed.

Lemma fold_insert_scores (S : F -> Prop) (pairs l : list entry) :
  scores_in S pairs -> scores_in S l ->
  scores_in S (fold_left (fun acc e => BatchedSortedDict.insert e acc) pairs l).
Proof.
  revert l. induction pairs as [|p pairs IH]; intros l Hp Hl; [exact Hl|].
  cbn [fold_left]. apply IH; [intros e He; apply Hp; now right|].
  apply insert_scores; [apply Hp; now left | exact Hl].
Qed.

Lemma zip_add_row_scores (S : F -> Prop) (k : nat) (st f : list (list entry)) :
  rows_scores_in S st -> rows_scores_in S f ->
  rows_scores_in S (zip_with (BatchedSortedDict.add_row k) st f).
Proof.
  intros Hst Hf row Hrow. apply in_zip_with in Hrow.
  destruct Hrow as (l & r & Hl & Hr & ->). intros e He.
  destruct (add_row_in _ _ _ _ He) as [Hin|Hin]; [now apply (Hst l) | now apply (Hf r)].
Qed.

(** Changing the payloads of the entries, scores kept, commutes with the
    operations of the accumulator. *)
Lemma map_insert {V' : Type} (p : entry -> F * V') (e : entry) (l : list entry) :
  (forall e, fst (p e) = fst e) ->
  map p (BatchedSortedDict.insert e l) = BatchedSortedDict.insert (p e) (map p l).
Proof.
  intros Hp. induction l as [|h l IH]; [reflexivity|].
  cbn. rewrite !Hp. destruct (fleb (fst e) (fst h)); cbn; [now rewrite IH | reflexivity].
Qed.

Lemma map_add_row {V' : Type} (p : entry -> F * V') (k : nat) (l pairs : list entry) :
  (forall e, fst (p e) = fst e) ->
  map p (BatchedSortedDict.add_row k l pairs)
  = BatchedSortedDict.add_row k (map p l) (map p pairs).
Proof.
  intros Hp. unfold BatchedSortedDict.add_row. rewrite <- firstn_map. f_equal.
  revert l. induction pairs as [|e pairs IH]; intros l; [reflexivity|].
  cbn. now rewrite IH, map_insert.
Qed.

Lemma map_accumulate {V' : Type} (p : entry -> F * V') (k : nat)
    (fs : list (list (list entry))) (st : list (list entry)) :
  (forall e, fst (p e) = fst e) ->
  map (map p) (fold_left (fun st f => zip_with (BatchedSortedDict.add_row k) st f) fs st)
  = fold_left (fun st f => zip_with (BatchedSortedDict.add_row k) st f)
              (map (map (map p)) fs) (map (map p) st).
Proof.
  intros Hp. revert st. induction fs as [|f fs IH]; intros st; [reflexivity|].
  cbn [fold_left map]. rewrite IH. f_equal.
  clear IH. revert f. induction st as [|l st IHst]; intros [|r f]; try reflexivity.
  cbn [zip_with map]. now rewrite IHst, map_add_row.
Qed.

Lemma map_rows_scores {V' : Type} (S : F -> Prop) (p : entry -> F * V')
    (f : list (list entry)) :
  (forall e, fst (p e) = fst e) ->
  rows_scores_in S f -> rows_scores_in S (map (map p) f).
Proof.
  intros Hp Hf row Hrow e He.
  apply in_map_iff in Hrow. destruct Hrow as (r & <- & Hr).
  apply in_map_iff in He. destruct He as (e0 & <- & He0).
  rewrite Hp. now apply (Hf r).
Qed.

(** Pruning before an insertion does not change the k highest after it. *)
Lemma firstn_insert (k : nat) (e : entry) (l : list entry) :
  firstn k (BatchedSortedDict.insert e (firstn k l))
  = firstn k (BatchedSortedDict.insert e l).
Proof.
  revert k. induction l as [|h l IH]; intros k.
  - now rewrite firstn_nil.
  - destruct k as [|k]; [reflexivity|].
    cbn [firstn BatchedSortedDict.insert].
    destruct (fleb (fst e) (fst h)); cbn [firstn].
    + now rewrite IH.
    + f_equal. destruct k; [reflexivity|]. rewrite !firstn_cons. f_equal.
      rewrite firstn_firstn. f_equal. lia.
Qed.

Lemma firstn_fold_insert (k : nat) (pairs l : list entry) :
  firstn k (fold_left (fun acc e => BatchedSortedDict.insert e acc) pairs (firstn k l))
  = firstn k (fold_left (fun acc e => BatchedSortedDict.insert e acc) pairs l).
Proof.
  revert l.
  assert (G : forall l l', firstn k l = firstn k l' ->
     firstn k (fold_left (fun acc e => BatchedSortedDict.insert e acc) pairs l)
     = firstn k (fold_left (fun acc e => BatchedSortedDict.insert e acc) pairs l')).
  { induction pairs as [|e pairs IH]; intros l l' El; [exact El|].
    cbn [fold_left]. apply IH.
    rewrite <- (firstn_insert k e l), <- (firstn_insert k e l'). now rewrite El. }
  intros l. apply G. now rewrite firstn_firstn, Nat.min_id.
Qed.

(** Two batches merged one after the other: the k highest of all their
    pairs merged into the list. *)
Lemma add_row_twice (k : nat) (l a b : list entry) :
  BatchedSortedDict.add_row k (BatchedSortedDict.add_row k l a) b
  = firstn k (fold_left (fun acc e => BatchedSortedDict.insert e acc) (a ++ b) l).
Proof.
  unfold BatchedSortedDict.add_row. now rewrite firstn_fold_insert, fold_left_app.
Qed.

End AccumulatorEntries.

Section TopKAccumulator.
Context {F V : Type} `{Scalar F}.

(** The comparison is a total order on the scores that occur. *)
Variable ordered : F -> Prop.
Hypothesis fleb_order : total_order_on ordered.

Local Abbreviation entry := (F * V)%type.

(** Two entries of different scores can be inserted in either order. *)
Lemma insert_commute (e e' : entry) (l : list entry) :
  ordered (fst e) -> ordered (fst e') -> scores_in ordered l ->
  fst e <> fst e' ->
  BatchedSortedDict.insert e (BatchedSortedDict.insert e' l)
  = BatchedSortedDict.insert e' (BatchedSortedDict.insert e l).
Proof.
  destruct fleb_order as (fleb_total & fleb_trans & fleb_antisym).
  intros He He' Hl Hne. induction l as [|h l IH].
  - cbn. destruct (fleb (fst e) (fst e')) eqn:E1, (fleb (fst e') (fst e)) eqn:E2;
      try reflexivity.
    + exfalso. apply Hne. now apply fleb_antisym.
    + destruct (fleb_total _ _ He He'); congruence.
  - assert (Hh : ordered (fst h)) by (apply Hl; now left).
    assert (Hl' : scores_in ordered l) by (intros x Hx; apply Hl; now right).
    cbn [BatchedSortedDict.insert].
    destruct (fleb (fst e') (fst h)) eqn:E'h, (fleb (fst e) (fst h)) eqn:Eh;
      cbn [BatchedSortedDict.insert]; rewrite ?E'h, ?Eh.
    + now rewrite (IH Hl').
    + assert (Hhe : fleb (fst h) (fst e) = true)
        by (destruct (fleb_total _ _ He Hh); congruence).
      now rewrite (fleb_trans _ _ _ He' Hh He E'h Hhe).
    + assert (Hhe : fleb (fst h) (fst e') = true)
        by (destruct (fleb_total _ _ He' Hh); congruence).
      now rewrite (fleb_trans _ _ _ He Hh He' Eh Hhe).
    + destruct (fleb (fst e) (fst e')) eqn:E1, (fleb (fst e') (fst e)) eqn:E2;
        try reflexivity.
      * exfalso. apply Hne. now apply fleb_antisym.
      * destruct (fleb_total _ _ He He'); congruence.
Qed.

Lemma fold_insert_commute (x : entry) (b l : list entry) :
  ordered (fst x) -> scores_in ordered b -> scores_in ordered l ->
  (forall e, In e b -> commuting x e) ->
  fold_left (fun acc e => BatchedSortedDict.insert e acc) b (BatchedSortedDict.insert x l)
  = BatchedSortedDict.insert x
      (fold_left (fun acc e => BatchedSortedDict.insert e acc) b l).
Proof.
  intros Hx. revert l. induction b as [|e b IH]; intros l Hb Hl Hc; [reflexivity|].
  assert (He : ordered (fst e)) by (apply Hb; now left).
  cbn [fold_left]. rewrite <- IH.
  - f_equal. destruct (Hc e (or_introl eq_refl)) as [->|Hne]; [reflexivity|].
    symmetry. now apply insert_commute.
  - intros e' He'. apply Hb. now right.
  - now apply insert_scores.
  - intros e' He'. apply Hc. now right.
Qed.

Lemma fold_insert_app_commute (a b l : list entry) :
  scores_in ordered a -> scores_in ordered b -> scores_in ordered l ->
  (forall e e', In e a -> In e' b -> commuting e e') ->
  fold_left (fun acc e => BatchedSortedDict.insert e acc) (a ++ b) l
  = fold_left (fun acc e => BatchedSortedDict.insert e acc) (b ++ a) l.
Proof.
  revert l. induction a as [|x a IH]; intros l Ha Hb Hl Hc.
  - now rewrite app_nil_r.
  - assert (Hx : ordered (fst x)) by (apply Ha; now left).
    cbn [app fold_left]. rewrite IH.
    + rewrite !fold_left_app. cbn [fold_left]. f_equal.
      apply fold_insert_commute; try assumption.
      intros e He. apply Hc; [now left | assumption].
    + intros e He. apply Ha. now right.
    + exact Hb.
    + now apply insert_scores.
    + intros e e' He He'. apply Hc; [now right | assumption].
Qed.

(** Two batches whose pairs commute can be merged in either order. *)
Lemma add_row_commute (k : nat) (l a b : list entry) :
  scores_in ordered a -> scores_in ordered b -> scores_in ordered l ->
  (forall e e', In e a -> In e' b -> commuting e e') ->
  BatchedSortedDict.add_row k (BatchedSortedDict.add_row k l a) b
  = BatchedSortedDict.add_row k (BatchedSortedDict.add_row k l b) a.
Proof.
  intros Ha Hb Hl Hc. rewrite !add_row_twice. f_equal.
  now apply fold_insert_app_commute.
Qed.

Lemma accumulate_permutation (k : nat) (fs fs' : list (list (list entry)))
    (st : list (list entry)) :
  Permutation fs fs' ->
  rows_scores_in ordered st ->
  (forall f, In f fs -> rows_scores_in ordered f) ->
  (forall f g, In f fs -> In g fs -> f = g \/ rows_commute f g) ->
  accumulate k fs st = accumulate k fs' st.
Proof.
  intros Hp Hst Hfs Hc. unfold accumulate.
  apply (fold_left_permutation
           (fun st f => zip_with (BatchedSortedDict.add_row k) st f)
           (fun f g => f = g \/ rows_commute f g)
           (rows_scores_in ordered) (rows_scores_in ordered)); try assumption.
  - intros s f Hs Hf. now apply zip_add_row_scores.
  - intros s f g Hs Hf Hg [->|Hfg]; [reflexivity|].
    apply zip_with_commute. intros l a b Hl Hab. apply add_row_commute.
    + apply Hf. eapply in_combine_l; eassumption.
    + apply Hg. eapply in_combine_r; eassumption.
    + now apply Hs.
    + intros e e'. now apply Hfg.
Qed.

End TopKAccumulator.

Section TopKScores.
Context {F V : Type} `{Scalar F}.
Variable ordered : F -> Prop.
Hypothesis fleb_order : total_order_on ordered.

(** Entries without payload commute: equal scores make them equal. *)
Lemma unit_entries_commute (e e' : F * unit) :
  ordered (fst e) -> ordered (fst e') -> commuting e e'.
Proof.
  destruct fleb_order as (fleb_total & _ & fleb_antisym).
  destruct e as [a []], e' as [b []]. unfold commuting. cbn [fst]. intros Ha Hb.
  destruct (fleb a b) eqn:Eab, (fleb b a) eqn:Eba.
  - left. f_equal. now apply fleb_antisym.
  - right. intros ->. congruence.
  - right. intros ->. congruence.
  - destruct (fleb_total _ _ Ha Hb); congruence.
Qed.

(** The score lists of the accumulator do not depend on the order of the
    feeds. *)
Lemma accumulate_scores_permutation (k : nat) (fs fs' : list (list (list (F * V))))
    (st : list (list (F * V))) :
  Permutation fs fs' ->
  rows_scores_in ordered st ->
  (forall f, In f fs -> rows_scores_in ordered f) ->
  map (map fst) (accumulate k fs st) = map (map fst) (accumulate k fs' st).
Proof.
  intros Hp Hst Hfs. set (p := fun e : F * V => (fst e, tt)).
  assert (Hfst : forall X : list (list (F * V)),
             map (map fst) X = map (map fst) (map (map p) X)).
  { intros X. rewrite map_map. apply map_ext. intros l. now rewrite map_map. }
  assert (Hmapped : forall f, In f (map (map (map p)) fs) -> rows_scores_in ordered f).
  { intros f Hf. apply in_map_iff in Hf. destruct Hf as (f0 & <- & Hf0).
    apply map_rows_scores; [reflexivity | now apply Hfs]. }
  rewrite (Hfst (accumulate k fs st)), (Hfst (accumulate k fs' st)). f_equal.
  unfold accumulate. rewrite !(map_accumulate p) by reflexivity.
  apply (accumulate_permutation fleb_order).
  - now apply Permutation_map.
  - now apply map_rows_scores.
  - exact Hmapped.
  - intros f g Hf Hg. right. intros row row' Hrows e e' He He'.
    apply (unit_entries_commute e e').
    + apply (Hmapped f Hf row); [eapply in_combine_l; eassumption | exact He].
    + apply (Hmapped g Hg row'); [eapply in_combine_r; eassumption | exact He'].
Qed.

End TopKScores.

Section SequenceFacts.
Context {A : Type}.

Lemma sequence_map_Ok (l : list A) : sequence (map (@Ok A) l) = Ok l.
Proof. induction l as [|a l IH]; [reflexivity|]. cbn. now rewrite IH. Qed.

Lemma sequence_cases (rs : list (result A)) :
  (exists l, rs = map (@Ok A) l /\ sequence rs = Ok l)
  \/ (exists e, In (Raise e) rs /\ exists e', sequence rs = Raise e').
Proof.
  induction rs as [|r rs IH].
  - left. exists []. split; reflexivity.
  - destruct r as [a|e].
    + destruct IH as [(l & -> & E)|(e & He & e' & E)].
      * left. exists (a :: l). split; [reflexivity|]. cbn. now rewrite E.
      * right. exists e. split; [now right|]. exists e'. cbn. now rewrite E.
    + right. exists e. split; [now left|]. exists e. reflexivity.
Qed.

(** Both orders succeed, on permuted lists of values, or both raise. *)
Lemma sequence_permutation (rs rs' : list (result A)) :
  Permutation rs rs' ->
  (exists l l', sequence rs = Ok l /\ sequence rs' = Ok l' /\ Permutation l l')
  \/ (exists e e', sequence rs = Raise e /\ sequence rs' = Raise e').
Proof.
  intros Hp.
  destruct (sequence_cases rs) as [(l & -> & E)|(e & He & e1 & E)].
  - left. destruct (Permutation_map_inv _ _ (Permutation_sym Hp)) as (l' & -> & Hl').
    exists l, l'. rewrite E, sequence_map_Ok. repeat split. now apply Permutation_sym.
  - right. destruct (sequence_cases rs') as [(l' & -> & E')|(e' & He' & e2 & E')].
    + exfalso. apply (Permutation_in _ Hp) in He. apply in_map_iff in He.
      destruct He as (a & Ha & _). discriminate.
    + exists e1, e2. now split.
Qed.

End SequenceFacts.

(** ** [FirstOrderInfluenceCalculator.top_k] *)

Section TopK.
Context {B F X Y : Type} `{Scalar F} `{InfluenceModel F X Y}
        `{InverseHessianVectorProduct B F X Y}.

Local Abbreviation calculator := (FirstOrderInfluenceCalculator.t B).

Lemma zip_with_map_r {A A' A'' : Type} (g : A -> A'' -> A) (p : A' -> A'')
    (u : list A) (v : list A') :
  zip_with (fun a b => g a (p b)) u v = zip_with g u (map p v).
Proof.
  revert v. induction u as [|a u IH]; intros [|b v]; cbn; try reflexivity.
  now rewrite IH.
Qed.

Lemma top_k_body_fed (self : calculator) (g : Matrix F) (n : nat) (dtype : DType)
    (k : nat) (st : list (list (F * X))) (batch : list (X * Y)) :
  FirstOrderInfluenceCalculator.top_k_body self g n dtype (BatchedSortedDict.mk k st) batch
  = (f <- pairs_fed self g n dtype batch ;;
     Ok (BatchedSortedDict.mk k (zip_with (BatchedSortedDict.add_row k) st f))).
Proof.
  unfold FirstOrderInfluenceCalculator.top_k_body, pairs_fed.
  destruct (FirstOrderInfluenceCalculator.top_k_scores self g dtype batch) as [S|e];
    [|reflexivity].
  cbn [bind]. unfold BatchedSortedDict.add_all.
  cbn [BatchedSortedDict.maximum_size BatchedSortedDict.batch_dict].
  now rewrite zip_with_map_r.
Qed.

Lemma fold_bind_Raise {S A : Type} (f : S -> A -> result S) (l : list A) (e : exn) :
  fold_left (fun acc a => s <- acc ;; f s a) l (Raise e) = Raise e.
Proof. induction l as [|a l IH]; [reflexivity | exact IH]. Qed.

(** The loop of [top_k]: every batch is evaluated, the first exception
    ends the call, and otherwise the accumulator has merged what the
    batches fed, in their order. *)
Lemma top_k_loop_spec (self : calculator) (g : Matrix F) (n : nat) (dtype : DType)
    (k : nat) (bs : list (list (X * Y))) (st : list (list (F * X))) :
  fold_left (fun acc batch =>
               d <- acc ;;
               FirstOrderInfluenceCalculator.top_k_body self g n dtype d batch)
            bs (Ok (BatchedSortedDict.mk k st))
  = (fs <- sequence (map (pairs_fed self g n dtype) bs) ;;
     Ok (BatchedSortedDict.mk k (accumulate k fs st))).
Proof.
  revert st. induction bs as [|b bs IH]; intros st; [reflexivity|].
  cbn [fold_left map sequence bind]. rewrite top_k_body_fed.
  destruct (pairs_fed self g n dtype b) as [f|e]; cbn [bind].
  - rewrite IH. destruct (sequence _); reflexivity.
  - apply fold_bind_Raise.
Qed.

Lemma top_k_over_batches_spec (self : calculator) (sample : list (X * Y))
    (dtype : DType) (bs : list (list (X * Y))) (k : nat) :
  FirstOrderInfluenceCalculator.top_k_over_batches self sample dtype bs k
  = (g <- query_gradients sample ;;
     fs <- sequence (map (pairs_fed self g (length sample) dtype) bs) ;;
     let dict := accumulate k fs (repeat [] (length sample)) in
     Ok (map (map fst) dict, map (map snd) dict)).
Proof.
  unfold FirstOrderInfluenceCalculator.top_k_over_batches, query_gradients.
  destruct (reshape_first _ _) as [g|e]; [|reflexivity]. cbn [bind].
  unfold BatchedSortedDict.__init__. rewrite top_k_loop_spec.
  destruct (sequence _); reflexivity.
Qed.

(** C6, as far as it holds.  When the comparison, restricted to the scores
    the batches feed to the accumulator, is a total order (for binary64
    scores: no NaN among them, and not both zeros), feeding the batches of
    the training set in another order gives the same sorted score lists for
    every query row (or an exception in both orders, when the backend raises
    on a batch).  The retained training samples are the same too when no two
    different batches share a score in a query row; otherwise which of the
    tied samples are kept depends on the order. *)
Theorem top_k_batch_order
    (self : calculator) (sample : list (X * Y)) (dtype : DType)
    (bs bs' : list (list (X * Y))) (k : nat) :
  total_order_on (score_fed self sample dtype bs) ->
  Permutation bs bs' ->
  match FirstOrderInfluenceCalculator.top_k_over_batches self sample dtype bs k,
        FirstOrderInfluenceCalculator.top_k_over_batches self sample dtype bs' k with
  | Ok (values, samples), Ok (values', samples') =>
      values = values'
      /\ ((forall g b b' f f',
              query_gradients sample = Ok g ->
              In b bs -> In b' bs ->
              pairs_fed self g (length sample) dtype b = Ok f ->
              pairs_fed self g (length sample) dtype b' = Ok f' ->
              b = b' \/ no_shared_score f f') ->
          samples = samples')
  | Raise _, Raise _ => True
  | _, _ => False
  end.
Proof.
  intros Horder Hp. rewrite !top_k_over_batches_spec.
  destruct (query_gradients sample) as [g|e] eqn:Eg; [|exact I]. cbn [bind].
  destruct (sequence_permutation
              (Permutation_map (pairs_fed self g (length sample) dtype) Hp))
    as [(l & l' & E & E' & Hl)|(e & e' & E & E')]; rewrite E, E'; cbn [bind]; [|exact I].
  destruct (sequence_cases (map (pairs_fed self g (length sample) dtype) bs))
    as [(l0 & El0 & E0)|(e & _ & e' & E0)]; [|congruence].
  assert (l0 = l) by congruence. subst l0.
  assert (Hin : forall f, In f l ->
            exists b, In b bs /\ pairs_fed self g (length sample) dtype b = Ok f).
  { intros f0 Hf0. apply (in_map (@Ok _)) in Hf0. rewrite <- El0 in Hf0.
    apply in_map_iff in Hf0. destruct Hf0 as (b & Eb & Hb). eauto. }
  assert (Hfed : forall f, In f l ->
            rows_scores_in (score_fed self sample dtype bs) f).
  { intros f Hf row Hrow e He. destruct (Hin f Hf) as (b & Hb & Eb).
    exists g, b, f, row, e. repeat split; assumption. }
  assert (Hst : rows_scores_in (score_fed self sample dtype bs)
                               (repeat (@nil (F * X)) (length sample))).
  { intros row Hrow. apply repeat_spec in Hrow. subst row. intros e []. }
  split.
  - now apply (accumulate_scores_permutation Horder).
  - intros Hdistinct. f_equal.
    apply (accumulate_permutation Horder); try assumption.
    intros f f' Hf Hf'.
    destruct (Hin f Hf) as (b & Hb & Eb), (Hin f' Hf') as (b' & Hb' & Eb').
    destruct (Hdistinct g b b' f f' eq_refl Hb Hb' Eb Eb') as [->|Hns].
    + left. congruence.
    + right. intros row row' Hrow e e' He He'. right. now apply (Hns row row').
Qed.

End TopK.

Section TopKPayloads.
Context {B F X Y : Type} `{Scalar F} `{InfluenceModel F X Y}
        `{InverseHessianVectorProduct B F X Y}.

(** Every payload the accumulator holds was fed to it. *)
Lemma accumulate_payloads {V : Type} (Q : V -> Prop) (k : nat)
    (fs : list (list (list (F * V)))) (st : list (list (F * V))) :
  (forall row e, In row st -> In e row -> Q (snd e)) ->
  (forall f row e, In f fs -> In row f -> In e row -> Q (snd e)) ->
  forall row e, In row (accumulate k fs st) -> In e row -> Q (snd e).
Proof.
  revert st. induction fs as [|f fs IH]; intros st Hst Hfs; [exact Hst|].
  unfold accumulate in *. cbn [fold_left]. apply IH.
  - intros row e Hrow He. apply in_zip_with in Hrow.
    destruct Hrow as (l & r & Hl & Hr & ->).
    destruct (add_row_in _ _ _ _ He) as [Hin|Hin].
    + now apply (Hst l).
    + apply (Hfs f r); [now left | assumption | assumption].
  - intros f' row e Hf'. apply Hfs. now right.
Qed.

Lemma rows_of_length (fuel c : nat) (data : list F) :
  length (rows_of fuel c data) = fuel.
Proof.
  revert data. induction fuel as [|fuel IH]; intros data; [reflexivity|].
  cbn. now rewrite IH.
Qed.

Lemma query_gradients_rows (sample : list (X * Y)) (g : Matrix F) :
  query_gradients sample = Ok g -> nrows g = length sample.
Proof.
  unfold query_gradients, reshape_first.
  destruct (length sample) as [|n]; [discriminate|].
  destruct (Nat.eqb _ _); [|discriminate].
  intros E.
  apply (f_equal (fun r => match r with Ok M => nrows M | Raise _ => 0 end)) in E.
  rewrite <- E. unfold nrows. apply rows_of_length.
Qed.

(** The score matrix of a training batch has one row per query point. *)
Lemma top_k_scores_rows (self : FirstOrderInfluenceCalculator.t B) (g : Matrix F)
    (dtype : DType) (batch : list (X * Y)) (S : Matrix F) :
  FirstOrderInfluenceCalculator.top_k_scores self g dtype batch = Ok S ->
  nrows S = nrows g.
Proof.
  unfold FirstOrderInfluenceCalculator.top_k_scores.
  destruct (length (map fst batch)); [discriminate|].
  destruct (compute_ihvp _ _ _); [|discriminate]. cbn [bind]. unfold matmul.
  destruct (Nat.eqb _ _); [|discriminate].
  intros E. injection E as <-. unfold nrows. cbn [mrows]. apply length_map.
Qed.

Lemma combine_repeat_r {A A' : Type} (l : list A) (p : A') :
  combine l (repeat p (length l)) = map (fun a => (a, p)) l.
Proof. induction l as [|a l IH]; [reflexivity|]. cbn. now rewrite IH. Qed.

(** One turn of the loop of [top_k], when the score matrix has one row per
    query point: every row merges its scores paired with the inputs of the
    batch. *)
Lemma top_k_body_merges (self : FirstOrderInfluenceCalculator.t B) (g : Matrix F)
    (dtype : DType) (d : BatchedSortedDict.t F X) (batch : list (X * Y)) :
  FirstOrderInfluenceCalculator.top_k_body self g (nrows g) dtype d batch
  = (S <- FirstOrderInfluenceCalculator.top_k_scores self g dtype batch ;;
     Ok (merge_batch d (S, batch))).
Proof.
  unfold FirstOrderInfluenceCalculator.top_k_body.
  destruct (FirstOrderInfluenceCalculator.top_k_scores self g dtype batch) as [S|e] eqn:ES;
    [|reflexivity].
  cbn [bind]. f_equal. unfold BatchedSortedDict.add_all, merge_batch.
  cbn [fst snd]. f_equal.
  unfold FirstOrderInfluenceCalculator.top_k_payloads.
  rewrite <- (top_k_scores_rows _ _ _ _ ES). unfold nrows.
  rewrite combine_repeat_r.
  rewrite <- (zip_with_map_r
                (fun entries row =>
                   BatchedSortedDict.add_row (BatchedSortedDict.maximum_size d) entries
                     (combine (fst row) (snd row)))
                (fun srow => (srow, map fst batch))).
  reflexivity.
Qed.

(** The loop of [top_k] that returns: every batch had a score matrix, with
    one row per query point, and the accumulator merged them in order. *)
Lemma top_k_loop_merges (self : FirstOrderInfluenceCalculator.t B) (g : Matrix F)
    (dtype : DType) (bs : list (list (X * Y))) (d d' : BatchedSortedDict.t F X) :
  fold_left (fun acc batch =>
               d <- acc ;;
               FirstOrderInfluenceCalculator.top_k_body self g (nrows g) dtype d batch)
            bs (Ok d) = Ok d' ->
  exists scores : list (Matrix F),
    map (FirstOrderInfluenceCalculator.top_k_scores self g dtype) bs
    = map (@Ok _) scores
    /\ Forall (fun S => nrows S = nrows g) scores
    /\ fold_left merge_batch (combine scores bs) d = d'.
Proof.
  revert d. induction bs as [|b bs IH]; intros d E.
  - cbn in E. injection E as <-. exists []. repeat split. constructor.
  - cbn [fold_left bind] in E. rewrite top_k_body_merges in E.
    destruct (FirstOrderInfluenceCalculator.top_k_scores self g dtype b) as [S|e] eqn:ES.
    + cbn [bind] in E. destruct (IH _ E) as (scores & Es & Hrows & Ed).
      exists (S :: scores). cbn [map combine fold_left]. rewrite ES, Es.
      repeat split; [|exact Ed].
      constructor; [now apply (top_k_scores_rows _ _ _ _ ES) | exact Hrows].
    + cbn [bind] in E. rewrite fold_bind_Raise in E. discriminate.
Qed.

(** Merging batches whose score matrices have one row per row of the
    accumulator keeps the rows of the accumulator. *)
Lemma merge_batches_rows (n : nat) (scores : list (Matrix F))
    (bs : list (list (X * Y))) (d : BatchedSortedDict.t F X) :
  Forall (fun S => nrows S = n) scores ->
  length (BatchedSortedDict.batch_dict d) = n ->
  length (BatchedSortedDict.batch_dict (fold_left merge_batch (combine scores bs) d))
  = n.
Proof.
  intros Hrows. revert bs d.
  induction Hrows as [|S scores HS _ IH]; intros bs d Hd; [exact Hd|].
  destruct bs as [|b bs]; [exact Hd|].
  cbn [combine fold_left]. apply IH. unfold merge_batch.
  cbn [BatchedSortedDict.batch_dict fst snd]. rewrite length_zip_with.
  unfold nrows in HS. rewrite Hd, HS. apply Nat.min_id.
Qed.

(** C10.  When [top_k] returns, every training batch had a score matrix with
    one row per query point, and what is returned is what the accumulator
    holds after merging, batch after batch and into every query row, the
    scores of that row paired with one and the same list: the inputs of the
    batch, without their labels.  So one row of training samples is returned
    per query point, and every training sample returned is the input of a
    pair of the training set. *)
Theorem top_k_returns_training_inputs
    (self : FirstOrderInfluenceCalculator.t B) (sample_to_evaluate : list (X * Y))
    (dataset_train : Dataset (X * Y)) (k : nat)
    (influences_values : list (list F)) (training_samples : list (list X)) :
  FirstOrderInfluenceCalculator.top_k self sample_to_evaluate dataset_train k
  = Ok (influences_values, training_samples) ->
  (exists (grads_to_evaluate : Matrix F) (scores : list (Matrix F)),
      query_gradients sample_to_evaluate = Ok grads_to_evaluate
      /\ map (FirstOrderInfluenceCalculator.top_k_scores
                self grads_to_evaluate (element_dtype dataset_train))
             (batches dataset_train)
         = map (@Ok _) scores
      /\ Forall (fun S => nrows S = length sample_to_evaluate) scores
      /\ BatchedSortedDict.get
           (fold_left merge_batch (combine scores (batches dataset_train))
                      (BatchedSortedDict.__init__ (length sample_to_evaluate) k))
         = (influences_values, training_samples))
  /\ length training_samples = length sample_to_evaluate
  /\ (forall row x, In row training_samples -> In x row ->
                    In x (map fst (unbatched dataset_train))).
Proof.
  intros E.
  assert (Hfed :
    exists (g : Matrix F) (scores : list (Matrix F)),
      query_gradients sample_to_evaluate = Ok g
      /\ map (FirstOrderInfluenceCalculator.top_k_scores
                self g (element_dtype dataset_train)) (batches dataset_train)
         = map (@Ok _) scores
      /\ Forall (fun S => nrows S = length sample_to_evaluate) scores
      /\ BatchedSortedDict.get
           (fold_left merge_batch (combine scores (batches dataset_train))
                      (BatchedSortedDict.__init__ (length sample_to_evaluate) k))
         = (influences_values, training_samples)).
  { unfold FirstOrderInfluenceCalculator.top_k,
           FirstOrderInfluenceCalculator.top_k_over_batches in E.
    fold (query_gradients sample_to_evaluate) in E.
    destruct (query_gradients sample_to_evaluate) as [g|] eqn:Eg; [|discriminate].
    cbn [bind] in E. rewrite <- (query_gradients_rows _ Eg) in E |- *.
    destruct (fold_left _ _ _) as [d'|] eqn:Eloop; [|discriminate].
    cbn [bind] in E. injection E as Evalues Esamples.
    destruct (top_k_loop_merges _ _ _ _ _ Eloop) as (scores & Es & Hrows & Ed).
    exists g, scores. rewrite Ed. repeat split; try assumption.
    unfold BatchedSortedDict.get. now rewrite Evalues, Esamples. }
  split; [exact Hfed|]. split.
  - destruct Hfed as (g & scores & _ & _ & Hrows & Eget).
    apply (f_equal snd) in Eget. cbn [snd BatchedSortedDict.get] in Eget.
    rewrite <- Eget, length_map.
    apply merge_batches_rows; [exact Hrows | apply repeat_length].
  - unfold FirstOrderInfluenceCalculator.top_k in E.
    rewrite top_k_over_batches_spec in E.
    destruct (query_gradients sample_to_evaluate) as [g|]; [|discriminate].
    cbn [bind] in E.
    destruct (sequence_cases
                (map (pairs_fed self g (length sample_to_evaluate)
                                (element_dtype dataset_train))
                     (batches dataset_train)))
      as [(fs & Efs & Eseq)|(e & _ & e' & Eseq)]; rewrite Eseq in E;
      [|discriminate].
    cbn [bind] in E. injection E as _ <-.
    intros row x Hrow Hx. apply in_map_iff in Hrow. destruct Hrow as (r & <- & Hr).
    apply in_map_iff in Hx. destruct Hx as (e & <- & He).
    revert r e Hr He.
    apply (accumulate_payloads (fun x => In x (map fst (unbatched dataset_train)))).
    + intros r e Hr. apply repeat_spec in Hr. subst r. intros [].
    + intros f r e Hf Hr He.
      apply (in_map (@Ok _)) in Hf. rewrite <- Efs in Hf.
      apply in_map_iff in Hf. destruct Hf as (b & Eb & Hb).
      unfold pairs_fed in Eb.
      destruct (FirstOrderInfluenceCalculator.top_k_scores _ _ _ _) as [S|];
        [|discriminate].
      cbn [bind] in Eb. injection Eb as <-.
      apply in_map_iff in Hr. destruct Hr as ([srow prow] & <- & Hrow).
      apply in_combine_r in Hrow. apply repeat_spec in Hrow. subst prow.
      cbn [fst snd] in He. destruct e as [a x]. apply in_combine_r in He.
      cbn [snd].
      apply in_map_iff in He. destruct He as (s & <- & Hs).
      apply in_map. now apply (in_batches dataset_train b).
Qed.

End TopKPayloads.

(** C6 as stated fails: two training points with the same score 5 for the
    query, k = 1; the point that arrives first is kept, so the two orders
    return different training samples (with the same score list). *)
Lemma top_k_ties_depend_on_order :
  ~ same_top_k (float_calculator false) float_query tf_float64
               tied_batches tied_batches_swapped 1.
Proof.
  unfold same_top_k. intros E.
  apply (f_equal (fun r => match r with
                           | Ok (_, [[x]]) => PrimFloat.eqb x 2%float
                           | _ => false
                           end)) in E.
  vm_compute in E. discriminate.
Qed.

Lemma top_k_batch_order_witness :
  FirstOrderInfluenceCalculator.top_k_over_batches
    (float_calculator false) float_query tf_float64 distinct_batches 1
  = Ok ([[8%float]], [[7%float]])
  /\ match FirstOrderInfluenceCalculator.top_k_over_batches
             (float_calculator false) float_query tf_float64 distinct_batches 1,
           FirstOrderInfluenceCalculator.top_k_over_batches
             (float_calculator false) float_query tf_float64 distinct_batches_swapped 1
     with
     | Ok (values, samples), Ok (values', samples') =>
         values = values'
         /\ ((forall g b b' f f',
                 query_gradients float_query = Ok g ->
                 In b distinct_batches -> In b' distinct_batches ->
                 pairs_fed (float_calculator false) g (length float_query)
                           tf_float64 b = Ok f ->
                 pairs_fed (float_calculator false) g (length float_query)
                           tf_float64 b' = Ok f' ->
                 b = b' \/ no_shared_score f f') ->
             samples = samples')
     | Raise _, Raise _ => True
     | _, _ => False
     end.
Proof.
  split; [vm_compute; reflexivity|].
  assert (Hscores : forall a,
             score_fed (float_calculator false) float_query tf_float64
                       distinct_batches a ->
             a = 5%float \/ a = 8%float).
  { intros a (g & b & f & row & e & Eg & Hb & Ef & Hrow & He & <-).
    vm_compute in Eg. injection Eg as <-.
    destruct Hb as [<-|[<-|[]]]; vm_compute in Ef; injection Ef as <-;
      destruct Hrow as [<-|[]]; destruct He as [<-|[]]; cbn [fst]; auto. }
  apply (@top_k_batch_order _ _ _ _ _ _ _ (float_calculator false) float_query
           tf_float64 distinct_batches distinct_batches_swapped 1).
  - repeat split.
    + intros a b Ha Hb.
      destruct (Hscores a Ha) as [->| ->], (Hscores b Hb) as [->| ->];
        vm_compute; auto.
    + intros a b c Ha Hb Hc.
      destruct (Hscores a Ha) as [->| ->], (Hscores b Hb) as [->| ->],
               (Hscores c Hc) as [->| ->];
        vm_compute; intros E1 E2; try reflexivity; discriminate.
    + intros a b Ha Hb.
      destruct (Hscores a Ha) as [->| ->], (Hscores b Hb) as [->| ->];
        vm_compute; intros E1 E2; try reflexivity; discriminate.
  - apply perm_swap.
Defined.

Lemma top_k_returns_training_inputs_witness :
  FirstOrderInfluenceCalculator.top_k (float_calculator false) two_queries three_points 2
  = Ok ([[8%float; 5%float]; [7%float; 2%float]],
        [[7%float; 2%float]; [7%float; 2%float]])
  /\ (exists (grads_to_evaluate : Matrix float) (scores : list (Matrix float)),
         query_gradients two_queries = Ok grads_to_evaluate
         /\ map (FirstOrderInfluenceCalculator.top_k_scores
                   (float_calculator false) grads_to_evaluate
                   (element_dtype three_points))
                (batches three_points)
            = map (@Ok _) scores
         /\ Forall (fun S => nrows S = length two_queries) scores
         /\ BatchedSortedDict.get
              (fold_left merge_batch (combine scores (batches three_points))
                         (BatchedSortedDict.__init__ (length two_queries) 2))
            = ([[8%float; 5%float]; [7%float; 2%float]],
               [[7%float; 2%float]; [7%float; 2%float]]))
  /\ length [[7%float; 2%float]; [7%float; 2%float]] = length two_queries
  /\ (forall row x, In row [[7%float; 2%float]; [7%float; 2%float]] -> In x row ->
                    In x (map fst (unbatched three_points))).
Proof.
  assert (E : FirstOrderInfluenceCalculator.top_k (float_calculator false) two_queries
                three_points 2
              = Ok ([[8%float; 5%float]; [7%float; 2%float]],
                    [[7%float; 2%float]; [7%float; 2%float]]))
    by (vm_compute; reflexivity).
  split; [exact E|].
  exact (top_k_returns_training_inputs _ _ _ _ E).
Defined.

(** ** Further properties of [ExactIHVP.compute_ihvp] and [top_k] *)

Section ExactShapes.
Context {F X Y : Type} `{Scalar F} `{InfluenceModel F X Y}.

(** With [use_gradient], [ExactIHVP.compute_ihvp] returns a tensor with one
    column per point of the group, in the order of the group: column [j] is
    the inverse Hessian applied to the gradient of point [j]. *)
Theorem ExactIHVP_compute_ihvp_one_column_per_point
    (self : ExactIHVP.t F X Y) (group : Dataset (X * Y)) :
  nb_params <> 0 ->
  ncols (ExactIHVP.inv_hessian self) = nb_params ->
  exists M : Matrix F,
    ExactIHVP.compute_ihvp self (Points group) true = Ok M
    /\ well_shaped M
    /\ ncols M = length (unbatched group)
    /\ nrows M = nrows (ExactIHVP.inv_hessian self)
    /\ map (column M) (seq 0 (ncols M))
       = map (fun s => map (fun h => dot h (per_sample_gradient (fst s) (snd s)))
                           (mrows (ExactIHVP.inv_hessian self)))
             (unbatched group).
Proof.
  intros HP Hinv. eexists. split; [now apply ExactIHVP_compute_ihvp_points|].
  destruct (ExactIHVP_compute_ihvp_shape self group
              (ExactIHVP_compute_ihvp_points self group HP Hinv)) as [Hw Hc].
  split; [exact Hw|]. split; [exact Hc|]. split.
  - unfold nrows. cbn [mrows]. apply length_map.
  - cbn [ncols]. apply columns_of_products.
Qed.

Lemma sequence_Ok_inv {A : Type} (rs : list (result A)) (l : list A) :
  sequence rs = Ok l -> rs = map (@Ok A) l.
Proof.
  intros E. destruct (sequence_cases rs) as [(l' & -> & E')|(e & _ & e' & E')];
    congruence.
Qed.

(** Without [use_gradient], on vectors of [nb_params] entries, whatever
    [ExactIHVP.compute_ihvp] returns has the rows of the per-batch products
    one below the other: as many columns as the first batch has vectors, and
    the rows of the inverse Hessian once per batch. *)
Theorem ExactIHVP_compute_ihvp_vectors_shape
    (self : ExactIHVP.t F X Y) (group : Dataset (list F)) (M : Matrix F) :
  Forall (fun vector => length vector = nb_params) (unbatched group) ->
  ExactIHVP.compute_ihvp self (Vectors group) false = Ok M ->
  ncols M = length (hd [] (batches group))
  /\ nrows M = length (batches group) * nrows (ExactIHVP.inv_hessian self).
Proof.
  intros Hlen. unfold ExactIHVP.compute_ihvp.
  assert (Hb : forall b, In b (batches group) ->
             Forall (fun vector => length vector = nb_params) b).
  { intros b Hb. apply Forall_forall. intros v Hv.
    rewrite Forall_forall in Hlen. apply Hlen. now apply (in_batches group b). }
  destruct (Nat.eq_dec nb_params 0) as [HP|HP].
  { destruct (batches group) as [|b bs]; [discriminate|].
    cbn [map sequence bind]. rewrite HP. discriminate. }
  set (product := fun vector : list (list F) =>
         v <- reshape_rows nb_params (concat vector) ;;
         matmul_transpose_b (ExactIHVP.inv_hessian self) v).
  assert (Hprod : forall b P, In b (batches group) -> product b = Ok P ->
             ncols P = length b /\ nrows P = nrows (ExactIHVP.inv_hessian self)).
  { intros b P Hin. unfold product. rewrite (reshape_rows_concat HP (Hb b Hin)).
    cbn [bind]. unfold matmul_transpose_b, nrows. cbn [ncols mrows].
    destruct (Nat.eqb _ _); [|discriminate].
    intros E. injection E as <-. cbn [ncols mrows]. now rewrite length_map. }
  destruct (sequence (map product (batches group))) as [products|] eqn:Eseq;
    [|discriminate].
  apply sequence_Ok_inv in Eseq. cbn [bind].
  assert (Hall : forall bs Ps, map product bs = map (@Ok _) Ps ->
             (forall b, In b bs -> In b (batches group)) ->
             length (concat (map mrows Ps))
             = length bs * nrows (ExactIHVP.inv_hessian self)).
  { induction bs as [|b bs IH]; intros [|P Ps] E Hsub; try discriminate; [reflexivity|].
    cbn [map] in E. injection E as EP EPs.
    cbn [map concat length]. rewrite length_app, (IH Ps EPs).
    - destruct (Hprod b P (Hsub b (or_introl eq_refl)) EP) as [_ Hn].
      unfold nrows in Hn. rewrite Hn. reflexivity.
    - intros b' Hb'. apply Hsub. now right. }
  unfold concat_axis0. destruct products as [|P Ps]; [discriminate|].
  destruct (forallb _ _); [|discriminate].
  intros E. injection E as <-. cbn [ncols]. unfold nrows at 1. cbn [mrows].
  split; [|exact (Hall (batches group) (P :: Ps) Eseq (fun b Hb' => Hb'))].
  destruct (batches group) as [|b bs] eqn:Ebs; [discriminate|].
  cbn [map] in Eseq. injection Eseq as EP _. cbn [hd].
  apply (Hprod b P (or_introl eq_refl) EP).
Qed.

End ExactShapes.

Lemma ExactIHVP_compute_ihvp_one_column_per_point_witness :
  exists M : Matrix float,
    ExactIHVP.compute_ihvp float_exact (Points two_points) true = Ok M
    /\ well_shaped M
    /\ ncols M = 2
    /\ nrows M = 2
    /\ map (column M) (seq 0 (ncols M))
       = [[1%float; 2%float]; [3%float; 4%float]].
Proof.
  destruct (@ExactIHVP_compute_ihvp_one_column_per_point float float float _ _
              float_exact two_points) as (M & E & Hw & Hc & Hr & Hcols);
    [discriminate | reflexivity |].
  exists M. repeat split; assumption.
Defined.

Lemma ExactIHVP_compute_ihvp_vectors_shape_witness :
  ncols (mkMatrix 1 [[1%float]; [2%float]; [3%float]; [4%float]]) = 1
  /\ nrows (mkMatrix 1 [[1%float]; [2%float]; [3%float]; [4%float]]) = 2 * 2.
Proof.
  apply (@ExactIHVP_compute_ihvp_vectors_shape float float float _ _
           float_exact two_vectors).
  - repeat constructor.
  - vm_compute. reflexivity.
Defined.

Section TopKSizes.
Context {B F X Y : Type} `{Scalar F} `{InfluenceModel F X Y}
        `{InverseHessianVectorProduct B F X Y}.

Lemma insert_length {V : Type} (e : F * V) (l : list (F * V)) :
  length (BatchedSortedDict.insert e l) = S (length l).
Proof.
  induction l as [|h l IH]; [reflexivity|].
  cbn. destruct (fleb (fst e) (fst h)); cbn; [now rewrite IH | reflexivity].
Qed.

Lemma add_row_length {V : Type} (k : nat) (l pairs : list (F * V)) :
  length (BatchedSortedDict.add_row k l pairs) = Nat.min k (length l + length pairs).
Proof.
  unfold BatchedSortedDict.add_row. rewrite length_firstn. f_equal.
  revert l. induction pairs as [|p pairs IH]; intros l; [cbn; lia|].
  cbn [fold_left length]. rewrite IH, insert_length. lia.
Qed.

Lemma accumulate_sizes {V : Type} (k n : nat) (fs : list (list (list (F * V))))
    (sizes : list nat) (st : list (list (F * V))) (m : nat) :
  Forall2 (feed_of_size n) fs sizes ->
  length st = n -> Forall (fun row => length row = Nat.min k m) st ->
  length (accumulate k fs st) = n
  /\ Forall (fun row => length row = Nat.min k (m + fold_right Nat.add 0 sizes))
            (accumulate k fs st).
Proof.
  intros Hfs. revert st m. induction Hfs as [|f b fs sizes [Hf Hrows] _ IH];
    intros st m Hst Hm.
  - cbn. now rewrite Nat.add_0_r.
  - unfold accumulate in *. cbn [fold_left fold_right].
    replace (m + (b + fold_right Nat.add 0 sizes))
      with ((m + b) + fold_right Nat.add 0 sizes) by lia.
    apply IH.
    + rewrite length_zip_with, Hst, Hf. apply Nat.min_id.
    + apply Forall_forall. intros row Hrow. apply in_zip_with in Hrow.
      destruct Hrow as (l & r & Hl & Hr & ->). rewrite add_row_length.
      rewrite Forall_forall in Hm, Hrows. rewrite (Hm l Hl), (Hrows r Hr). lia.
Qed.

Lemma pairs_fed_size (self : FirstOrderInfluenceCalculator.t B) (g : Matrix F)
    (n : nat) (dtype : DType) (batch : list (X * Y)) (f : list (list (F * X))) :
  nrows g = n ->
  pairs_fed self g n dtype batch = Ok f -> feed_of_size n f (length batch).
Proof.
  intros Hg. unfold pairs_fed, FirstOrderInfluenceCalculator.top_k_scores.
  destruct (length (map fst batch)) as [|b'] eqn:Eb; [discriminate|].
  destruct (compute_ihvp _ _ _) as [M|] eqn:EM; [|discriminate].
  destruct (compute_ihvp_shape _ _ EM) as [_ Hc]. cbn [unbatched] in Hc.
  cbn [bind]. unfold matmul.
  destruct (Nat.eqb _ _); [|discriminate]. cbn [bind mrows].
  intros E. injection E as <-. unfold feed_of_size.
  rewrite length_map, length_combine, length_map.
  unfold FirstOrderInfluenceCalculator.top_k_payloads. rewrite repeat_length.
  unfold nrows in Hg. rewrite Hg, Nat.min_id. split; [reflexivity|].
  apply Forall_forall. intros row Hrow.
  apply in_map_iff in Hrow. destruct Hrow as ([srow prow] & <- & Hin).
  cbn [fst snd]. rewrite length_combine.
  pose proof (in_combine_l _ _ _ _ Hin) as Hs.
  pose proof (in_combine_r _ _ _ _ Hin) as Hp.
  apply repeat_spec in Hp. subst prow.
  apply in_map_iff in Hs. destruct Hs as (a & <- & _).
  rewrite !length_map, length_seq.
  destruct (normalize_shape self M) as [-> _]. rewrite Hc. apply Nat.min_id.
Qed.

Lemma batch_sizes_sum (ds : Dataset (X * Y)) :
  fold_right Nat.add 0 (map (@length _) (batches ds)) = length (unbatched ds).
Proof.
  rewrite <- (batches_concat ds).
  induction (batches ds) as [|b bs IH]; [reflexivity|].
  cbn [map fold_right concat]. now rewrite length_app, IH.
Qed.

(** [top_k] returns one row per query point, and in every row as many
    values and training samples as there are training points, up to k:
    fewer than k training points give fewer than k results. *)
Theorem top_k_result_sizes
    (self : FirstOrderInfluenceCalculator.t B) (sample_to_evaluate : list (X * Y))
    (dataset_train : Dataset (X * Y)) (k : nat)
    (influences_values : list (list F)) (training_samples : list (list X)) :
  FirstOrderInfluenceCalculator.top_k self sample_to_evaluate dataset_train k
  = Ok (influences_values, training_samples) ->
  let n := Nat.min k (length (unbatched dataset_train)) in
  length influences_values = length sample_to_evaluate
  /\ length training_samples = length sample_to_evaluate
  /\ Forall (fun row => length row = n) influences_values
  /\ Forall (fun row => length row = n) training_samples.
Proof.
  intros E n. unfold FirstOrderInfluenceCalculator.top_k in E.
  rewrite top_k_over_batches_spec in E.
  destruct (query_gradients sample_to_evaluate) as [g|] eqn:Eg; [|discriminate].
  cbn [bind] in E.
  destruct (sequence _) as [fs|] eqn:Eseq; [|discriminate].
  cbn [bind] in E. injection E as <- <-.
  apply sequence_Ok_inv in Eseq.
  assert (Hfs : Forall2 (feed_of_size (length sample_to_evaluate)) fs
                        (map (@length _) (batches dataset_train))).
  { revert fs Eseq. induction (batches dataset_train) as [|b bs IH];
      intros [|f fs] Eseq; try discriminate; [constructor|].
    cbn [map] in Eseq. injection Eseq as Ef Efs. constructor; [|now apply IH].
    apply (pairs_fed_size self g (element_dtype dataset_train) b);
      [now apply query_gradients_rows | exact Ef]. }
  destruct (accumulate_sizes k 0 Hfs (st := repeat [] (length sample_to_evaluate)))
    as [Hlen Hrows].
  { apply repeat_length. }
  { apply Forall_forall. intros row Hrow. apply repeat_spec in Hrow. subst row.
    now rewrite Nat.min_0_r. }
  rewrite batch_sizes_sum in Hrows. cbn [Nat.add] in Hrows.
  rewrite !length_map. repeat split; try exact Hlen.
  - apply Forall_forall. intros row Hrow. apply in_map_iff in Hrow.
    destruct Hrow as (r & <- & Hr). rewrite length_map.
    rewrite Forall_forall in Hrows. now apply Hrows.
  - apply Forall_forall. intros row Hrow. apply in_map_iff in Hrow.
    destruct Hrow as (r & <- & Hr). rewrite length_map.
    rewrite Forall_forall in Hrows. now apply Hrows.
Qed.

End TopKSizes.

Lemma top_k_result_sizes_witness :
  FirstOrderInfluenceCalculator.top_k (Z_calculator false) Z_query Z_three_points 5
  = Ok ([[8%Z; 5%Z; 4%Z]], [[7%Z; 2%Z; 0%Z]])
  /\ Forall (fun row => length row = Nat.min 5 3) [[8%Z; 5%Z; 4%Z]].
Proof.
  assert (E : FirstOrderInfluenceCalculator.top_k (Z_calculator false) Z_query
                Z_three_points 5 = Ok ([[8%Z; 5%Z; 4%Z]], [[7%Z; 2%Z; 0%Z]]))
    by (vm_compute; reflexivity).
  split; [exact E|].
  exact (proj1 (proj2 (proj2 (top_k_result_sizes _ _ _ _ E)))).
Defined.

(* ================================================================== *)
(** * Further properties                                               *)
(* ================================================================== *)

(** ** [ConjugateGradientDescentIHVP.__reshape_vector] *)

Section ReshapeVector.
Context {F : Type}.

(** [__reshape_vector] cuts a flat vector that has at least as many entries
    as the weights into consecutive pieces, one per weight tensor and of
    that tensor's size; the pieces concatenated give back the entries that
    were cut, the whole vector when the sizes add up to its length.  The
    hypothesis is the case in which the [tf.reshape] of every piece
    succeeds. *)
Theorem reshape_vector_pieces (grads : list F) (weights : list nat) :
  list_sum weights <= length grads ->
  exists pieces : list (list F),
    ConjugateGradientDescentIHVP.__reshape_vector grads weights = Ok pieces
    /\ concat pieces = firstn (list_sum weights) grads
    /\ map (@length F) pieces = weights
    /\ (list_sum weights = length grads -> concat pieces = grads).
Proof.
  intros Hlen. unfold ConjugateGradientDescentIHVP.__reshape_vector.
  destruct (reshape_vector_loop_spec grads weights 0 Hlen) as (pieces & E & Hc & Hl).
  cbn [skipn] in Hc. exists pieces. repeat split; try assumption.
  intros E'. rewrite Hc, E'. apply firstn_all.
Qed.

End ReshapeVector.

Lemma reshape_vector_pieces_witness :
  exists pieces : list (list Z),
    ConjugateGradientDescentIHVP.__reshape_vector [1%Z; 2%Z; 3%Z; 4%Z; 5%Z] [2; 3]
    = Ok pieces
    /\ concat pieces = firstn (list_sum [2; 3]) [1%Z; 2%Z; 3%Z; 4%Z; 5%Z]
    /\ map (@length Z) pieces = [2; 3]
    /\ (list_sum [2; 3] = length [1%Z; 2%Z; 3%Z; 4%Z; 5%Z] ->
        concat pieces = [1%Z; 2%Z; 3%Z; 4%Z; 5%Z]).
Proof.
  apply (reshape_vector_pieces [1%Z; 2%Z; 3%Z; 4%Z; 5%Z] [2; 3]). cbn. lia.
Defined.

(** ** [ConjugateGradientDescentIHVP._compute_feature_map_dataset] *)

Section FeatureMapDataset.
Context {F X Feat Y : Type} `{Scalar F} `{SplitModel F X Feat Y}.

Lemma chunks_map {A A' : Type} (f : A -> A') (fuel n : nat) (l : list A) :
  chunks fuel n (map f l) = map (map f) (chunks fuel n l).
Proof.
  revert l. induction fuel as [|fuel IH]; intros l; [reflexivity|].
  destruct l as [|a l]; [reflexivity|].
  cbn [chunks map]. rewrite <- IH. f_equal.
  - change (f a :: map f l) with (map f (a :: l)). now rewrite firstn_map.
  - f_equal. change (f a :: map f l) with (map f (a :: l)). now rewrite skipn_map.
Qed.

Lemma batches_map {A A' : Type} (f : A -> A') (ds : Dataset A) (ds' : Dataset A') :
  _batch_size ds' = _batch_size ds -> map f (unbatched ds) = unbatched ds' ->
  batches ds' = map (map f) (batches ds).
Proof.
  intros Hb Hl. unfold batches. rewrite Hb, <- Hl, length_map. apply chunks_map.
Qed.

Lemma batches_nil {A : Type} (ds : Dataset A) : batches ds = [] <-> unbatched ds = [].
Proof.
  unfold batches. destruct (unbatched ds) as [|a l]; [now split|].
  cbn. split; discriminate.
Qed.

Lemma map_fst_combine {A A' : Type} (l : list A) (l' : list A') :
  length l = length l' -> map fst (combine l l') = l.
Proof.
  revert l'. induction l as [|a l IH]; intros [|a' l'] E; try discriminate; [reflexivity|].
  cbn. f_equal. apply IH. now injection E.
Qed.

Lemma map_snd_combine {A A' : Type} (l : list A) (l' : list A') :
  length l = length l' -> map snd (combine l l') = l'.
Proof.
  revert l'. induction l as [|a l IH]; intros [|a' l'] E; try discriminate; [reflexivity|].
  cbn. f_equal. apply IH. now injection E.
Qed.

(** [_compute_feature_map_dataset] fails exactly on a dataset without
    points.  Otherwise the feature-map dataset keeps the batch size, and
    batch by batch the labels of the dataset in their order; its features
    are the extracted feature maps of the inputs, batch by batch, when the
    dataset has two points or more.  On a dataset of exactly one point the
    squeeze removes the sample axis, and the single feature is the first
    slice of the feature map of the point. *)
Theorem feature_map_dataset_keeps_batches (dataset : Dataset (X * Y)) :
  match ConjugateGradientDescentIHVP._compute_feature_map_dataset dataset with
  | Raise _ => unbatched dataset = []
  | Ok feature_map_dataset =>
      unbatched dataset <> []
      /\ _batch_size feature_map_dataset = _batch_size dataset
      /\ map (map snd) (batches feature_map_dataset)
         = map (map snd) (batches dataset)
      /\ (2 <= length (unbatched dataset) ->
          map (map fst) (batches feature_map_dataset)
          = map (map (fun s => feature_extractor (fst s))) (batches dataset))
      /\ (forall x y, unbatched dataset = [(x, y)] ->
                      batches feature_map_dataset
                      = [[(first_slice (feature_extractor x), y)]])
  end.
Proof.
  unfold ConjugateGradientDescentIHVP._compute_feature_map_dataset.
  destruct (batches dataset) as [|b bs] eqn:Eb; [now apply batches_nil|].
  assert (Hne : unbatched dataset <> []).
  { intros E. apply batches_nil in E. congruence. }
  rewrite <- Eb. clear Eb b bs.
  set (l := unbatched dataset) in *.
  set (slices := match map (fun s => feature_extractor (fst s)) l with
                 | [f] => [first_slice f]
                 | _ => map (fun s => feature_extractor (fst s)) l
                 end).
  assert (Hlen : length slices = length (map snd l)).
  { unfold slices. destruct l as [|s [|s' l']]; try reflexivity.
    cbn [map length]. now rewrite !length_map. }
  split; [exact Hne|]. split; [reflexivity|]. split; [|split].
  - rewrite <- (batches_map snd (mkDataset (_batch_size dataset) (combine slices (map snd l))
                                           (element_dtype dataset))
                  (mkDataset (_batch_size dataset) (map snd l) (element_dtype dataset)));
      [|reflexivity | cbn [unbatched]; now apply map_snd_combine].
    now apply batches_map.
  - intros H2.
    rewrite <- (batches_map fst (mkDataset (_batch_size dataset) (combine slices (map snd l))
                                           (element_dtype dataset))
                  (mkDataset (_batch_size dataset) slices (element_dtype dataset)));
      [|reflexivity | cbn [unbatched]; now apply map_fst_combine].
    apply batches_map; [reflexivity|]. cbn [unbatched].
    fold l. unfold slices. clear Hlen slices. fold l in H2.
    destruct l as [|s [|s' l']]; cbn [length] in H2; try lia.
    reflexivity.
  - intros x y E. unfold slices. fold l in E. rewrite E.
    unfold batches. cbn [map combine unbatched _batch_size length chunks].
    destruct (Pos.to_nat (_batch_size dataset)) eqn:Ep;
      [pose proof (Pos2Nat.is_pos (_batch_size dataset)); lia|].
    cbn. now rewrite firstn_nil.
Qed.

End FeatureMapDataset.

(** ** [ConjugateGradientDescentIHVP.__call__] and the recorded cardinality *)

Section OperatorBounds.
Context {F X Feat Y : Type} `{Scalar F} `{SplitModel F X Feat Y}.

Local Abbreviation cgd := (ConjugateGradientDescentIHVP.t Feat Y).
Local Abbreviation runtime := (ConjugateGradientDescentIHVP.Runtime Feat Y).

(** The loop of [__call__] on an iterator that holds the batches
    [taken ++ rest], when [length taken] turns remain before the counter
    reaches the bound: it takes the batches [taken] and leaves [rest]. *)
Lemma while_loop_prefix (self : cgd) (x : list (list F))
    (its : list (list (list (Feat * Y)))) (taken rest : list (list (Feat * Y)))
    (fuel : nat) (bound i : Z) (acc : list F) (n : nat) :
  length taken = Z.to_nat (bound - i) -> length taken <= fuel ->
  ConjugateGradientDescentIHVP.while_loop fuel bound
    (ConjugateGradientDescentIHVP.body_func self x (length its)) i acc
    (ConjugateGradientDescentIHVP.mkRuntime (its ++ [taken ++ rest]) n)
  = Some (Ok ((i + Z.of_nat (length taken))%Z,
              fold_left (fun acc block =>
                           zip_with fadd acc
                             (ConjugateGradientDescentIHVP.reduce_sum_rows
                                (map (ConjugateGradientDescentIHVP.batched_hvp self x)
                                     block)))
                        taken acc),
          ConjugateGradientDescentIHVP.mkRuntime (its ++ [rest]) (n + length taken)).
Proof.
  revert fuel i acc n. induction taken as [|b taken IH]; intros fuel i acc n Hi Hfuel.
  - cbn [length] in Hi.
    assert (Hge : (i <? bound)%Z = false) by (apply Z.ltb_ge; lia).
    destruct fuel; cbn [ConjugateGradientDescentIHVP.while_loop];
      rewrite Hge, Nat.add_0_r, Z.add_0_r; reflexivity.
  - cbn [length] in Hi, Hfuel. destruct fuel as [|fuel]; [lia|].
    cbn [ConjugateGradientDescentIHVP.while_loop].
    assert (Hlt : (i <? bound)%Z = true) by (apply Z.ltb_lt; lia).
    rewrite Hlt. unfold ConjugateGradientDescentIHVP.body_func at 1.
    unfold ConjugateGradientDescentIHVP.next.
    cbn [ConjugateGradientDescentIHVP.iterators ConjugateGradientDescentIHVP.fetched app].
    rewrite nth_error_app_length, set_nth_app_length.
    rewrite IH by lia. cbn [fold_left length]. do 3 f_equal; [|lia].
    f_equal. lia.
Qed.

(** The same loop when more turns remain than the iterator holds batches:
    [next] raises on the exhausted iterator. *)
Lemma while_loop_exhausted (self : cgd) (x : list (list F))
    (its : list (list (list (Feat * Y)))) (bs : list (list (Feat * Y)))
    (fuel : nat) (bound i : Z) (acc : list F) (n : nat) :
  (i + Z.of_nat (length bs) < bound)%Z -> length bs < fuel ->
  ConjugateGradientDescentIHVP.while_loop fuel bound
    (ConjugateGradientDescentIHVP.body_func self x (length its)) i acc
    (ConjugateGradientDescentIHVP.mkRuntime (its ++ [bs]) n)
  = Some (Raise StopIteration,
          ConjugateGradientDescentIHVP.mkRuntime (its ++ [[]]) (n + length bs)).
Proof.
  revert fuel i acc n. induction bs as [|b bs IH]; intros fuel i acc n Hi Hfuel;
    cbn [length] in Hi, Hfuel; (destruct fuel as [|fuel]; [lia|]);
    cbn [ConjugateGradientDescentIHVP.while_loop];
    (assert (Hlt : (i <? bound)%Z = true) by (apply Z.ltb_lt; lia));
    rewrite Hlt; unfold ConjugateGradientDescentIHVP.body_func at 1;
    unfold ConjugateGradientDescentIHVP.next;
    cbn [ConjugateGradientDescentIHVP.iterators ConjugateGradientDescentIHVP.fetched];
    rewrite nth_error_app_length.
  - now rewrite Nat.add_0_r.
  - rewrite set_nth_app_length. rewrite IH by lia. cbn [length].
    now rewrite Nat.add_succ_r.
Qed.

(** One call of the operator on an instance whose recorded cardinality
    does not exceed the number of batches of its feature-map dataset. *)
Lemma call_prefix (self : cgd) (x_initial : list F) (x : list (list F))
    (rt : runtime) :
  (ConjugateGradientDescentIHVP.cardinality self
   <= Z.of_nat (length (batches (ConjugateGradientDescentIHVP.train_set self))))%Z ->
  ConjugateGradientDescentIHVP.__reshape_vector x_initial weight_sizes = Ok x ->
  let n := Z.to_nat (ConjugateGradientDescentIHVP.cardinality self) in
  let blocks := batches (ConjugateGradientDescentIHVP.train_set self) in
  ConjugateGradientDescentIHVP.__call__ self x_initial rt
  = Some (Ok (mkMatrix 1
                (map (fun a => [a])
                     (fold_left
                        (fun acc block =>
                           zip_with fadd acc
                             (ConjugateGradientDescentIHVP.reduce_sum_rows
                                (map (ConjugateGradientDescentIHVP.batched_hvp self x)
                                     block)))
                        (firstn n blocks) (repeat fzero tail_nb_params)))),
          ConjugateGradientDescentIHVP.mkRuntime
            (ConjugateGradientDescentIHVP.iterators rt ++ [skipn n blocks])
            (ConjugateGradientDescentIHVP.fetched rt + n)).
Proof.
  intros Hcard Hx n blocks.
  assert (Hn : length (firstn n blocks) = n).
  { rewrite length_firstn. unfold n, blocks. lia. }
  unfold ConjugateGradientDescentIHVP.__call__. rewrite Hx.
  unfold ConjugateGradientDescentIHVP.iter.
  fold blocks. rewrite <- (firstn_skipn n blocks) at 1.
  rewrite while_loop_prefix; [| rewrite Hn; unfold n; f_equal; lia | rewrite Hn; reflexivity].
  unfold reshape_column. rewrite accumulated_length by apply repeat_length.
  now rewrite Nat.eqb_refl, Hn.
Qed.

(** [__call__] runs [cardinality] turns, whatever the dataset holds.  On an
    instance whose recorded cardinality does not exceed the number of
    batches of its feature-map dataset, and on a vector that has at least as
    many entries as the weights of the tail model (so that
    [__reshape_vector] cuts it into the pieces [x]), the call does not
    raise: it accumulates over the first [cardinality] batches only and
    leaves the others in the iterator.  With a cardinality of zero or less
    (TensorFlow reports -1 and -2 for datasets of infinite and of unknown
    size) no batch is taken and the result is the zero column. *)
Theorem call_takes_the_first_cardinality_batches
    (self : cgd) (x_initial : list F) (rt : runtime) :
  (ConjugateGradientDescentIHVP.cardinality self
   <= Z.of_nat (length (batches (ConjugateGradientDescentIHVP.train_set self))))%Z ->
  list_sum weight_sizes <= length x_initial ->
  exists x : list (list F),
    ConjugateGradientDescentIHVP.__reshape_vector x_initial weight_sizes = Ok x
    /\ let n := Z.to_nat (ConjugateGradientDescentIHVP.cardinality self) in
       let blocks := batches (ConjugateGradientDescentIHVP.train_set self) in
       ConjugateGradientDescentIHVP.__call__ self x_initial rt
       = Some (Ok (mkMatrix 1
                     (map (fun a => [a])
                          (fold_left
                             (fun acc block =>
                                zip_with fadd acc
                                  (ConjugateGradientDescentIHVP.reduce_sum_rows
                                     (map (ConjugateGradientDescentIHVP.batched_hvp
                                             self x)
                                          block)))
                             (firstn n blocks) (repeat fzero tail_nb_params)))),
               ConjugateGradientDescentIHVP.mkRuntime
                 (ConjugateGradientDescentIHVP.iterators rt ++ [skipn n blocks])
                 (ConjugateGradientDescentIHVP.fetched rt + n))
       /\ ((ConjugateGradientDescentIHVP.cardinality self <= 0)%Z ->
           ConjugateGradientDescentIHVP.__call__ self x_initial rt
           = Some (Ok (mkMatrix 1 (repeat [fzero] tail_nb_params)),
                   ConjugateGradientDescentIHVP.mkRuntime
                     (ConjugateGradientDescentIHVP.iterators rt ++ [blocks])
                     (ConjugateGradientDescentIHVP.fetched rt))).
Proof.
  intros Hcard Hlen. destruct (reshape_vector_returns _ _ Hlen) as [x Hx].
  exists x. split; [exact Hx|]. intros n blocks.
  pose proof (call_prefix self x_initial rt Hcard Hx) as E. cbv zeta in E.
  fold n blocks in E.
  split; [exact E|].
  intros Hle. rewrite E.
  assert (n = 0) as -> by (unfold n; lia).
  cbn [firstn skipn fold_left]. now rewrite map_repeat, Nat.add_0_r.
Qed.

(** On an instance whose recorded cardinality exceeds the number of batches
    of its feature-map dataset, [__call__] on a vector that has at least as
    many entries as the weights of the tail model takes every batch and then
    fails with the [StopIteration] of [next]. *)
Theorem call_raises_when_cardinality_exceeds_batches
    (self : cgd) (x_initial : list F) (rt : runtime) :
  (Z.of_nat (length (batches (ConjugateGradientDescentIHVP.train_set self)))
   < ConjugateGradientDescentIHVP.cardinality self)%Z ->
  list_sum weight_sizes <= length x_initial ->
  ConjugateGradientDescentIHVP.__call__ self x_initial rt
  = Some (Raise StopIteration,
          ConjugateGradientDescentIHVP.mkRuntime
            (ConjugateGradientDescentIHVP.iterators rt ++ [[]])
            (ConjugateGradientDescentIHVP.fetched rt
             + length (batches (ConjugateGradientDescentIHVP.train_set self)))).
Proof.
  intros Hcard Hlen. destruct (reshape_vector_returns _ _ Hlen) as [x Hx].
  unfold ConjugateGradientDescentIHVP.__call__. rewrite Hx.
  unfold ConjugateGradientDescentIHVP.iter.
  rewrite while_loop_exhausted; [reflexivity | lia | lia].
Qed.

(** [__call__] cuts the vector before it touches the dataset: on a vector
    with fewer entries than the weights of the tail model it fails with the
    [InvalidArgumentError] of [tf.reshape], whatever the instance, without
    creating an iterator or taking a batch. *)
Theorem call_raises_on_a_short_vector
    (self : cgd) (x_initial : list F) (rt : runtime) :
  length x_initial < list_sum weight_sizes ->
  ConjugateGradientDescentIHVP.__call__ self x_initial rt
  = Some (Raise InvalidArgumentError, rt).
Proof.
  intros Hlen. unfold ConjugateGradientDescentIHVP.__call__.
  now rewrite (reshape_vector_short _ _ Hlen).
Qed.

End OperatorBounds.

(** ** [ConjugateGradientDescentIHVP.__call__], whatever the batches *)

Section ZipFolds.
Context {A : Type} (f : A -> A -> A).
Hypothesis f_assoc : forall a b c, f (f a b) c = f a (f b c).

Lemma zip_with_assoc (u v w : list A) :
  zip_with f (zip_with f u v) w = zip_with f u (zip_with f v w).
Proof.
  revert v w. induction u as [|a u IH]; intros [|b v] [|c w]; cbn; try reflexivity.
  now rewrite f_assoc, IH.
Qed.

Lemma fold_left_shift (l : list A) (a b : A) :
  fold_left f l (f a b) = f a (fold_left f l b).
Proof.
  revert b. induction l as [|c l IH]; intros b; [reflexivity|].
  cbn [fold_left]. now rewrite f_assoc, IH.
Qed.

End ZipFolds.

Lemma chunks_nonempty {A : Type} (fuel n : nat) (l : list A) (b : list A) :
  0 < n -> In b (chunks fuel n l) -> b <> [].
Proof.
  intros Hn. revert l. induction fuel as [|fuel IH]; intros l Hb; [contradiction|].
  destruct l as [|a l]; [contradiction|].
  cbn [chunks] in Hb. destruct Hb as [<-|Hb]; [|now apply (IH _ Hb)].
  destruct n; [lia | discriminate].
Qed.

Section OperatorSum.
Context {F X Feat Y : Type} `{Scalar F} `{SplitModel F X Feat Y}.

(** Exact arithmetic: addition is associative and zero is neutral on the
    left.  (Floating-point addition is not associative.) *)
Hypothesis fadd_assoc : forall a b c : F, fadd (fadd a b) c = fadd a (fadd b c).
Hypothesis fadd_0_l : forall a : F, fadd fzero a = a.

Local Abbreviation cgd := (ConjugateGradientDescentIHVP.t Feat Y).

Lemma zip_with_fadd_zeros_l (r : list F) :
  zip_with fadd (repeat fzero (length r)) r = r.
Proof. induction r as [|a r IH]; [reflexivity|]. cbn. now rewrite fadd_0_l, IH. Qed.

Lemma batched_hvp_length (self : cgd) (x : list (list F)) (s : Feat * Y) :
  length (ConjugateGradientDescentIHVP.batched_hvp self x s) = tail_nb_params.
Proof.
  unfold ConjugateGradientDescentIHVP.batched_hvp,
         ConjugateGradientDescentIHVP.__sub_call.
  rewrite length_map. apply hvp_oracle_size.
Qed.

(** Accumulating the sums of the batches is accumulating the samples one by
    one. *)
Lemma accumulated_blocks_are_samples (self : cgd) (x : list (list F))
    (bs : list (list (Feat * Y))) (acc : list F) :
  (forall b, In b bs -> b <> []) ->
  fold_left (fun acc block =>
               zip_with fadd acc
                 (ConjugateGradientDescentIHVP.reduce_sum_rows
                    (map (ConjugateGradientDescentIHVP.batched_hvp self x) block)))
            bs acc
  = fold_left (zip_with fadd)
              (map (ConjugateGradientDescentIHVP.batched_hvp self x) (concat bs)) acc.
Proof.
  revert acc. induction bs as [|b bs IH]; intros acc Hne; [reflexivity|].
  cbn [fold_left concat]. rewrite IH by (intros b' Hb'; apply Hne; now right).
  rewrite map_app, fold_left_app. f_equal.
  destruct b as [|s b]; [now destruct (Hne [] (or_introl eq_refl))|].
  cbn [map ConjugateGradientDescentIHVP.reduce_sum_rows fold_left].
  symmetry. apply fold_left_shift. intros u v w. now apply zip_with_assoc.
Qed.

Lemma samples_from_zeros (self : cgd) (x : list (list F)) (samples : list (Feat * Y)) :
  fold_left (zip_with fadd)
            (map (ConjugateGradientDescentIHVP.batched_hvp self x) samples)
            (repeat fzero tail_nb_params)
  = ConjugateGradientDescentIHVP.reduce_sum_rows
      (map (ConjugateGradientDescentIHVP.batched_hvp self x) samples).
Proof.
  destruct samples as [|s samples]; [reflexivity|].
  cbn [map ConjugateGradientDescentIHVP.reduce_sum_rows fold_left].
  rewrite <- (batched_hvp_length self x s) at 1. now rewrite zip_with_fadd_zeros_l.
Qed.

(** In exact arithmetic the operator of an instance built by the
    constructor does not depend on how the training set is batched: one
    call, on a vector that has at least as many entries as the weights of
    the tail model (so that [__reshape_vector] cuts it into the pieces [x]),
    returns, as a column, the sum over the samples of the feature-map
    dataset of their Hessian-vector products, each scaled by
    (1 / total training sample count). *)
Theorem call_sums_over_the_samples
    (train_dataset : Dataset (X * Y)) (n_cgd_iters : option nat)
    (self : cgd) (x_initial : list F)
    (rt : ConjugateGradientDescentIHVP.Runtime Feat Y) :
  ConjugateGradientDescentIHVP.__init__ train_dataset n_cgd_iters = Ok self ->
  list_sum weight_sizes <= length x_initial ->
  exists (x : list (list F)) (rt' : ConjugateGradientDescentIHVP.Runtime Feat Y),
    ConjugateGradientDescentIHVP.__reshape_vector x_initial weight_sizes = Ok x
    /\ ConjugateGradientDescentIHVP.__call__ self x_initial rt
       = Some (Ok (mkMatrix 1
                     (map (fun a => [a])
                          (ConjugateGradientDescentIHVP.reduce_sum_rows
                             (map (ConjugateGradientDescentIHVP.batched_hvp self x)
                                  (unbatched
                                     (ConjugateGradientDescentIHVP.train_set self)))))),
               rt').
Proof.
  intros Hinit Hlen. destruct (init_spec _ _ Hinit) as [Hcard _].
  destruct (reshape_vector_returns _ _ Hlen) as [x Hx].
  exists x. eexists. split; [exact Hx|].
  rewrite (@call_prefix _ _ _ _ _ _ self x_initial x rt) by (try rewrite Hcard; try lia; exact Hx).
  rewrite Hcard, Nat2Z.id, firstn_all.
  rewrite accumulated_blocks_are_samples
    by (intros b Hb; eapply chunks_nonempty; [apply Pos2Nat.is_pos | exact Hb]).
  now rewrite batches_concat, samples_from_zeros.
Qed.

End OperatorSum.

(** ** [FirstOrderInfluenceCalculator]: group vectors, influence values *)

Section IndexFacts.
Context {A : Type}.

Lemma map_nth_seq (l : list A) (d : A) :
  map (fun j => nth j l d) (seq 0 (length l)) = l.
Proof.
  induction l as [|a l IH]; [reflexivity|].
  cbn [length seq map nth]. f_equal.
  rewrite <- seq_shift, map_map. exact IH.
Qed.

Lemma zip_with_map_seq {A' A'' : Type} (f : A -> A' -> A'') (u : list A) (v : list A')
    (d : A) (d' : A') (n : nat) :
  length u = n -> length v = n ->
  map (fun j => f (nth j u d) (nth j v d')) (seq 0 n) = zip_with f u v.
Proof.
  revert v n. induction u as [|a u IH]; intros [|b v] n Hu Hv; subst n;
    try discriminate; [reflexivity|].
  cbn [length seq map nth zip_with]. f_equal.
  rewrite <- seq_shift, map_map. apply IH; [reflexivity|]. now injection Hv.
Qed.

End IndexFacts.

Section TransposeFacts.
Context {F : Type} `{Scalar F}.

Lemma nth_column (M : Matrix F) (i j : nat) :
  i < nrows M -> nth i (column M j) fzero = nth j (nth i (mrows M) []) fzero.
Proof.
  intros Hi. unfold column.
  rewrite (nth_indep _ fzero (nth j [] fzero)) by now rewrite length_map.
  apply (map_nth (fun r => nth j r fzero)).
Qed.

(** Column [i] of the transpose is row [i]. *)
Lemma column_transpose (M : Matrix F) (i : nat) :
  well_shaped M -> i < nrows M -> column (transpose M) i = nth i (mrows M) [].
Proof.
  intros HM Hi. unfold transpose, column at 1. cbn [mrows]. rewrite map_map.
  rewrite (map_ext _ (fun j => nth j (nth i (mrows M) []) fzero))
    by (intros j; now apply nth_column).
  unfold well_shaped in HM. rewrite Forall_forall in HM.
  rewrite <- (HM (nth i (mrows M) [])) by now apply nth_In.
  apply map_nth_seq.
Qed.

(** Summing the columns of the transpose is summing the rows. *)
Lemma reduce_sum_columns_transpose (M : Matrix F) :
  well_shaped M ->
  map (fun k => reduce_sum (column (transpose M) k)) (seq 0 (ncols (transpose M)))
  = reduce_sum_axis1 M.
Proof.
  intros HM. unfold reduce_sum_axis1.
  transitivity (map reduce_sum (map (fun k => nth k (mrows M) []) (seq 0 (nrows M))));
    [|unfold nrows; now rewrite map_nth_seq].
  rewrite map_map. apply map_ext_in. intros k Hk. apply in_seq in Hk.
  rewrite column_transpose; [reflexivity | assumption | lia].
Qed.

End TransposeFacts.

Section GroupVector.
Context {B F X Y : Type} `{Scalar F} `{InfluenceModel F X Y}
        `{InverseHessianVectorProduct B F X Y}.

(** The influence vector of a group is the sum of the influence vectors of
    its points, taken before any normalization: entry [k] of what
    [compute_influence_group] returns is the sum over the points of entry
    [k] of the rows that [compute_influence] returns with [normalize] off,
    and the vector of these sums is then divided by its norm when
    [normalize] is set. *)
Theorem compute_influence_group_sums_the_rows
    (self : FirstOrderInfluenceCalculator.t B) (group : Dataset (X * Y))
    (vectors : Matrix F) :
  FirstOrderInfluenceCalculator.compute_influence
    (FirstOrderInfluenceCalculator.mk
       (FirstOrderInfluenceCalculator.ihvp_calculator self) false) group
  = Ok vectors ->
  FirstOrderInfluenceCalculator.compute_influence_group self group
  = Ok (reshape_one_row
          (FirstOrderInfluenceCalculator.__normalize_if_needed_rank1 self
             (map (fun k => reduce_sum (column vectors k)) (seq 0 (ncols vectors))))).
Proof.
  unfold FirstOrderInfluenceCalculator.compute_influence,
         FirstOrderInfluenceCalculator.compute_influence_group.
  cbn [FirstOrderInfluenceCalculator.ihvp_calculator].
  destruct (compute_ihvp _ _ _) as [M|e] eqn:E; [|discriminate].
  destruct (compute_ihvp_shape _ _ E) as [HM _]. cbn [bind].
  unfold FirstOrderInfluenceCalculator.__normalize_if_needed.
  cbn [FirstOrderInfluenceCalculator.normalize].
  intros E'. injection E' as <-.
  now rewrite reduce_sum_columns_transpose.
Qed.

End GroupVector.

Section BroadcastFacts.
Context {F : Type} `{Scalar F}.

Lemma broadcast_size_same (a : nat) : broadcast_size a a = Some a.
Proof. unfold broadcast_size. now rewrite Nat.eqb_refl. Qed.

Lemma broadcast_entry_in_range (M : Matrix F) (i j : nat) :
  i < nrows M -> j < ncols M ->
  broadcast_entry M i j = nth j (nth i (mrows M) []) fzero.
Proof.
  intros Hi Hj. unfold broadcast_entry.
  destruct (Nat.eqb_spec (ncols M) 1) as [Ec|_], (Nat.eqb_spec (nrows M) 1) as [Er|_];
    repeat f_equal; lia.
Qed.

(** On operands of one shape nothing is broadcast: the product is taken
    entry by entry. *)
Lemma multiply_same_shape (A B : Matrix F) :
  well_shaped A -> well_shaped B -> nrows A = nrows B -> ncols A = ncols B ->
  multiply A B = Ok (mkMatrix (ncols A) (zip_with (zip_with fmul) (mrows A) (mrows B))).
Proof.
  intros HA HB Hr Hc. unfold multiply.
  rewrite <- Hr, <- Hc, !broadcast_size_same. do 2 f_equal.
  rewrite <- (zip_with_map_seq (zip_with fmul) (mrows A) (mrows B) [] [] (n := nrows A))
    by (unfold nrows in *; congruence).
  apply map_ext_in. intros i Hi. apply in_seq in Hi.
  unfold well_shaped in HA, HB. rewrite Forall_forall in HA, HB.
  rewrite <- (zip_with_map_seq fmul (nth i (mrows A) []) (nth i (mrows B) [])
                fzero fzero (n := ncols A)).
  - apply map_ext_in. intros j Hj. apply in_seq in Hj.
    rewrite !broadcast_entry_in_range; try lia; reflexivity.
  - apply HA, nth_In. unfold nrows in Hi. lia.
  - rewrite Hc. apply HB, nth_In. unfold nrows in *. lia.
Qed.

Lemma map_zip_with_map {S A A' A'' : Type} (h : A' -> A'') (g : list F -> A -> A')
    (f : S -> list F) (l : list S) (l' : list A) :
  map h (zip_with g (map f l) l') = zip_with (fun s a => h (g (f s) a)) l l'.
Proof.
  revert l'. induction l as [|s l IH]; intros [|a l']; cbn; try reflexivity.
  now rewrite IH.
Qed.

(** A cast that changes no entry changes no tensor. *)
Lemma mat_map_id (g : F -> F) (M : Matrix F) :
  (forall a, g a = a) -> mat_map g M = M.
Proof.
  intros Hg. destruct M as [c rows]. unfold mat_map. cbn [ncols mrows]. f_equal.
  rewrite <- (map_id rows) at 2. apply map_ext. intros r.
  rewrite <- (map_id r) at 2. now apply map_ext.
Qed.

Lemma well_shaped_transpose (M : Matrix F) : well_shaped (transpose M).
Proof.
  unfold well_shaped, transpose. cbn [ncols mrows].
  apply Forall_forall. intros r Hr. apply in_map_iff in Hr.
  destruct Hr as (j & <- & _). unfold column. now rewrite length_map.
Qed.

End BroadcastFacts.

Section InfluenceValuesFacts.
Context {B F X Y : Type} `{Scalar F} `{InfluenceModel F X Y}
        `{InverseHessianVectorProduct B F X Y} `{BaseInfluenceCalculator X Y}.

Local Abbreviation calculator := (FirstOrderInfluenceCalculator.t B).
Local Abbreviation gradient := (fun s : X * Y => per_sample_gradient (fst s) (snd s)).

(** The gradients of [n > 0] points reshaped to [(n, -1)]: one row per
    point. *)
Lemma reshape_first_gradients (dataset : Dataset (X * Y)) :
  unbatched dataset <> [] ->
  reshape_first (length (unbatched dataset)) (ExactIHVP.batch_jacobian dataset)
  = Ok (mkMatrix nb_params (map gradient (unbatched dataset))).
Proof.
  intros Hne. unfold ExactIHVP.batch_jacobian, reshape_first.
  pose proof (gradients_uniform (unbatched dataset)) as Hu.
  replace (length (unbatched dataset))
    with (length (map gradient (unbatched dataset))) by apply length_map.
  rewrite (length_concat_uniform Hu).
  destruct (map gradient (unbatched dataset)) as [|g ls] eqn:Els.
  { apply map_eq_nil in Els. contradiction. }
  change (length (g :: ls)) with (S (length ls)).
  rewrite (Nat.mul_comm (S (length ls))), Nat.Div0.mod_mul, Nat.div_mul by discriminate.
  cbn [Nat.eqb]. do 2 f_equal.
  change (S (length ls)) with (length (g :: ls)). now apply rows_of_concat.
Qed.

Lemma compute_influence_values_spec (self : calculator)
    (dataset_train dataset_to_evaluate : Dataset (X * Y)) (n : nat) (V : Matrix F) :
  assert_compatible_datasets dataset_train dataset_to_evaluate = Ok n -> n <> 0 ->
  compute_ihvp (FirstOrderInfluenceCalculator.ihvp_calculator self)
               (Points dataset_train) true = Ok V ->
  nrows V = nb_params ->
  FirstOrderInfluenceCalculator.compute_influence_values
    self dataset_train (Some dataset_to_evaluate)
  = Ok (mkMatrix 1
          (zip_with (fun s v => [dot (gradient s) v])
                    (unbatched dataset_to_evaluate)
                    (map (fun j => FirstOrderInfluenceCalculator.__normalize_if_needed_rank1
                                     self (column V j))
                         (seq 0 n)))).
Proof.
  intros Hn Hn0 HV HP.
  destruct (assert_compatible_datasets_size _ _ Hn) as [Ht He].
  destruct (compute_ihvp_shape _ _ HV) as [Hw Hc].
  unfold FirstOrderInfluenceCalculator.compute_influence_values.
  rewrite Hn. cbn [bind]. rewrite <- He at 1.
  rewrite reshape_first_gradients
    by (intros E; rewrite E in He; cbn in He; congruence).
  cbn [bind]. rewrite HV. cbn [bind].
  destruct (normalize_shape self V) as [Hnc Hnr].
  rewrite multiply_same_shape.
  - cbn [bind ncols mrows]. unfold reduce_sum_axis1_keepdims. cbn [mrows transpose].
    rewrite map_zip_with_map, Hnc, Hc, Ht. do 3 f_equal.
    apply map_ext_in. intros j Hj. apply in_seq in Hj.
    apply column_normalize; [assumption | lia].
  - unfold well_shaped. cbn [ncols mrows]. apply gradients_uniform.
  - apply well_shaped_transpose.
  - unfold nrows. cbn [mrows transpose]. rewrite !length_map, length_seq. congruence.
  - cbn [ncols transpose]. congruence.
Qed.

Lemma compute_influence_values_group_spec (self : calculator)
    (group_train group_to_evaluate : Dataset (X * Y)) (n : nat) (V : Matrix F) :
  assert_compatible_datasets group_train group_to_evaluate = Ok n -> n <> 0 ->
  compute_ihvp (FirstOrderInfluenceCalculator.ihvp_calculator self)
               (Points group_train) true = Ok V ->
  nrows V = nb_params ->
  FirstOrderInfluenceCalculator.compute_influence_values_group
    self group_train (Some group_to_evaluate)
  = Ok (mkMatrix 1
          [[dot (map (fun j => reduce_sum (map (fun s => nth j (gradient s) fzero)
                                               (unbatched group_to_evaluate)))
                     (seq 0 nb_params))
                (FirstOrderInfluenceCalculator.__normalize_if_needed_rank1
                   self (reduce_sum_axis1 V))]]).
Proof.
  intros Hn Hn0 HV HP.
  destruct (assert_compatible_datasets_size _ _ Hn) as [Ht He].
  destruct (compute_ihvp_shape _ _ HV) as [Hw Hc].
  unfold FirstOrderInfluenceCalculator.compute_influence_values_group.
  rewrite Hn. cbn [bind]. rewrite <- He at 1.
  rewrite reshape_first_gradients
    by (intros E; rewrite E in He; cbn in He; congruence).
  cbn [bind]. rewrite HV. cbn [bind].
  set (R := reduce_sum_axis1_keepdims V).
  assert (HR : well_shaped R).
  { unfold R, reduce_sum_axis1_keepdims, well_shaped. cbn [ncols mrows].
    apply Forall_forall. intros r Hr. apply in_map_iff in Hr.
    now destruct Hr as (r' & <- & _). }
  destruct (normalize_shape self R) as [Hnc Hnr].
  unfold matmul, reduce_sum_axis0_keepdims. cbn [ncols mrows].
  rewrite Hnr, Hnc. change (ncols R) with 1.
  replace (nrows R) with nb_params
    by (rewrite <- HP; unfold R, reduce_sum_axis1_keepdims, nrows; cbn [mrows];
        now rewrite length_map).
  rewrite Nat.eqb_refl. cbn [map seq]. do 4 f_equal. unfold dot. do 2 f_equal.
  - apply map_ext. intros j. unfold column. cbn [mrows]. now rewrite map_map.
  - rewrite column_normalize; [|assumption | unfold R; cbn; lia].
    f_equal. unfold R, reduce_sum_axis1_keepdims, column, reduce_sum_axis1.
    cbn [mrows]. now rewrite map_map.
Qed.

(** The influence value of a pair is the dot product of the gradient of the
    evaluation point with the influence vector of the training point: when
    [compute_influence] returns one vector of [nb_params] entries per
    training point and the datasets hold the same number [n > 0] of points,
    [compute_influence_values] returns the [n x 1] tensor whose row [i] is
    the sum of the products of the entries of the gradient of evaluation
    point [i] with those of row [i] of [compute_influence]; the evaluation
    points default to the training points. *)
Theorem compute_influence_values_pairs_gradients_with_vectors
    (self : calculator) (dataset_train : Dataset (X * Y))
    (dataset_to_evaluate : option (Dataset (X * Y))) (n : nat) (vectors : Matrix F) :
  let evaluated := match dataset_to_evaluate with
                   | None => dataset_train
                   | Some d => d
                   end in
  assert_compatible_datasets dataset_train evaluated = Ok n -> n <> 0 ->
  FirstOrderInfluenceCalculator.compute_influence self dataset_train = Ok vectors ->
  ncols vectors = nb_params ->
  FirstOrderInfluenceCalculator.compute_influence_values
    self dataset_train dataset_to_evaluate
  = Ok (mkMatrix 1 (zip_with (fun s v => [dot (gradient s) v])
                             (unbatched evaluated) (mrows vectors))).
Proof.
  intros evaluated Hn Hn0 Hvec HP.
  rewrite compute_influence_rows in Hvec.
  destruct (compute_ihvp _ _ _) as [V|] eqn:HV; [|discriminate].
  cbn [bind] in Hvec. injection Hvec as <-. cbn [ncols mrows] in *.
  destruct (assert_compatible_datasets_size _ _ Hn) as [-> _].
  rewrite <- (compute_influence_values_spec self dataset_train evaluated Hn Hn0 HV HP).
  unfold evaluated. now destruct dataset_to_evaluate.
Qed.

(** The influence value of a group is the dot product of the summed
    gradients of the evaluation group with the influence vector of the
    training group: when [compute_influence_group] returns a vector of
    [nb_params] entries and the groups hold the same number [n > 0] of
    points, [compute_influence_values_group] returns the [1 x 1] tensor
    holding the sum of the products of the entries of the sum of the
    evaluation gradients with those of that vector. *)
Theorem compute_influence_values_group_pairs_sum_with_group_vector
    (self : calculator) (group_train : Dataset (X * Y))
    (group_to_evaluate : option (Dataset (X * Y))) (n : nat) (vector : Matrix F) :
  let evaluated := match group_to_evaluate with
                   | None => group_train
                   | Some d => d
                   end in
  assert_compatible_datasets group_train evaluated = Ok n -> n <> 0 ->
  FirstOrderInfluenceCalculator.compute_influence_group self group_train = Ok vector ->
  ncols vector = nb_params ->
  FirstOrderInfluenceCalculator.compute_influence_values_group
    self group_train group_to_evaluate
  = Ok (mkMatrix 1
          [[dot (map (fun j => reduce_sum (map (fun s => nth j (gradient s) fzero)
                                               (unbatched evaluated)))
                     (seq 0 nb_params))
                (hd [] (mrows vector))]]).
Proof.
  intros evaluated Hn Hn0 Hvec HP.
  unfold FirstOrderInfluenceCalculator.compute_influence_group in Hvec.
  destruct (compute_ihvp _ _ _) as [V|] eqn:HV; [|discriminate].
  cbn [bind] in Hvec. injection Hvec as <-.
  unfold reshape_one_row in *. cbn [ncols mrows hd] in *.
  rewrite normalize_rank1_length in HP. unfold reduce_sum_axis1 in HP.
  rewrite length_map in HP.
  rewrite <- (compute_influence_values_group_spec self group_train evaluated Hn Hn0 HV HP).
  unfold evaluated. now destruct group_to_evaluate.
Qed.

(** On groups of one point [compute_influence_values_group] returns what
    [compute_influence_values] returns (the same [1 x 1] tensor, or the same
    exception), when the IHVP backend returns vectors of [nb_params]
    entries; in both the entries of the gradient are multiplied with those
    of the influence vector and the products added in index order. *)
Theorem compute_influence_values_group_singleton
    (self : calculator) (group_train : Dataset (X * Y))
    (group_to_evaluate : option (Dataset (X * Y))) :
  length (unbatched group_train) = 1 ->
  (forall V, compute_ihvp (FirstOrderInfluenceCalculator.ihvp_calculator self)
                          (Points group_train) true = Ok V -> nrows V = nb_params) ->
  FirstOrderInfluenceCalculator.compute_influence_values_group
    self group_train group_to_evaluate
  = FirstOrderInfluenceCalculator.compute_influence_values
      self group_train group_to_evaluate.
Proof.
  intros Hone Hrows.
  set (evaluated := match group_to_evaluate with
                    | None => group_train
                    | Some d => d
                    end).
  transitivity (FirstOrderInfluenceCalculator.compute_influence_values_group
                  self group_train (Some evaluated));
    [unfold evaluated; now destruct group_to_evaluate|].
  transitivity (FirstOrderInfluenceCalculator.compute_influence_values
                  self group_train (Some evaluated));
    [|unfold evaluated; now destruct group_to_evaluate].
  destruct (assert_compatible_datasets group_train evaluated) as [n|e] eqn:Hn.
  2:{ unfold FirstOrderInfluenceCalculator.compute_influence_values_group,
             FirstOrderInfluenceCalculator.compute_influence_values.
      now rewrite Hn. }
  destruct (assert_compatible_datasets_size _ _ Hn) as [Ht He].
  rewrite Hone in Ht. subst n.
  destruct (compute_ihvp (FirstOrderInfluenceCalculator.ihvp_calculator self)
                         (Points group_train) true) as [V|e] eqn:HV.
  2:{ unfold FirstOrderInfluenceCalculator.compute_influence_values_group,
             FirstOrderInfluenceCalculator.compute_influence_values.
      rewrite Hn. cbn [bind]. rewrite <- He at 1 2.
      rewrite reshape_first_gradients
        by (intros E; rewrite E in He; cbn in He; congruence).
      cbn [bind]. now rewrite HV. }
  destruct (compute_ihvp_shape _ _ HV) as [Hw Hc].
  rewrite (compute_influence_values_group_spec self group_train evaluated Hn
             (Nat.neq_succ_0 0) HV (Hrows V eq_refl)).
  rewrite (compute_influence_values_spec self group_train evaluated Hn
             (Nat.neq_succ_0 0) HV (Hrows V eq_refl)).
  destruct (unbatched evaluated) as [|s [|s' l]]; try discriminate.
  cbn [map seq zip_with]. do 4 f_equal.
  unfold reduce_sum. cbn [fold_left].
  rewrite <- (per_sample_gradient_length (fst s) (snd s)), map_nth_seq.
  rewrite reduce_sum_axis1_single_column; [reflexivity | assumption | congruence].
Qed.

End InfluenceValuesFacts.

(** ** [ExactIHVP]: the mean Hessian, whatever the batches *)

Section ExactMean.
Context {F X Y : Type} `{Scalar F} `{LinAlg F} `{InfluenceModel F X Y}.

(** Exact arithmetic: addition is associative and zero is neutral on the
    left.  (Floating-point addition is not associative.) *)
Hypothesis fadd_assoc : forall a b c : F, fadd (fadd a b) c = fadd a (fadd b c).
Hypothesis fadd_0_l : forall a : F, fadd fzero a = a.

(** The second derivatives of one sample form a [nb_params x nb_params]
    tensor. *)
Hypothesis per_sample_hessian_shape :
  forall x y, ncols (per_sample_hessian x y) = nb_params
              /\ nrows (per_sample_hessian x y) = nb_params
              /\ well_shaped (per_sample_hessian x y).

Lemma mat_add_assoc (A B C : Matrix F) :
  mat_add (mat_add A B) C = mat_add A (mat_add B C).
Proof.
  unfold mat_add. cbn [ncols mrows]. f_equal.
  apply zip_with_assoc. intros a b c. now apply zip_with_assoc.
Qed.

Lemma zip_with_zeros_l (r : list F) : zip_with fadd (repeat fzero (length r)) r = r.
Proof. induction r as [|a r IH]; [reflexivity|]. cbn. now rewrite fadd_0_l, IH. Qed.

Lemma mat_add_zeros_l (M : Matrix F) :
  ncols M = nb_params -> nrows M = nb_params -> well_shaped M ->
  mat_add (zeros nb_params nb_params) M = M.
Proof.
  destruct M as [c rows]. unfold nrows, well_shaped, mat_add, zeros.
  cbn [ncols mrows]. intros -> Hr Hw. f_equal. rewrite <- Hr at 2. clear Hr.
  induction Hw as [|r rows Hr _ IH]; [reflexivity|].
  cbn [length repeat zip_with]. rewrite IH. f_equal.
  rewrite <- Hr. apply zip_with_zeros_l.
Qed.

(** Adding the sum of a batch to the accumulator is adding its samples one
    by one. *)
Lemma streamed_sum_is_sum (cast : F -> F) (bs : list (list (X * Y))) (acc : Matrix F) :
  (forall a, cast a = a) -> (forall b, In b bs -> b <> []) ->
  fold_left (fun acc batch =>
               mat_add acc (mat_map cast (ExactIHVP.reduce_sum_axis0
                                            (ExactIHVP.batch_hessians batch))))
            bs acc
  = fold_left mat_add (ExactIHVP.batch_hessians (concat bs)) acc.
Proof.
  intros Hcast. revert acc. induction bs as [|b bs IH]; intros acc Hne; [reflexivity|].
  cbn [fold_left concat]. rewrite IH by (intros b' Hb'; apply Hne; now right).
  unfold ExactIHVP.batch_hessians at 3. rewrite map_app, fold_left_app. f_equal.
  rewrite mat_map_id by assumption.
  destruct b as [|s b]; [now destruct (Hne [] (or_introl eq_refl))|].
  cbn [ExactIHVP.batch_hessians map ExactIHVP.reduce_sum_axis0 fold_left].
  symmetry. apply fold_left_shift, mat_add_assoc.
Qed.

Lemma sum_from_zeros (samples : list (X * Y)) :
  fold_left mat_add (ExactIHVP.batch_hessians samples) (zeros nb_params nb_params)
  = ExactIHVP.reduce_sum_axis0 (ExactIHVP.batch_hessians samples).
Proof.
  destruct samples as [|s samples]; [reflexivity|].
  cbn [ExactIHVP.batch_hessians map ExactIHVP.reduce_sum_axis0 fold_left].
  destruct (per_sample_hessian_shape (fst s) (snd s)) as (Hc & Hr & Hw).
  now rewrite mat_add_zeros_l.
Qed.

(** In exact arithmetic, and when the cast to the dataset's dtype changes
    no entry, the Hessian that the streamed pass of [_compute_inv_hessian]
    hands to [pinv] is the sum of the per-sample second derivatives over the
    samples divided by their number: it does not depend on how the dataset
    is batched, and it is the Hessian of the [parallel_iter] branch when the
    sample count casts alike to the dataset's dtype and to the weights'. *)
Theorem streamed_hessian_is_the_sample_mean
    (dataset : Dataset (X * Y)) (parallel_iter : nat) :
  (Z.of_nat (length (unbatched dataset)) < 2 ^ 31)%Z ->
  (forall a : F, tf_cast (element_dtype dataset) a = a) ->
  let count := Z.of_nat (length (unbatched dataset)) in
  fst (ExactIHVP._compute_inv_hessian None dataset)
  = pinv (mat_div_scalar
            (ExactIHVP.reduce_sum_axis0 (ExactIHVP.batch_hessians (unbatched dataset)))
            (tf_cast_int (element_dtype dataset) count))
  /\ (tf_cast_int (element_dtype dataset) count = tf_cast_int weights_dtype count ->
      fst (ExactIHVP._compute_inv_hessian None dataset)
      = fst (ExactIHVP._compute_inv_hessian (Some parallel_iter) dataset)).
Proof.
  intros Hn Hcast count.
  assert (E : fst (ExactIHVP._compute_inv_hessian None dataset)
              = pinv (mat_div_scalar
                        (ExactIHVP.reduce_sum_axis0
                           (ExactIHVP.batch_hessians (unbatched dataset)))
                        (tf_cast_int (element_dtype dataset) count))).
  { unfold ExactIHVP._compute_inv_hessian. change 0%Z with (Z.of_nat 0).
    rewrite hessian_loop_spec; rewrite batches_concat; [|exact Hn].
    cbn [fst Nat.add]. rewrite streamed_sum_is_sum.
    - now rewrite batches_concat, sum_from_zeros.
    - exact Hcast.
    - intros b Hb. eapply chunks_nonempty; [apply Pos2Nat.is_pos | exact Hb]. }
  split; [exact E|]. intros Hcount. rewrite E.
  unfold ExactIHVP._compute_inv_hessian, ExactIHVP.reduce_mean_axis0. cbn [fst].
  unfold ExactIHVP.batch_hessians at 3. rewrite length_map. fold count.
  now rewrite Hcount.
Qed.

End ExactMean.

(** ** [ExactIHVP.__init__] on a dataset without points *)

Section ExactEmpty.
Context {F X Y : Type} `{Scalar F} `{LinAlg F} `{InfluenceModel F X Y}.

(** Constructing [ExactIHVP] from a dataset without points (and
    [parallel_iter] left at [None]) does not raise: the loop body never
    runs, and the inverse Hessian is the pseudo-inverse, computed in one
    call, of the [nb_params x nb_params] tensor whose every entry is
    [0 / 0], the zero accumulator divided by the zero sample count. *)
Theorem ExactIHVP_init_on_empty_dataset
    (dataset : Dataset (X * Y)) (train_hessian : option (Matrix F)) :
  unbatched dataset = [] ->
  let undefined := fdiv fzero (tf_cast_int (element_dtype dataset) 0%Z) in
  let hessian := mkMatrix nb_params (repeat (repeat undefined nb_params) nb_params) in
  ExactIHVP.__init__ (Some dataset) train_hessian None
  = (Ok (ExactIHVP.mk (Some dataset) (pinv hessian) None),
     [ExactIHVP.call_pinv (X := X) (Y := Y) hessian]).
Proof.
  intros Hempty undefined hessian.
  unfold ExactIHVP.__init__, ExactIHVP._compute_inv_hessian, batches.
  rewrite Hempty. cbn [length chunks fold_left app].
  unfold mat_div_scalar, zeros. cbn [ncols mrows]. now rewrite !map_repeat.
Qed.

End ExactEmpty.

(** ** [ExactIHVP.compute_ihvp] on vectors: batches of different sizes *)

Section ExactRagged.
Context {F X Y : Type} `{Scalar F} `{InfluenceModel F X Y}.

Lemma chunks_short_chunk {A : Type} (fuel n : nat) (l : list A) :
  0 < n -> length l <= fuel -> length l mod n <> 0 ->
  exists b, In b (chunks fuel n l) /\ length b < n.
Proof.
  intros Hn. revert l. induction fuel as [|fuel IH]; intros l Hfuel Hmod.
  - destruct l; [|cbn in Hfuel; lia]. cbn in Hmod. now rewrite Nat.Div0.mod_0_l in Hmod.
  - destruct l as [|a l]; [cbn in Hmod; now rewrite Nat.Div0.mod_0_l in Hmod|].
    cbn [chunks]. destruct (Nat.lt_ge_cases (length (a :: l)) n) as [Hlt|Hge].
    + exists (firstn n (a :: l)). split; [now left|].
      rewrite length_firstn. lia.
    + destruct (IH (skipn n (a :: l))) as (b & Hb & Hlen).
      * rewrite length_skipn. cbn [length] in *. lia.
      * rewrite length_skipn.
        replace (length (a :: l)) with ((length (a :: l) - n) + 1 * n) in Hmod by lia.
        now rewrite Nat.Div0.mod_add in Hmod.
      * exists b. split; [now right | exact Hlen].
Qed.

Lemma forallb_false_intro {A : Type} (p : A -> bool) (l : list A) (a : A) :
  In a l -> p a = false -> forallb p l = false.
Proof.
  intros Ha Hp. destruct (forallb p l) eqn:E; [|reflexivity].
  rewrite forallb_forall in E. rewrite (E a Ha) in Hp. discriminate.
Qed.

(** Without [use_gradient], [ExactIHVP.compute_ihvp] fails on a group of
    vectors whose last batch is smaller than the others: the per-batch
    products, of as many columns as their batches have vectors, are
    concatenated on axis 0. *)
Theorem compute_ihvp_vectors_raises_on_a_smaller_last_batch
    (self : ExactIHVP.t F X Y) (group : Dataset (list F)) :
  nb_params <> 0 ->
  ncols (ExactIHVP.inv_hessian self) = nb_params ->
  Forall (fun vector => length vector = nb_params) (unbatched group) ->
  Pos.to_nat (_batch_size group) < length (unbatched group) ->
  length (unbatched group) mod Pos.to_nat (_batch_size group) <> 0 ->
  ExactIHVP.compute_ihvp self (Vectors group) false = Raise InvalidArgumentError.
Proof.
  intros HP Hinv Hlen Hsize Hmod. unfold ExactIHVP.compute_ihvp.
  set (product := fun b : list (list F) =>
         mkMatrix (length b)
                  (map (fun a => map (fun v => dot a v) b)
                       (mrows (ExactIHVP.inv_hessian self)))).
  rewrite (map_ext_in _ (fun b => Ok (product b))).
  2:{ intros b Hb.
      assert (Hbl : Forall (fun vector => length vector = nb_params) b).
      { apply Forall_forall. intros v Hv. rewrite Forall_forall in Hlen.
        apply Hlen. now apply (in_batches group b). }
      rewrite (reshape_rows_concat HP Hbl). cbn [bind].
      unfold matmul_transpose_b. cbn [ncols mrows]. now rewrite Hinv, Nat.eqb_refl. }
  rewrite <- (map_map product (@Ok _)), sequence_map_Ok. cbn [bind].
  unfold batches in *.
  set (n := Pos.to_nat (_batch_size group)) in *.
  assert (Hn : 0 < n) by apply Pos2Nat.is_pos.
  destruct (@chunks_short_chunk _ (length (unbatched group)) n (unbatched group) Hn
              (Nat.le_refl _) Hmod) as (b & Hb & Hshort).
  destruct (unbatched group) as [|v l] eqn:El; [cbn in Hsize; lia|].
  cbn [length chunks map] in *. unfold concat_axis0.
  rewrite (forallb_false_intro _ _ (product b)); [reflexivity | | ].
  - change (In (product b) (map product (firstn n (v :: l)
                                         :: chunks (length l) n (skipn n (v :: l))))).
    now apply in_map.
  - cbn [product ncols]. apply Nat.eqb_neq. rewrite length_firstn.
    cbn [length]. lia.
Qed.

Lemma chunks_single {A : Type} (n : nat) (l : list A) :
  l <> [] -> length l <= n -> chunks (length l) n l = [l].
Proof.
  intros Hne Hlen. destruct l as [|a l]; [congruence|].
  cbn [length chunks]. rewrite firstn_all2 by exact Hlen.
  rewrite skipn_all2 by exact Hlen. now destruct (length l).
Qed.

(** Without [use_gradient], on a group of vectors of [nb_params] entries
    that fits in one batch, [ExactIHVP.compute_ihvp] returns a tensor with
    one column per vector, in the order of the group: column [j] is the
    inverse Hessian applied to vector [j]. *)
Theorem compute_ihvp_vectors_in_one_batch
    (self : ExactIHVP.t F X Y) (group : Dataset (list F)) :
  nb_params <> 0 ->
  ncols (ExactIHVP.inv_hessian self) = nb_params ->
  Forall (fun vector => length vector = nb_params) (unbatched group) ->
  unbatched group <> [] ->
  length (unbatched group) <= Pos.to_nat (_batch_size group) ->
  exists M : Matrix F,
    ExactIHVP.compute_ihvp self (Vectors group) false = Ok M
    /\ ncols M = length (unbatched group)
    /\ nrows M = nrows (ExactIHVP.inv_hessian self)
    /\ map (column M) (seq 0 (ncols M))
       = map (fun vector => map (fun h => dot h vector)
                                (mrows (ExactIHVP.inv_hessian self)))
             (unbatched group).
Proof.
  intros HP Hinv Hlen Hne Hfit. unfold ExactIHVP.compute_ihvp, batches.
  rewrite chunks_single by assumption. cbn [map sequence].
  rewrite (reshape_rows_concat HP Hlen). cbn [bind].
  unfold matmul_transpose_b. cbn [ncols mrows].
  rewrite Hinv, Nat.eqb_refl. cbn [bind]. unfold concat_axis0.
  cbn [forallb ncols]. rewrite Nat.eqb_refl. cbn [andb map concat mrows].
  rewrite app_nil_r. eexists. split; [reflexivity|].
  unfold nrows. cbn [ncols mrows]. rewrite length_map.
  repeat split. apply (columns_of_products (fun h vector => dot h vector)).
Qed.

End ExactRagged.

(** ** [ExactIHVP.compute_ihvp_single_batch] and [ExactIHVP.compute_hvp] *)

Section ExactSingleBatch.
Context {F X Y : Type} `{Scalar F} `{LinAlg F} `{InfluenceModel F X Y}.

(** With [use_gradient], and when the cast to the inverse Hessian's dtype
    changes no entry, [compute_ihvp_single_batch] on a batch returns what
    [compute_ihvp] returns on a dataset that holds the samples of the batch,
    however that dataset is batched.  Without [use_gradient] it raises on
    every batch: it reads [element_spec] of the tuple it is handed. *)
Theorem compute_ihvp_single_batch_is_compute_ihvp
    (inv_hessian_dtype : DType) (self : ExactIHVP.t F X Y)
    (group_batch : list (X * Y)) (batch_size : positive) (dtype : DType) :
  (forall a : F, tf_cast inv_hessian_dtype a = a) ->
  ExactIHVP.compute_ihvp_single_batch inv_hessian_dtype self group_batch true
  = ExactIHVP.compute_ihvp self (Points (mkDataset batch_size group_batch dtype)) true
  /\ ExactIHVP.compute_ihvp_single_batch inv_hessian_dtype self group_batch false
     = Raise AttributeError.
Proof.
  intros Hcast. split; [|reflexivity].
  unfold ExactIHVP.compute_ihvp_single_batch, ExactIHVP.compute_ihvp,
         ExactIHVP.batch_jacobian, ExactIHVP.batch_jacobian_tensor.
  cbn [unbatched]. destruct (reshape_rows _ _) as [grads|]; [|reflexivity].
  cbn [bind]. now rewrite mat_map_id.
Qed.

Lemma assign_hessian_spec (self : ExactIHVP.t F X Y) :
  ExactIHVP.assign_hessian_if_none self
  = (ExactIHVP.mk (ExactIHVP.train_set self) (ExactIHVP.inv_hessian self)
                  (Some (ExactIHVP.hessian_or_pinv self)),
     match ExactIHVP.hessian self with
     | None => [ExactIHVP.call_pinv (X := X) (Y := Y) (ExactIHVP.inv_hessian self)]
     | Some _ => []
     end).
Proof.
  unfold ExactIHVP.assign_hessian_if_none, ExactIHVP.hessian_or_pinv.
  destruct self as [ts inv [h|]]; reflexivity.
Qed.

(** [compute_hvp] is [compute_ihvp] with the Hessian in the place of its
    inverse, when the inverse has [nb_params] rows. *)
Lemma compute_hvp_as_compute_ihvp (self : ExactIHVP.t F X Y) (group : Group F X Y)
    (use_gradient : bool) :
  nrows (ExactIHVP.inv_hessian self) = nb_params ->
  fst (fst (ExactIHVP.compute_hvp self group use_gradient))
  = ExactIHVP.compute_ihvp
      (ExactIHVP.mk (ExactIHVP.train_set self) (ExactIHVP.hessian_or_pinv self) None)
      group use_gradient.
Proof.
  intros Hrows. unfold ExactIHVP.compute_hvp. rewrite assign_hessian_spec.
  cbn [fst]. unfold ExactIHVP.compute_ihvp, ExactIHVP.hessian_or_pinv at 1 2.
  cbn [ExactIHVP.hessian ExactIHVP.inv_hessian]. rewrite Hrows. reflexivity.
Qed.

(** [compute_hvp] derives the Hessian from its inverse at most once.  The
    first call on an instance that holds no Hessian makes one call of
    [pinv], on the inverse Hessian, and stores the result; the instance it
    leaves behind differs in nothing else.  Every later call makes no call
    of [pinv], leaves the instance as it is, and returns what the same call
    returns on the instance before the first call. *)
Theorem compute_hvp_caches_the_hessian
    (self : ExactIHVP.t F X Y) (group group' : Group F X Y)
    (use_gradient use_gradient' : bool) :
  let first := ExactIHVP.compute_hvp self group use_gradient in
  let self1 := snd (fst first) in
  let second := ExactIHVP.compute_hvp self1 group' use_gradient' in
  snd first = match ExactIHVP.hessian self with
              | None => [ExactIHVP.call_pinv (X := X) (Y := Y)
                           (ExactIHVP.inv_hessian self)]
              | Some _ => []
              end
  /\ ExactIHVP.hessian self1
     = Some (match ExactIHVP.hessian self with
             | None => pinv (ExactIHVP.inv_hessian self)
             | Some h => h
             end)
  /\ ExactIHVP.inv_hessian self1 = ExactIHVP.inv_hessian self
  /\ ExactIHVP.train_set self1 = ExactIHVP.train_set self
  /\ snd second = []
  /\ snd (fst second) = self1
  /\ fst (fst second)
     = fst (fst (ExactIHVP.compute_hvp self group' use_gradient')).
Proof.
  intros first self1 second. unfold second, self1, first, ExactIHVP.compute_hvp.
  rewrite !assign_hessian_spec. cbn [fst snd].
  rewrite ?assign_hessian_spec. cbn [fst snd ExactIHVP.hessian ExactIHVP.inv_hessian
                                      ExactIHVP.train_set].
  unfold ExactIHVP.hessian_or_pinv.
  cbn [ExactIHVP.hessian ExactIHVP.inv_hessian].
  destruct self as [ts inv [h|]]; cbn [ExactIHVP.hessian ExactIHVP.inv_hessian
                                        ExactIHVP.train_set]; repeat split.
Qed.

(** With [use_gradient], on an instance whose inverse Hessian has
    [nb_params] rows and whose Hessian has [nb_params] columns,
    [compute_hvp] returns a tensor with one column per point of the group,
    in the order of the group: column [j] is the Hessian applied to the
    gradient of point [j]. *)
Theorem compute_hvp_one_column_per_point
    (self : ExactIHVP.t F X Y) (group : Dataset (X * Y)) :
  nb_params <> 0 ->
  nrows (ExactIHVP.inv_hessian self) = nb_params ->
  ncols (ExactIHVP.hessian_or_pinv self) = nb_params ->
  exists M : Matrix F,
    fst (fst (ExactIHVP.compute_hvp self (Points group) true)) = Ok M
    /\ well_shaped M
    /\ ncols M = length (unbatched group)
    /\ nrows M = nrows (ExactIHVP.hessian_or_pinv self)
    /\ map (column M) (seq 0 (ncols M))
       = map (fun s => map (fun h => dot h (per_sample_gradient (fst s) (snd s)))
                           (mrows (ExactIHVP.hessian_or_pinv self)))
             (unbatched group).
Proof.
  intros HP Hrows Hcols. rewrite compute_hvp_as_compute_ihvp by assumption.
  set (with_hessian := ExactIHVP.mk (ExactIHVP.train_set self)
                                    (ExactIHVP.hessian_or_pinv self) None).
  pose proof (ExactIHVP_compute_ihvp_points with_hessian group HP Hcols) as E.
  eexists. split; [exact E|].
  destruct (ExactIHVP_compute_ihvp_shape with_hessian group E) as [Hw Hc].
  split; [exact Hw|]. split; [exact Hc|]. split.
  - unfold nrows. cbn [mrows]. apply length_map.
  - cbn [ncols]. apply columns_of_products.
Qed.

End ExactSingleBatch.

(** ** [ExactIHVP.__init__] does not check the Hessian it is handed *)

Section ExactDeferredFailure.
Context {F X Y : Type} `{Scalar F} `{LinAlg F} `{InfluenceModel F X Y}.

(** The constructor accepts a precomputed Hessian of any shape, at the cost
    of one call of [pinv]; when the pseudo-inverse does not have
    [nb_params] columns the failure comes later: every [compute_ihvp] with
    [use_gradient] on the instance raises, whatever the group. *)
Theorem init_accepts_a_hessian_of_any_shape
    (train_hessian : Matrix F) (parallel_iter : option nat) (group : Dataset (X * Y)) :
  nb_params <> 0 ->
  ncols (pinv train_hessian) <> nb_params ->
  exists self : ExactIHVP.t F X Y,
    ExactIHVP.__init__ None (Some train_hessian) parallel_iter
    = (Ok self, [ExactIHVP.call_pinv (X := X) (Y := Y) train_hessian])
    /\ ExactIHVP.compute_ihvp self (Points group) true = Raise InvalidArgumentError.
Proof.
  intros HP Hcols. eexists. split; [reflexivity|].
  unfold ExactIHVP.compute_ihvp, ExactIHVP.batch_jacobian.
  rewrite (reshape_rows_concat HP (gradients_uniform _)). cbn [bind].
  unfold matmul_transpose_b. cbn [ExactIHVP.inv_hessian ncols].
  apply Nat.eqb_neq in Hcols. now rewrite Hcols.
Qed.

End ExactDeferredFailure.

(** ** Influence values with [ExactIHVP], scores of [top_k], unit group
       vectors *)

Section MatmulFacts.
Context {F : Type} `{Scalar F}.

(** [tf.matmul(A, B)] is [tf.matmul(A, tf.transpose(B), transpose_b=True)]. *)
Lemma matmul_as_transpose_b (A B : Matrix F) :
  matmul A B = matmul_transpose_b A (transpose B).
Proof.
  unfold matmul, matmul_transpose_b, transpose, nrows. cbn [ncols mrows].
  rewrite length_map, length_seq.
  destruct (Nat.eqb _ _); [|reflexivity]. do 2 f_equal.
  apply map_ext. intros a. now rewrite map_map.
Qed.

Lemma zip_with_map_right {A A' A'' S : Type} (f : A -> A' -> A'') (g : S -> A')
    (u : list A) (l : list S) :
  zip_with f u (map g l) = zip_with (fun a s => f a (g s)) u l.
Proof.
  revert l. induction u as [|a u IH]; intros [|s l]; cbn; try reflexivity.
  now rewrite IH.
Qed.

End MatmulFacts.

Section TopKScoresAreValues.
Context {B F X Y : Type} `{Scalar F} `{InfluenceModel F X Y}
        `{InverseHessianVectorProduct B F X Y}.

(** The scores [top_k] ranks the points of a training batch by are
    influence values: the score matrix of the batch is the matrix of the
    query gradients times the transpose of what [compute_influence] returns
    on the batch, so that the score of query point [q] for training point
    [j] is the dot product of the gradient of [q] with the influence vector
    of [j]. *)
Theorem top_k_scores_are_products_with_influence_vectors
    (self : FirstOrderInfluenceCalculator.t B) (grads_to_evaluate : Matrix F)
    (dtype : DType) (batch : list (X * Y)) :
  batch <> [] ->
  FirstOrderInfluenceCalculator.top_k_scores self grads_to_evaluate dtype batch
  = (vectors <- FirstOrderInfluenceCalculator.compute_influence self
                  (mkDataset (Pos.of_nat (length batch)) batch dtype) ;;
     matmul_transpose_b grads_to_evaluate vectors).
Proof.
  intros Hne. unfold FirstOrderInfluenceCalculator.top_k_scores,
                     FirstOrderInfluenceCalculator.compute_influence.
  rewrite length_map. destruct batch as [|s batch]; [congruence|].
  cbn [length]. destruct (compute_ihvp _ _ _) as [M|e]; [|reflexivity].
  cbn [bind]. apply matmul_as_transpose_b.
Qed.

End TopKScoresAreValues.

Section InfluenceValuesExact.
Context {F X Y : Type} `{Scalar F} `{InfluenceModel F X Y}
        `{BaseInfluenceCalculator X Y}.

Local Abbreviation gradient := (fun s : X * Y => per_sample_gradient (fst s) (snd s)).

(** With [ExactIHVP] as the backend, over an inverse Hessian of
    [nb_params] rows and columns, the influence value of the pair [i] is
    the gradient of evaluation point [i] times the inverse Hessian times the
    gradient of training point [i] (the latter product divided by its norm
    when [normalize] is set): the self-influence of a point of gradient [g]
    is [g . (inv_hessian g)]. *)
Theorem compute_influence_values_exact
    (exact : ExactIHVP.t F X Y) (normalize : bool) (dataset_train : Dataset (X * Y))
    (dataset_to_evaluate : option (Dataset (X * Y))) (n : nat) :
  nb_params <> 0 ->
  ncols (ExactIHVP.inv_hessian exact) = nb_params ->
  nrows (ExactIHVP.inv_hessian exact) = nb_params ->
  let self := FirstOrderInfluenceCalculator.mk exact normalize in
  let evaluated := match dataset_to_evaluate with
                   | None => dataset_train
                   | Some d => d
                   end in
  assert_compatible_datasets dataset_train evaluated = Ok n -> n <> 0 ->
  FirstOrderInfluenceCalculator.compute_influence_values
    self dataset_train dataset_to_evaluate
  = Ok (mkMatrix 1
          (zip_with
             (fun s t =>
                [dot (gradient s)
                     (FirstOrderInfluenceCalculator.__normalize_if_needed_rank1 self
                        (map (fun h => dot h (gradient t))
                             (mrows (ExactIHVP.inv_hessian exact))))])
             (unbatched evaluated) (unbatched dataset_train))).
Proof.
  intros HP Hc Hr self evaluated Hn Hn0.
  pose proof (ExactIHVP_compute_ihvp_points exact dataset_train HP Hc) as HV.
  destruct (assert_compatible_datasets_size _ _ Hn) as [Ht _].
  transitivity (FirstOrderInfluenceCalculator.compute_influence_values
                  self dataset_train (Some evaluated));
    [unfold evaluated; now destruct dataset_to_evaluate|].
  change (ExactIHVP.compute_ihvp exact (Points dataset_train) true)
    with (compute_ihvp (FirstOrderInfluenceCalculator.ihvp_calculator self)
                       (Points dataset_train) true) in HV.
  rewrite (compute_influence_values_spec self dataset_train evaluated Hn Hn0 HV)
    by (unfold nrows in *; cbn [mrows]; now rewrite length_map).
  rewrite <- Ht.
  rewrite <- (map_map (column _)
                (FirstOrderInfluenceCalculator.__normalize_if_needed_rank1 self)).
  rewrite columns_of_products, map_map. now rewrite zip_with_map_right.
Qed.

End InfluenceValuesExact.

(** With [normalize] set and in exact real arithmetic, the vector
    [compute_influence_group] returns has norm one whenever the sum of the
    columns of the IHVP tensor has a non-zero norm. *)
Theorem compute_influence_group_unit_norm
    (B X Y : Type) (IB : InverseHessianVectorProduct B R X Y)
    (self : FirstOrderInfluenceCalculator.t B) (group : Dataset (X * Y))
    (M : Matrix R) :
  FirstOrderInfluenceCalculator.normalize self = true ->
  compute_ihvp (FirstOrderInfluenceCalculator.ihvp_calculator self)
               (Points group) true = Ok M ->
  norm (reduce_sum_axis1 M) <> 0%R ->
  exists vector : list R,
    FirstOrderInfluenceCalculator.compute_influence_group self group
    = Ok (mkMatrix (nrows M) [vector])
    /\ norm vector = 1%R.
Proof.
  intros Hn E Hnorm.
  unfold FirstOrderInfluenceCalculator.compute_influence_group. rewrite E.
  cbn [bind]. unfold reshape_one_row.
  unfold FirstOrderInfluenceCalculator.__normalize_if_needed_rank1. rewrite Hn.
  eexists. split.
  - f_equal. f_equal. unfold reduce_sum_axis1, nrows. now rewrite !length_map.
  - now apply norm_of_normalized.
Qed.

(** ** Concrete runs of the further properties *)

Lemma call_takes_the_first_cardinality_batches_witness :
  ConjugateGradientDescentIHVP.__call__ float_cgd_unknown_cardinality [1%float]
                                        fresh_runtime
  = Some (Ok (mkMatrix 1 [[0%float]]),
          ConjugateGradientDescentIHVP.mkRuntime
            [[[(1%float, 2%float); (3%float, 4%float)]]] 0).
Proof.
  destruct (call_takes_the_first_cardinality_batches
              float_cgd_unknown_cardinality [1%float] fresh_runtime
              ltac:(vm_compute; discriminate) (Nat.le_refl 1))
    as (x & _ & _ & E).
  apply E. vm_compute. discriminate.
Defined.

Lemma call_raises_when_cardinality_exceeds_batches_witness :
  ConjugateGradientDescentIHVP.__call__ float_cgd_two_turns [1%float] fresh_runtime
  = Some (Raise StopIteration,
          ConjugateGradientDescentIHVP.mkRuntime [[]] 1).
Proof.
  apply (call_raises_when_cardinality_exceeds_batches
           float_cgd_two_turns [1%float] fresh_runtime).
  - vm_compute. reflexivity.
  - apply Nat.le_refl.
Defined.

Lemma call_raises_on_a_short_vector_witness :
  ConjugateGradientDescentIHVP.__call__ float_cgd [] fresh_runtime
  = Some (Raise InvalidArgumentError, fresh_runtime).
Proof.
  apply (call_raises_on_a_short_vector float_cgd [] fresh_runtime).
  apply Nat.lt_0_1.
Defined.

#[local] Existing Instance R_split_model.

Lemma call_sums_over_the_samples_witness :
  exists rt',
    ConjugateGradientDescentIHVP.__call__ R_cgd [6%R] R_fresh_runtime
    = Some (Ok (mkMatrix 1 [[(6 * (1 / 3) + 6 * (1 / 3) + 6 * (1 / 3))%R]]), rt').
Proof.
  destruct (@call_sums_over_the_samples R R R R R_Scalar R_split_model
              (fun a b c => Rplus_assoc a b c) Rplus_0_l
              R_three_points (Some 100) R_cgd [6%R] R_fresh_runtime eq_refl
              (Nat.le_refl 1))
    as (x & rt' & Ex & E).
  change (Ok [[6%R]] = Ok x) in Ex. injection Ex as <-.
  exists rt'. exact E.
Defined.

#[local] Existing Instance R_pair_model.

Lemma normalize_divides_every_column_witness :
  FirstOrderInfluenceCalculator.compute_influence (float_calculator true) one_point
  = Ok (mkMatrix 2 [[(1 / PrimFloat.sqrt 5)%float; (2 / PrimFloat.sqrt 5)%float]])
  /\ exists R' : Matrix R,
       FirstOrderInfluenceCalculator.compute_influence
         (FirstOrderInfluenceCalculator.mk (ExactIHVP.mk None R_identity2 None) true)
         R_one_point = Ok R'
       /\ nrows R' = length (unbatched R_one_point)
       /\ norm (nth 0 (mrows R') []) = 1%R.
Proof.
  destruct normalize_divides_every_column as (Hdiv & Hunit & _). split.
  - rewrite (Hdiv _ _ _ _ _ _ (float_calculator true) one_point eq_refl).
    vm_compute. reflexivity.
  - apply (Hunit _ _ _ _
             (FirstOrderInfluenceCalculator.mk (ExactIHVP.mk None R_identity2 None) true)
             R_one_point
             (mkMatrix 1 [[(1 * 3 + 0 * 4)%R]; [(0 * 3 + 1 * 4)%R]]) 0).
    + reflexivity.
    + reflexivity.
    + cbn. lia.
    + unfold norm, column. cbn. apply Rgt_not_eq, sqrt_lt_R0. lra.
Defined.

Lemma compute_influence_group_sums_the_rows_witness :
  FirstOrderInfluenceCalculator.compute_influence_group (Z_calculator false) Z_three_points
  = Ok (mkMatrix 2 [[9%Z; 8%Z]]).
Proof.
  exact (compute_influence_group_sums_the_rows
           (Z_calculator false) Z_three_points
           (vectors := mkMatrix 2 [[2%Z; 3%Z]; [7%Z; 1%Z]; [0%Z; 4%Z]]) eq_refl).
Defined.

Lemma streamed_hessian_is_the_sample_mean_witness :
  fst (ExactIHVP._compute_inv_hessian None Z_three_points)
  = fst (ExactIHVP._compute_inv_hessian (Some 1) Z_three_points).
Proof.
  apply (streamed_hessian_is_the_sample_mean (F := Z) (X := Z) (Y := Z)).
  - intros a b c. cbn. lia.
  - intros a. reflexivity.
  - intros x y. repeat split; repeat constructor.
  - vm_compute. reflexivity.
  - intros a. reflexivity.
  - reflexivity.
Defined.

Lemma ExactIHVP_init_on_empty_dataset_witness :
  ExactIHVP.__init__ (Some no_point) None None
  = (Ok (ExactIHVP.mk (Some no_point)
           (pinv (mkMatrix 2 [[nan; nan]; [nan; nan]])) None),
     [ExactIHVP.call_pinv (X := float) (Y := float)
        (mkMatrix 2 [[nan; nan]; [nan; nan]])]).
Proof.
  exact (ExactIHVP_init_on_empty_dataset no_point None eq_refl).
Defined.

Lemma compute_ihvp_vectors_raises_on_a_smaller_last_batch_witness :
  ExactIHVP.compute_ihvp (X := float) (Y := float) float_exact (Vectors three_vectors) false
  = Raise InvalidArgumentError.
Proof.
  apply compute_ihvp_vectors_raises_on_a_smaller_last_batch.
  - discriminate.
  - reflexivity.
  - repeat constructor.
  - vm_compute. lia.
  - vm_compute. discriminate.
Defined.

Lemma compute_ihvp_vectors_in_one_batch_witness :
  exists M : Matrix float,
    ExactIHVP.compute_ihvp (X := float) (Y := float) float_exact
      (Vectors two_vectors_in_one_batch) false = Ok M
    /\ ncols M = 2
    /\ map (column M) (seq 0 (ncols M)) = [[1%float; 2%float]; [3%float; 4%float]].
Proof.
  destruct (@compute_ihvp_vectors_in_one_batch float float float _ _
              float_exact two_vectors_in_one_batch)
    as (M & E & Hc & _ & Hcols);
    [discriminate | reflexivity | repeat constructor | discriminate
     | vm_compute; lia |].
  exists M. repeat split; assumption.
Defined.

Lemma init_accepts_a_hessian_of_any_shape_witness :
  exists self : ExactIHVP.t float float float,
    ExactIHVP.__init__ None (Some one_by_three) None
    = (Ok self, [ExactIHVP.call_pinv (X := float) (Y := float) one_by_three])
    /\ ExactIHVP.compute_ihvp self (Points two_points) true = Raise InvalidArgumentError.
Proof.
  apply (init_accepts_a_hessian_of_any_shape (F := float) one_by_three None two_points);
    vm_compute; discriminate.
Defined.

Lemma compute_ihvp_single_batch_is_compute_ihvp_witness :
  ExactIHVP.compute_ihvp_single_batch tf_float64 float_exact
    [(1%float, 2%float); (3%float, 4%float)] true
  = ExactIHVP.compute_ihvp float_exact (Points two_points) true
  /\ ExactIHVP.compute_ihvp_single_batch tf_float64 float_exact
       [(1%float, 2%float); (3%float, 4%float)] false
     = Raise AttributeError.
Proof.
  apply (compute_ihvp_single_batch_is_compute_ihvp (F := float) tf_float64 float_exact
           [(1%float, 2%float); (3%float, 4%float)] 1 tf_float64).
  intros a. reflexivity.
Defined.

Lemma compute_hvp_one_column_per_point_witness :
  exists M : Matrix float,
    fst (fst (ExactIHVP.compute_hvp float_exact_with_hessian (Points two_points) true))
    = Ok M
    /\ ncols M = 2
    /\ map (column M) (seq 0 (ncols M)) = [[1%float; 2%float]; [3%float; 4%float]].
Proof.
  destruct (@compute_hvp_one_column_per_point float float float _ _ _
              float_exact_with_hessian two_points)
    as (M & E & _ & Hc & _ & Hcols); [discriminate | reflexivity | reflexivity |].
  exists M. repeat split; assumption.
Defined.

Lemma top_k_scores_are_products_with_influence_vectors_witness :
  FirstOrderInfluenceCalculator.top_k_scores (Z_calculator false) (mkMatrix 2 [[1%Z; 1%Z]])
    tf_int64 [(2%Z, 3%Z); (7%Z, 1%Z)]
  = Ok (mkMatrix 2 [[5%Z; 8%Z]]).
Proof.
  rewrite top_k_scores_are_products_with_influence_vectors by discriminate.
  vm_compute. reflexivity.
Defined.

#[local] Existing Instance same_size_calculator.

Lemma compute_influence_values_pairs_gradients_with_vectors_witness :
  FirstOrderInfluenceCalculator.compute_influence_values
    (Z_calculator false) Z_three_points None
  = Ok (mkMatrix 1 [[13%Z]; [50%Z]; [16%Z]]).
Proof.
  exact (compute_influence_values_pairs_gradients_with_vectors
           (Z_calculator false) Z_three_points None (n := 3)
           (vectors := mkMatrix 2 [[2%Z; 3%Z]; [7%Z; 1%Z]; [0%Z; 4%Z]])
           eq_refl (Nat.neq_succ_0 2) eq_refl eq_refl).
Defined.

Lemma compute_influence_values_group_pairs_sum_with_group_vector_witness :
  FirstOrderInfluenceCalculator.compute_influence_values_group
    (Z_calculator false) Z_three_points None
  = Ok (mkMatrix 1 [[145%Z]]).
Proof.
  exact (compute_influence_values_group_pairs_sum_with_group_vector
           (Z_calculator false) Z_three_points None (n := 3)
           (vector := mkMatrix 2 [[9%Z; 8%Z]])
           eq_refl (Nat.neq_succ_0 2) eq_refl eq_refl).
Defined.

Lemma compute_influence_values_group_singleton_witness :
  FirstOrderInfluenceCalculator.compute_influence_values_group
    (Z_calculator false) Z_one_point None
  = FirstOrderInfluenceCalculator.compute_influence_values
      (Z_calculator false) Z_one_point None
  /\ FirstOrderInfluenceCalculator.compute_influence_values
       (Z_calculator false) Z_one_point None
     = Ok (mkMatrix 1 [[25%Z]]).
Proof.
  split; [|reflexivity].
  apply compute_influence_values_group_singleton; [reflexivity|].
  intros V E. vm_compute in E. injection E as <-. reflexivity.
Defined.

Lemma compute_influence_values_exact_witness :
  FirstOrderInfluenceCalculator.compute_influence_values
    (Z_calculator false) Z_three_points None
  = Ok (mkMatrix 1 [[13%Z]; [50%Z]; [16%Z]]).
Proof.
  exact (compute_influence_values_exact
           (ExactIHVP.mk None Z_identity2 None) false Z_three_points None (n := 3)
           (Nat.neq_succ_0 1) eq_refl eq_refl eq_refl (Nat.neq_succ_0 2)).
Defined.

Lemma compute_influence_group_unit_norm_witness :
  exists vector : list R,
    FirstOrderInfluenceCalculator.compute_influence_group
      (FirstOrderInfluenceCalculator.mk (ExactIHVP.mk None R_identity2 None) true)
      R_one_point
    = Ok (mkMatrix 2 [vector])
    /\ norm vector = 1%R.
Proof.
  apply (@compute_influence_group_unit_norm _ _ _ _
           (FirstOrderInfluenceCalculator.mk (ExactIHVP.mk None R_identity2 None) true)
           R_one_point
           (mkMatrix 1 [[(1 * 3 + 0 * 4)%R]; [(0 * 3 + 1 * 4)%R]])).
  - reflexivity.
  - reflexivity.
  - unfold norm, reduce_sum_axis1. cbn.
    apply Rgt_not_eq, sqrt_lt_R0. lra.
Defined.
